(** * ha-map: the map reconciliation component

    A shallow embedding of [src/frontend/src/components/map/ha-map.ts]
    (class [HaMap]) and the properties its specification states about it.

    Modelling conventions.
    - A JavaScript [number] is an IEEE 754 binary64 value, Rocq's primitive
      [float]: every operation rounds to nearest, ties to even, and there
      are two zeros, two infinities and one [NaN].
    - An optional property ([x?: T], or a value that may be [undefined]) is an
      [option].
    - The component is a record of its fields; its methods are computations
      in a state-and-exception monad over that record, so that a [TypeError]
      raised half way keeps the mutations made before it.
    - Every Leaflet object carries the identity Leaflet gives it
      ([_leaflet_id], drawn from the library's global counter); the live map
      is the set of identities attached to it, so that [addLayer] of a layer
      already on the map changes nothing. A layer is on this map or on
      none. Of what the library does inside, the [TypeError]s are modelled:
      a call on a missing object or method, [getBounds] of a circle that
      is on no map, and [pad] of a region that holds no point; the
      factories and the other methods of the map are total.
    - [hass.states] is a plain object: a lookup that finds no entity of that
      name still finds the members of [Object.prototype].
    - JavaScript strings are modelled by Rocq strings, a character for a
      code unit.
    - Functions of the repository that the component imports but that are
      not part of it (state-name and domain helpers, date formatters, the
      touch flag, computed CSS colours) are parameters of the development. *)

From Stdlib Require Import ZArith Floats String Ascii List Bool Lia.
From stdpp Require Import gmap strings list.

Open Scope string_scope.

(** ** JavaScript numbers *)

Definition number : Set := float.
Bind Scope float_scope with number.

(** [Boolean(n)]: the two zeros and [NaN] are falsy. *)
Definition num_truthy (n : number) : bool := negb (is_zero n || is_nan n).

Definition num_add (a b : number) : number := (a + b)%float.
Definition num_sub (a b : number) : number := (a - b)%float.
Definition num_mul (a b : number) : number := (a * b)%float.
Definition num_div (a b : number) : number := (a / b)%float.

(** The number an integer is: the nearest double. *)
Definition num_of_Z (z : Z) : number :=
  SF2Prim (binary_normalize prec emax z 0 false).
Definition num_of_nat (n : nat) : number := num_of_Z (Z.of_nat n).

(** [SameValueZero]: the same number, the sign of a zero apart, and [NaN]
    the same as itself. *)
Definition same_value_zero (a b : number) : bool :=
  (a =? b)%float || (is_nan a && is_nan b).

(** Truthiness of the other JavaScript values the component tests. *)
Definition str_truthy (s : string) : bool :=
  match s with EmptyString => false | _ => true end.

Definition opt_bool_truthy (o : option bool) : bool :=
  match o with Some b => b | None => false end.

(** ** Strings: the initials of a title, [split], first characters, [join],
    [substr(0, 3)] *)

Definition is_space (c : ascii) : bool := Ascii.eqb c " "%char.

(** [initials_from fresh s]: the first character of every space-separated
    part of [s]; [fresh] says that the next character starts a part. *)
Fixpoint initials_from (fresh : bool) (s : string) : string :=
  match s with
  | EmptyString => EmptyString
  | String c rest =>
      if is_space c then initials_from true rest
      else if fresh then String c (initials_from false rest)
      else initials_from false rest
  end.

Fixpoint substr0 (n : nat) (s : string) : string :=
  match n, s with
  | S k, String c rest => String c (substr0 k rest)
  | _, _ => EmptyString
  end.

Definition initials (title : string) : string :=
  substr0 3 (initials_from true title).

(** ** Data model *)

Definition LatLng : Type := number * number.

Inductive ThemeMode := Auto | Dark | Light.

Inductive LabelMode := LabelName | LabelState.

(** [HaMapEntity] *)
Record HaMapEntity := {
  entity_id : string;
  color : string;
  label_mode : option LabelMode;
  name : option string;
  focus : option bool;
}.

(** [string | HaMapEntity] *)
Inductive EntitySpec :=
| EntityId (id : string)
| EntityObj (e : HaMapEntity).

Definition getEntityId (entity : EntitySpec) : string :=
  match entity with
  | EntityId id => id
  | EntityObj e => entity_id e
  end.

(** [HaMapPathPoint]; a [Date] is its epoch value. *)
Record HaMapPathPoint := {
  point : LatLng;
  timestamp : Z;
}.

(** [HaMapPaths] *)
Record HaMapPaths := {
  points : list HaMapPathPoint;
  path_color : option string;
  path_name : option string;
  gradualOpacity : option number;
  fullDatetime : option bool;
}.

(** The attributes of a state object that [_drawEntities] destructures. *)
Record Attributes := {
  latitude : option number;
  longitude : option number;
  passive : option bool;
  icon : option string;
  radius : option number;
  entity_picture : option string;
  gps_accuracy : option number;
}.

(** A state object of the snapshot. [obj_ref] is the identity of the
    JavaScript object, which is what [!==] compares in [update]. *)
Record HassEntity := {
  obj_ref : nat;
  state_entity_id : string;
  state : string;
  attributes : Attributes;
}.

(** The part of [HomeAssistant] the component reads. *)
Record HomeAssistant := {
  states : gmap string HassEntity;
  config_latitude : number;
  config_longitude : number;
  themes_darkMode : bool;
}.

(** The names that a lookup on a plain object finds on [Object.prototype]
    when the object has no own property of that name. *)
Definition Object_prototype : list string :=
  [ "constructor"; "hasOwnProperty"; "isPrototypeOf";
    "propertyIsEnumerable"; "toLocaleString"; "toString"; "valueOf";
    "__proto__"; "__defineGetter__"; "__defineSetter__";
    "__lookupGetter__"; "__lookupSetter__" ].

(** What [hass.states[id]] evaluates to: the state object of an entity of
    the snapshot; or a member inherited from [Object.prototype], which is
    truthy (a function, or the prototype itself) and has no [attributes];
    or [undefined]. *)
Inductive StatesMember :=
| StateObj (stateObj : HassEntity)
| Inherited (key : string).

Definition states_at (h : HomeAssistant) (id : string)
    : option StatesMember :=
  match states h !! id with
  | Some stateObj => Some (StateObj stateObj)
  | None =>
      if bool_decide (id ∈ Object_prototype) then Some (Inherited id)
      else None
  end.

(** *** Leaflet objects *)

(** The element a [divIcon] is built from, before serialisation. *)
Inductive IconHtml :=
| HaIconEl (icon_attr : string)
| SpanEl (innerHTML : string)
| HaEntityMarkerEl (e_id e_name e_picture : string) (e_color : option string).

Record DivIcon := {
  html : IconHtml;
  iconSize : Z * Z;
  className : string;
}.

Inductive Shape :=
| marker (latlng : LatLng) (ic : DivIcon) (interactive : option bool)
    (title : string)
| circle (latlng : LatLng) (interactive : bool) (col : string)
    (rad : option number)
| circleMarker (latlng : LatLng) (rad : Z) (col : string)
    (opacity fillOpacity : option number) (interactive : bool)
    (tooltip : option string)
| polyline (latlngs : list LatLng) (col : string) (opacity : option number)
    (interactive : bool)
| otherLayer.

Record Layer := {
  _leaflet_id : nat;
  shape : Shape;
}.

Definition is_marker (sh : Shape) : bool :=
  match sh with marker _ _ _ _ => true | _ => false end.
Definition is_circleMarker (sh : Shape) : bool :=
  match sh with circleMarker _ _ _ _ _ _ _ => true | _ => false end.
Definition is_polyline (sh : Shape) : bool :=
  match sh with polyline _ _ _ _ => true | _ => false end.

(** A point marker with a tooltip bound to it. *)
Definition has_tooltip (sh : Shape) : bool :=
  match sh with
  | circleMarker _ _ _ _ _ _ (Some _) => true
  | _ => false
  end.

(** What [bounds.extend] receives for a layer:
    ["getBounds" in layer ? layer.getBounds() : layer.getLatLng()]. *)
Inductive Extent :=
| BoundsOf (l : Layer)
| PointAt (p : LatLng).

Definition getLatLng (l : Layer) : option LatLng :=
  match shape l with
  | marker p _ _ _ | circle p _ _ _ | circleMarker p _ _ _ _ _ _ => Some p
  | polyline _ _ _ _ | otherLayer => None
  end.

Definition has_getBounds (l : Layer) : bool :=
  match shape l with
  | circle _ _ _ _ | polyline _ _ _ _ => true
  | _ => false
  end.

(** The live map: its own identity and the layers attached to it. *)
Record LMap := {
  map_id : nat;
  map_layers : gset nat;
}.

Inductive LeafletModuleType := LeafletModule.

(** Calls into the library that move the viewport or compute a region. *)
Inductive LeafletCall :=
| call_setView (center : LatLng) (z : number)
| call_latLngBounds (pts : list LatLng)
| call_extend (e : Extent)
| call_pad (ratio : number)
| call_fitBounds (maxZoom : number)
| call_setZoom (z : number)
| call_remove (m : nat).

(** The class list of the [#map] element. *)
Record ClassList := {
  cls_dark : bool;
  cls_forced_dark : bool;
  cls_forced_light : bool;
}.

(** ** The component *)

Record HaMap := {
  hass : option HomeAssistant;
  entities : option (list EntitySpec);
  paths : option (list HaMapPaths);
  layers : option (list Layer);
  autoFit : bool;
  renderPassive : bool;
  interactiveZones : bool;
  fitZones : bool;
  themeMode : ThemeMode;
  zoom : number;
  _loaded : bool;
  leafletMap : option LMap;
  Leaflet : option LeafletModuleType;
  _resizeObserver : option bool;
  _mapItems : list Layer;
  _mapFocusItems : list Layer;
  _mapZones : list Layer;
  _mapPaths : list Layer;
  _loading : bool;
  (* outside the class: the [#map] element of the shadow root, the
     library's identity counter, the calls made so far *)
  mapEl : option ClassList;
  lastId : nat;
  trace : list LeafletCall;
}.

Definition set__loaded (v : bool) (s : HaMap) : HaMap :=
  {| hass := hass s; entities := entities s; paths := paths s;
     layers := layers s; autoFit := autoFit s;
     renderPassive := renderPassive s;
     interactiveZones := interactiveZones s; fitZones := fitZones s;
     themeMode := themeMode s; zoom := zoom s; _loaded := v;
     leafletMap := leafletMap s; Leaflet := Leaflet s;
     _resizeObserver := _resizeObserver s; _mapItems := _mapItems s;
     _mapFocusItems := _mapFocusItems s; _mapZones := _mapZones s;
     _mapPaths := _mapPaths s; _loading := _loading s; mapEl := mapEl s;
     lastId := lastId s; trace := trace s |}.

Definition set_leafletMap (v : option LMap) (s : HaMap) : HaMap :=
  {| hass := hass s; entities := entities s; paths := paths s;
     layers := layers s; autoFit := autoFit s;
     renderPassive := renderPassive s;
     interactiveZones := interactiveZones s; fitZones := fitZones s;
     themeMode := themeMode s; zoom := zoom s; _loaded := _loaded s;
     leafletMap := v; Leaflet := Leaflet s;
     _resizeObserver := _resizeObserver s; _mapItems := _mapItems s;
     _mapFocusItems := _mapFocusItems s; _mapZones := _mapZones s;
     _mapPaths := _mapPaths s; _loading := _loading s; mapEl := mapEl s;
     lastId := lastId s; trace := trace s |}.

Definition set_Leaflet (v : option LeafletModuleType) (s : HaMap) : HaMap :=
  {| hass := hass s; entities := entities s; paths := paths s;
     layers := layers s; autoFit := autoFit s;
     renderPassive := renderPassive s;
     interactiveZones := interactiveZones s; fitZones := fitZones s;
     themeMode := themeMode s; zoom := zoom s; _loaded := _loaded s;
     leafletMap := leafletMap s; Leaflet := v;
     _resizeObserver := _resizeObserver s; _mapItems := _mapItems s;
     _mapFocusItems := _mapFocusItems s; _mapZones := _mapZones s;
     _mapPaths := _mapPaths s; _loading := _loading s; mapEl := mapEl s;
     lastId := lastId s; trace := trace s |}.

Definition set__resizeObserver (v : option bool) (s : HaMap) : HaMap :=
  {| hass := hass s; entities := entities s; paths := paths s;
     layers := layers s; autoFit := autoFit s;
     renderPassive := renderPassive s;
     interactiveZones := interactiveZones s; fitZones := fitZones s;
     themeMode := themeMode s; zoom := zoom s; _loaded := _loaded s;
     leafletMap := leafletMap s; Leaflet := Leaflet s;
     _resizeObserver := v; _mapItems := _mapItems s;
     _mapFocusItems := _mapFocusItems s; _mapZones := _mapZones s;
     _mapPaths := _mapPaths s; _loading := _loading s; mapEl := mapEl s;
     lastId := lastId s; trace := trace s |}.

Definition set__mapItems (v : list Layer) (s : HaMap) : HaMap :=
  {| hass := hass s; entities := entities s; paths := paths s;
     layers := layers s; autoFit := autoFit s;
     renderPassive := renderPassive s;
     interactiveZones := interactiveZones s; fitZones := fitZones s;
     themeMode := themeMode s; zoom := zoom s; _loaded := _loaded s;
     leafletMap := leafletMap s; Leaflet := Leaflet s;
     _resizeObserver := _resizeObserver s; _mapItems := v;
     _mapFocusItems := _mapFocusItems s; _mapZones := _mapZones s;
     _mapPaths := _mapPaths s; _loading := _loading s; mapEl := mapEl s;
     lastId := lastId s; trace := trace s |}.

Definition set__mapFocusItems (v : list Layer) (s : HaMap) : HaMap :=
  {| hass := hass s; entities := entities s; paths := paths s;
     layers := layers s; autoFit := autoFit s;
     renderPassive := renderPassive s;
     interactiveZones := interactiveZones s; fitZones := fitZones s;
     themeMode := themeMode s; zoom := zoom s; _loaded := _loaded s;
     leafletMap := leafletMap s; Leaflet := Leaflet s;
     _resizeObserver := _resizeObserver s; _mapItems := _mapItems s;
     _mapFocusItems := v; _mapZones := _mapZones s;
     _mapPaths := _mapPaths s; _loading := _loading s; mapEl := mapEl s;
     lastId := lastId s; trace := trace s |}.

Definition set__mapZones (v : list Layer) (s : HaMap) : HaMap :=
  {| hass := hass s; entities := entities s; paths := paths s;
     layers := layers s; autoFit := autoFit s;
     renderPassive := renderPassive s;
     interactiveZones := interactiveZones s; fitZones := fitZones s;
     themeMode := themeMode s; zoom := zoom s; _loaded := _loaded s;
     leafletMap := leafletMap s; Leaflet := Leaflet s;
     _resizeObserver := _resizeObserver s; _mapItems := _mapItems s;
     _mapFocusItems := _mapFocusItems s; _mapZones := v;
     _mapPaths := _mapPaths s; _loading := _loading s; mapEl := mapEl s;
     lastId := lastId s; trace := trace s |}.

Definition set__mapPaths (v : list Layer) (s : HaMap) : HaMap :=
  {| hass := hass s; entities := entities s; paths := paths s;
     layers := layers s; autoFit := autoFit s;
     renderPassive := renderPassive s;
     interactiveZones := interactiveZones s; fitZones := fitZones s;
     themeMode := themeMode s; zoom := zoom s; _loaded := _loaded s;
     leafletMap := leafletMap s; Leaflet := Leaflet s;
     _resizeObserver := _resizeObserver s; _mapItems := _mapItems s;
     _mapFocusItems := _mapFocusItems s; _mapZones := _mapZones s;
     _mapPaths := v; _loading := _loading s; mapEl := mapEl s;
     lastId := lastId s; trace := trace s |}.

Definition set__loading (v : bool) (s : HaMap) : HaMap :=
  {| hass := hass s; entities := entities s; paths := paths s;
     layers := layers s; autoFit := autoFit s;
     renderPassive := renderPassive s;
     interactiveZones := interactiveZones s; fitZones := fitZones s;
     themeMode := themeMode s; zoom := zoom s; _loaded := _loaded s;
     leafletMap := leafletMap s; Leaflet := Leaflet s;
     _resizeObserver := _resizeObserver s; _mapItems := _mapItems s;
     _mapFocusItems := _mapFocusItems s; _mapZones := _mapZones s;
     _mapPaths := _mapPaths s; _loading := v; mapEl := mapEl s;
     lastId := lastId s; trace := trace s |}.

Definition set_mapEl (v : option ClassList) (s : HaMap) : HaMap :=
  {| hass := hass s; entities := entities s; paths := paths s;
     layers := layers s; autoFit := autoFit s;
     renderPassive := renderPassive s;
     interactiveZones := interactiveZones s; fitZones := fitZones s;
     themeMode := themeMode s; zoom := zoom s; _loaded := _loaded s;
     leafletMap := leafletMap s; Leaflet := Leaflet s;
     _resizeObserver := _resizeObserver s; _mapItems := _mapItems s;
     _mapFocusItems := _mapFocusItems s; _mapZones := _mapZones s;
     _mapPaths := _mapPaths s; _loading := _loading s; mapEl := v;
     lastId := lastId s; trace := trace s |}.

Definition set_lastId (v : nat) (s : HaMap) : HaMap :=
  {| hass := hass s; entities := entities s; paths := paths s;
     layers := layers s; autoFit := autoFit s;
     renderPassive := renderPassive s;
     interactiveZones := interactiveZones s; fitZones := fitZones s;
     themeMode := themeMode s; zoom := zoom s; _loaded := _loaded s;
     leafletMap := leafletMap s; Leaflet := Leaflet s;
     _resizeObserver := _resizeObserver s; _mapItems := _mapItems s;
     _mapFocusItems := _mapFocusItems s; _mapZones := _mapZones s;
     _mapPaths := _mapPaths s; _loading := _loading s; mapEl := mapEl s;
     lastId := v; trace := trace s |}.

Definition set_trace (v : list LeafletCall) (s : HaMap) : HaMap :=
  {| hass := hass s; entities := entities s; paths := paths s;
     layers := layers s; autoFit := autoFit s;
     renderPassive := renderPassive s;
     interactiveZones := interactiveZones s; fitZones := fitZones s;
     themeMode := themeMode s; zoom := zoom s; _loaded := _loaded s;
     leafletMap := leafletMap s; Leaflet := Leaflet s;
     _resizeObserver := _resizeObserver s; _mapItems := _mapItems s;
     _mapFocusItems := _mapFocusItems s; _mapZones := _mapZones s;
     _mapPaths := _mapPaths s; _loading := _loading s; mapEl := mapEl s;
     lastId := lastId s; trace := v |}.

(** A component as its constructor leaves it, with the given inputs. *)
Definition initial (h : option HomeAssistant)
    (ents : option (list EntitySpec)) (ps : option (list HaMapPaths))
    (ls : option (list Layer)) : HaMap :=
  {| hass := h; entities := ents; paths := ps; layers := ls;
     autoFit := false; renderPassive := false; interactiveZones := false;
     fitZones := false; themeMode := Auto; zoom := 14%float;
     _loaded := false; leafletMap := None; Leaflet := None;
     _resizeObserver := None; _mapItems := []; _mapFocusItems := [];
     _mapZones := []; _mapPaths := []; _loading := false; mapEl := None;
     lastId := 0; trace := [] |}.

(** ** The monad of methods: state, and exceptions that keep the state *)

Inductive completion (A : Type) : Type :=
| Normal (a : A) (s : HaMap)
| Throw (s : HaMap).
Arguments Normal {A} a s.
Arguments Throw {A} s.

Definition M (A : Type) : Type := HaMap -> completion A.

Definition ret {A} (a : A) : M A := fun s => Normal a s.

Definition bind {A B} (c : M A) (k : A -> M B) : M B :=
  fun s =>
    match c s with
    | Normal a s' => k a s'
    | Throw s' => Throw s'
    end.

Notation "'let*' x ':=' c 'in' k" := (bind c (fun x => k))
  (at level 10, x name, c at level 100, k at level 200).
Notation "c '>>' k" := (bind c (fun _ => k))
  (at level 100, k at level 200, right associativity).

Definition get : M HaMap := fun s => Normal s s.
Definition modify (f : HaMap -> HaMap) : M unit := fun s => Normal tt (f s).
Definition throw {A} : M A := fun s => Throw s.

(** The state a computation leaves, however it completes. *)
Definition final {A} (c : completion A) : HaMap :=
  match c with
  | Normal _ s => s
  | Throw s => s
  end.

Definition throws {A} (c : completion A) : bool :=
  match c with
  | Normal _ _ => false
  | Throw _ => true
  end.

(** A [unit] computation that leaves [s], having thrown or not. *)
Definition outcome (thrown : bool) (s : HaMap) : completion unit :=
  if thrown then Throw s else Normal tt s.

(** [try { c } finally { f }] *)
Definition try_finally {A} (c : M A) (f : M unit) : M A :=
  fun s =>
    match c s with
    | Normal a s' =>
        match f s' with
        | Normal _ s'' => Normal a s''
        | Throw s'' => Throw s''
        end
    | Throw s' => Throw (final (f s'))
    end.

(** [l.forEach(f)] and [for (const x of l) f(x)] without [break]. *)
Fixpoint forEach {A} (f : A -> M unit) (l : list A) : M unit :=
  match l with
  | [] => ret tt
  | x :: rest => f x >> forEach f rest
  end.

(** *** Primitive effects on the Leaflet side *)

(** A Leaflet factory ([Leaflet.marker], [Leaflet.circle], ...): a new
    object, with the next identity. *)
Definition new_layer (sh : Shape) : M Layer :=
  let* s := get in
  let id := S (lastId s) in
  modify (set_lastId id) >>
  ret {| _leaflet_id := id; shape := sh |}.

(** [layer.remove()]: off the map it is on, a no-op when it is on none. *)
Definition layer_remove (l : Layer) : M unit :=
  modify (fun s =>
    match leafletMap s with
    | Some m =>
        set_leafletMap
          (Some {| map_id := map_id m;
                   map_layers := map_layers m ∖ {[ _leaflet_id l ]} |}) s
    | None => s
    end).

(** Whether the layer is on the map ([layer._map]). *)
Definition on_map (l : Layer) (s : HaMap) : bool :=
  match leafletMap s with
  | Some m => bool_decide (_leaflet_id l ∈ map_layers m)
  | None => false
  end.

(** [map.addLayer(layer)]; a [TypeError] when there is no map. *)
Definition map_addLayer (l : Layer) : M unit :=
  let* s := get in
  match leafletMap s with
  | Some m =>
      modify (set_leafletMap
        (Some {| map_id := map_id m;
                 map_layers := {[ _leaflet_id l ]} ∪ map_layers m |}))
  | None => throw
  end.

Definition call (c : LeafletCall) : M unit :=
  modify (fun s => set_trace (trace s ++ [c]) s).

Definition push__mapItems (l : Layer) : M unit :=
  modify (fun s => set__mapItems (_mapItems s ++ [l]) s).
Definition push__mapFocusItems (l : Layer) : M unit :=
  modify (fun s => set__mapFocusItems (_mapFocusItems s ++ [l]) s).
Definition push__mapZones (l : Layer) : M unit :=
  modify (fun s => set__mapZones (_mapZones s ++ [l]) s).
Definition push__mapPaths (l : Layer) : M unit :=
  modify (fun s => set__mapPaths (_mapPaths s ++ [l]) s).

(** [arr.length] as a condition. *)
Definition nonempty {A} (l : list A) : bool :=
  match l with [] => false | _ => true end.

(** [options?: { zoom?: number; pad?: number }] *)
Record FitOptions := {
  opt_zoom : option number;
  opt_pad : option number;
}.

(** [changedProps]: which keys the batch holds, with the previous value
    where [update] reads it. *)
Record PropertyValues := {
  ch__loaded : bool;
  ch_entities : bool;
  ch_hass : option (option HomeAssistant);
  ch_paths : bool;
  ch_layers : option (option (list Layer));
  ch_zoom : bool;
  ch_themeMode : bool;
}.

(** [a !== b] on two lookups in [states]: object identity. *)
Definition differs (a b : option HassEntity) : bool :=
  match a, b with
  | None, None => false
  | Some x, Some y => negb (Nat.eqb (obj_ref x) (obj_ref y))
  | _, _ => true
  end.

(** ** The methods of [HaMap] *)

(** Imported collaborators, and the computed style of the host element
    ([getComputedStyle(this).getPropertyValue]). *)
Class Collaborators := {
  computeStateDomain : HassEntity -> string;
  computeStateName : HassEntity -> string;
  formatEntityState : HomeAssistant -> HassEntity -> string;
  hassUrl : HomeAssistant -> string -> string;
  isTouch : bool;
  formatDateTime : HomeAssistant -> Z -> string;
  formatTimeWithSeconds : HomeAssistant -> Z -> string;
  formatTimeWeekday : HomeAssistant -> Z -> string;
  isToday : Z -> bool;
  getPropertyValue : string -> string;
}.

Section Component.

Context `{Collaborators}.

(** [get _darkMode()] (lines 166-171) *)
Definition _darkMode : M bool :=
  let* s := get in
  match themeMode s with
  | Dark => ret true
  | Light => ret false
  | Auto =>
      match hass s with
      | Some h => ret (themes_darkMode h)
      | None => throw
      end
  end.

(** [_updateMapStyle] (lines 173-178): the three [classList.toggle]. *)
Definition _updateMapStyle : M unit :=
  let* s := get in
  match mapEl s with
  | None => throw
  | Some _ =>
      let* d := _darkMode in
      modify (set_mapEl (Some
        {| cls_dark := d;
           cls_forced_dark :=
             match themeMode s with Dark => true | _ => false end;
           cls_forced_light :=
             match themeMode s with Light => true | _ => false end |}))
  end.

(** [_loadMap] (lines 182-198) up to its [await]: [true] when an
    acquisition was started. *)
Definition _loadMap_start : M bool :=
  let* s := get in
  if _loading s then ret false
  else
    (match mapEl s with
     | Some _ => ret tt
     | None =>
         modify (set_mapEl (Some
           {| cls_dark := false; cls_forced_dark := false;
              cls_forced_light := false |}))
     end) >>
    modify (set__loading true) >>
    ret true.

(** [_loadMap] from the point where [setupLeafletMap] settles: with the
    pair it resolved to, or [None] when it rejected. *)
Definition _loadMap_resume
    (settled : option (LMap * LeafletModuleType)) : M unit :=
  try_finally
    (match settled with
     | Some (m, L) =>
         modify (set_leafletMap (Some m)) >>
         modify (set_Leaflet (Some L)) >>
         _updateMapStyle >>
         modify (set__loaded true)
     | None => throw
     end)
    (modify (set__loading false)).

(** [_attachObserver] (lines 536-543) *)
Definition _attachObserver : M unit :=
  modify (set__resizeObserver (Some true)).

(** [connectedCallback] (lines 92-96): [true] when it started an
    acquisition. *)
Definition connectedCallback : M bool :=
  let* started := _loadMap_start in
  _attachObserver >>
  ret started.

(** [disconnectedCallback] (lines 98-111) *)
Definition disconnectedCallback : M unit :=
  let* s := get in
  (match leafletMap s with
   | Some m =>
       call (call_remove (map_id m)) >>
       modify (set_leafletMap None) >>
       modify (set_Leaflet None)
   | None => ret tt
   end) >>
  modify (set__loaded false) >>
  match _resizeObserver s with
  | Some _ => modify (set__resizeObserver (Some false))
  | None => ret tt
  end.

(** [options?.zoom || this.zoom] *)
Definition zoom_or (options : option FitOptions) (s : HaMap) : number :=
  match options with
  | Some o =>
      match opt_zoom o with
      | Some z => if num_truthy z then z else zoom s
      | None => zoom s
      end
  | None => zoom s
  end.

(** [options?.pad ?? 0.5] *)
Definition pad_or (options : option FitOptions) : number :=
  match options with
  | Some o =>
      match opt_pad o with
      | Some p => p
      | None => 0.5%float
      end
  | None => 0.5%float
  end.

(** [items.map((item) => item.getLatLng())] *)
Fixpoint latLngs (items : list Layer) : M (list LatLng) :=
  match items with
  | [] => ret []
  | item :: rest =>
      match getLatLng item with
      | Some p => let* ps := latLngs rest in ret (p :: ps)
      | None => throw
      end
  end.

(** [l.getBounds()]: the bounds of a circle are computed through the map
    the circle is on ([this._map]), a [TypeError] when it is on none; those
    of a polyline are kept with its points. *)
Definition getBounds (l : Layer) : M Extent :=
  match shape l with
  | circle _ _ _ _ =>
      let* s := get in
      if on_map l s then ret (BoundsOf l) else throw
  | _ => ret (BoundsOf l)
  end.

(** [bounds.extend("getBounds" in l ? l.getBounds() : l.getLatLng())] *)
Definition extend_with (l : Layer) : M unit :=
  if has_getBounds l then
    let* b := getBounds l in
    call (call_extend b)
  else
    match getLatLng l with
    | Some p => call (call_extend (PointAt p))
    | None => throw
    end.

(** Whether extending with [l] puts a point into the region: the bounds
    of a polyline without points are empty, and extending with them
    changes nothing. *)
Definition widens (l : Layer) : bool :=
  match shape l with
  | polyline [] _ _ _ => false
  | _ => true
  end.

(** [bounds.pad(ratio)] reads the corners of the region: a [TypeError]
    when no point was put into it. *)
Definition pad (held : bool) (ratio : number) : M unit :=
  if held then call (call_pad ratio) else throw.

(** [fitMap] (lines 200-239) *)
Definition fitMap (options : option FitOptions) : M unit :=
  let* s := get in
  match leafletMap s, Leaflet s, hass s with
  | Some _, Some _, Some h =>
      if negb (nonempty (_mapFocusItems s))
         && negb (match layers s with Some ls => nonempty ls | None => false end)
      then
        call (call_setView (config_latitude h, config_longitude h)
                (zoom_or options s))
      else
        let* pts := latLngs (_mapFocusItems s) in
        call (call_latLngBounds pts) >>
        (if fitZones s then forEach extend_with (_mapZones s) else ret tt) >>
        (match layers s with
         | Some ls => forEach extend_with ls
         | None => ret tt
         end) >>
        pad (nonempty pts
             || existsb widens
                  ((if fitZones s then _mapZones s else [])
                   ++ default [] (layers s)))
          (pad_or options) >>
        call (call_fitBounds (zoom_or options s))
  | _, _, _ => ret tt
  end.

(** [_drawLayers] (lines 254-265) *)
Definition _drawLayers (prevLayers : option (list Layer)) : M unit :=
  (match prevLayers with
   | Some prev => forEach layer_remove prev
   | None => ret tt
   end) >>
  let* s := get in
  match layers s with
  | None => ret tt
  | Some ls => forEach map_addLayer ls
  end.

(** *** Paths *)

(** [`${path.name}`] *)
Definition template_opt (o : option string) : string :=
  match o with Some x => x | None => "undefined" end.

(** [_computePathTooltip] (lines 267-289) *)
Definition _computePathTooltip (h : HomeAssistant) (path : HaMapPaths)
    (pt : HaMapPathPoint) : string :=
  let formattedTime :=
    if opt_bool_truthy (fullDatetime path)
    then formatDateTime h (timestamp pt)
    else if isToday (timestamp pt)
    then formatTimeWithSeconds h (timestamp pt)
    else formatTimeWeekday h (timestamp pt) in
  template_opt (path_name path) ++ "<br>" ++ formattedTime.

(** [(opacityStep, baseOpacity)], assigned only under
    [if (path.gradualOpacity)]. *)
Definition opacity_params (path : HaMapPaths) : option (number * number) :=
  match gradualOpacity path with
  | Some g =>
      if num_truthy g
      then Some (num_div g (num_sub (num_of_nat (length (points path)))
                                    2%float),
                 num_sub 1%float g)
      else None
  | None => None
  end.

(** [path.gradualOpacity ? baseOpacity! + pointIndex * opacityStep!
                         : undefined] *)
Definition point_opacity (path : HaMapPaths) (pointIndex : nat)
    : option number :=
  match opacity_params path with
  | Some (opacityStep, baseOpacity) =>
      Some (num_add baseOpacity (num_mul (num_of_nat pointIndex) opacityStep))
  | None => None
  end.

(** [path.color || darkPrimaryColor] *)
Definition color_or (path : HaMapPaths) (darkPrimaryColor : string) : string :=
  match path_color path with
  | Some c => if str_truthy c then c else darkPrimaryColor
  | None => darkPrimaryColor
  end.

Definition point_marker (h : HomeAssistant) (darkPrimaryColor : string)
    (path : HaMapPaths) (pointIndex : nat) (pt : HaMapPathPoint) : Shape :=
  let opacity := point_opacity path pointIndex in
  circleMarker (point pt) (if isTouch then 8 else 3)
    (color_or path darkPrimaryColor) opacity opacity true
    (Some (_computePathTooltip h path pt)).

(** The body of the loop over point pairs (lines 319-355). *)
Definition drawPathPair (h : HomeAssistant) (darkPrimaryColor : string)
    (path : HaMapPaths) (pointIndex : nat) : M unit :=
  match points path !! pointIndex, points path !! (S pointIndex) with
  | Some pt, Some next =>
      (* DRAW point *)
      let* m := new_layer (point_marker h darkPrimaryColor path pointIndex pt) in
      push__mapPaths m >>
      (* DRAW line between this and next point *)
      let* l := new_layer
        (polyline [point pt; point next] (color_or path darkPrimaryColor)
           (point_opacity path pointIndex) false) in
      push__mapPaths l
  | _, _ => throw
  end.

(** The callback of [this.paths.forEach] (lines 311-378). *)
Definition drawPath (h : HomeAssistant) (darkPrimaryColor : string)
    (path : HaMapPaths) : M unit :=
  forEach (drawPathPair h darkPrimaryColor path)
    (seq 0 (length (points path) - 1)) >>
  (match length (points path) with
   | 0 => ret tt
   | S pointIndex =>
       match points path !! pointIndex with
       | Some pt =>
           (* DRAW end path point *)
           let* m :=
             new_layer (point_marker h darkPrimaryColor path pointIndex pt) in
           push__mapPaths m
       | None => throw
       end
   end) >>
  let* s := get in
  forEach map_addLayer (_mapPaths s).

(** [_drawPaths] (lines 291-379) *)
Definition _drawPaths : M unit :=
  let* s := get in
  match hass s, leafletMap s, Leaflet s with
  | Some h, Some _, Some _ =>
      (if nonempty (_mapPaths s)
       then forEach layer_remove (_mapPaths s) >> modify (set__mapPaths [])
       else ret tt) >>
      match paths s with
      | None => ret tt
      | Some ps =>
          let darkPrimaryColor := getPropertyValue "--dark-primary-color" in
          forEach (drawPath h darkPrimaryColor) ps
      end
  | _, _, _ => ret tt
  end.

(** *** Entities *)

(** The non-zone label:
    [label_mode === "state" ? formatEntityState(stateObj)
       : customTitle ?? (the first three initials of the title)] *)
Definition entityName (h : HomeAssistant) (entity : EntitySpec)
    (stateObj : HassEntity) (customTitle : option string) (title : string)
    : string :=
  match entity with
  | EntityObj {| label_mode := Some LabelState |} =>
      formatEntityState h stateObj
  | _ =>
      match customTitle with
      | Some t => t
      | None => initials title
      end
  end.

(** The body of [for (const entity of this.entities)] (lines 417-530). *)
Definition drawEntity (h : HomeAssistant) (className : string)
    (zoneColor passiveZoneColor darkPrimaryColor : string)
    (entity : EntitySpec) : M unit :=
  match states_at h (getEntityId entity) with
  | None => ret tt
  | Some (Inherited _) =>
      (* [stateObj.attributes] is [undefined]: destructuring it throws *)
      throw
  | Some (StateObj stateObj) =>
      let customTitle :=
        match entity with
        | EntityId _ => None
        | EntityObj e => name e
        end in
      let title :=
        match customTitle with
        | Some t => t
        | None => computeStateName stateObj
        end in
      let a := attributes stateObj in
      match latitude a, longitude a with
      | Some lat, Some lng =>
          if negb (num_truthy lat && num_truthy lng) then ret tt
          else if String.eqb (computeStateDomain stateObj) "zone" then
            (* DRAW ZONE *)
            let* s := get in
            if opt_bool_truthy (passive a) && negb (renderPassive s)
            then ret tt
            else
              (* create icon *)
              let iconHTML :=
                match icon a with
                | Some i => if str_truthy i then HaIconEl i else SpanEl title
                | None => SpanEl title
                end in
              (* create marker with the icon *)
              let* m := new_layer
                (marker (lat, lng)
                   {| html := iconHTML; iconSize := (24, 24)%Z;
                      className := className |}
                   (Some (interactiveZones s)) title) in
              push__mapZones m >>
              (* create circle around it *)
              let* c := new_layer
                (circle (lat, lng) false
                   (if opt_bool_truthy (passive a)
                    then passiveZoneColor else zoneColor)
                   (radius a)) in
              push__mapZones c
          else
            (* DRAW ENTITY *)
            let* m := new_layer
              (marker (lat, lng)
                 {| html :=
                      HaEntityMarkerEl (getEntityId entity)
                        (entityName h entity stateObj customTitle title)
                        (match entity_picture a with
                         | Some p =>
                             if str_truthy p then hassUrl h p else EmptyString
                         | None => EmptyString
                         end)
                        (match entity with
                         | EntityId _ => None
                         | EntityObj e => Some (color e)
                         end);
                    iconSize := (48, 48)%Z;
                    className := EmptyString |}
                 None title) in
            push__mapItems m >>
            (match entity with
             | EntityObj {| focus := Some false |} => ret tt
             | _ => push__mapFocusItems m
             end) >>
            (* create circle around if entity has accuracy *)
            match gps_accuracy a with
            | Some acc =>
                if num_truthy acc then
                  let* c := new_layer
                    (circle (lat, lng) false darkPrimaryColor (Some acc)) in
                  push__mapItems c
                else ret tt
            | None => ret tt
            end
      | _, _ => ret tt
      end
  end.

(** [_drawEntities] (lines 381-534) *)
Definition _drawEntities : M unit :=
  let* s := get in
  match hass s, leafletMap s, Leaflet s with
  | Some h, Some _, Some _ =>
      (if nonempty (_mapItems s)
       then forEach layer_remove (_mapItems s) >>
            modify (set__mapItems []) >>
            modify (set__mapFocusItems [])
       else ret tt) >>
      (if nonempty (_mapZones s)
       then forEach layer_remove (_mapZones s) >> modify (set__mapZones [])
       else ret tt) >>
      match entities s with
      | None => ret tt
      | Some ents =>
          let zoneColor := getPropertyValue "--accent-color" in
          let passiveZoneColor := getPropertyValue "--secondary-text-color" in
          let darkPrimaryColor := getPropertyValue "--dark-primary-color" in
          let* d := _darkMode in
          let className := if d then "dark" else "light" in
          forEach (drawEntity h className zoneColor passiveZoneColor
                     darkPrimaryColor) ents >>
          let* s1 := get in
          forEach map_addLayer (_mapItems s1) >>
          forEach map_addLayer (_mapZones s1)
      end
  | _, _, _ => ret tt
  end.

(** *** The update cycle *)

(** The loop of [update] that looks for a changed state object; it stops
    ([break]) at the first one. The result is [autoFitRequired]. *)
Fixpoint redraw_if_changed (oldHass : HomeAssistant)
    (ents : list EntitySpec) : M bool :=
  match ents with
  | [] => ret false
  | entity :: rest =>
      let* s := get in
      match hass s with
      | None => throw
      | Some h =>
          if differs (states oldHass !! getEntityId entity)
                     (states h !! getEntityId entity)
          then _drawEntities >> ret true
          else redraw_if_changed oldHass rest
      end
  end.

(** [update] (lines 113-164) *)
Definition update (changedProps : PropertyValues) : M unit :=
  let* s := get in
  if negb (_loaded s) then ret tt
  else
    let oldHass := mjoin (ch_hass changedProps) in
    let* autoFitRequired :=
      if ch__loaded changedProps || ch_entities changedProps
      then _drawEntities >> ret true
      else
        match oldHass, entities s with
        | Some old, Some ents => redraw_if_changed old ents
        | _, _ => ret false
        end in
    (if ch__loaded changedProps || ch_paths changedProps
     then _drawPaths else ret tt) >>
    let* autoFitRequired :=
      if ch__loaded changedProps || bool_decide (is_Some (ch_layers changedProps))
      then _drawLayers (mjoin (ch_layers changedProps)) >> ret true
      else ret autoFitRequired in
    (if ch__loaded changedProps || (autoFit s && autoFitRequired)
     then fitMap None else ret tt) >>
    (if ch_zoom changedProps
     then
       match leafletMap s with
       | Some _ => call (call_setZoom (zoom s))
       | None => throw
       end
     else ret tt) >>
    if ch_themeMode changedProps then _updateMapStyle
    else
      match ch_hass changedProps with
      | None => ret tt
      | Some None => _updateMapStyle
      | Some (Some old) =>
          match hass s with
          | None => throw
          | Some h =>
              if Bool.eqb (themes_darkMode old) (themes_darkMode h)
              then ret tt
              else _updateMapStyle
          end
      end.

End Component.

(** ** The component on a page: attach, detach and the pending acquisition *)

(** What can happen to the element: it is attached to the document, it is
    detached, or the promise of [setupLeafletMap] awaited by a suspended
    [_loadMap] resolves with a map. *)
Inductive event :=
| Attach
| Detach
| AcquisitionDone (m : LMap).

Record page := {
  el : HaMap;
  isConnected : bool;
  (* suspended [_loadMap] calls, each waiting on its [await] *)
  inflight : nat;
}.

Definition step (ev : event) (p : page) : page :=
  match ev with
  | Attach =>
      match connectedCallback (el p) with
      | Normal started s =>
          {| el := s; isConnected := true;
             inflight := if started then S (inflight p) else inflight p |}
      | Throw s =>
          {| el := s; isConnected := true; inflight := inflight p |}
      end
  | Detach =>
      {| el := final (disconnectedCallback (el p)); isConnected := false;
         inflight := inflight p |}
  | AcquisitionDone m =>
      match inflight p with
      | 0 => p
      | S k =>
          {| el := final (_loadMap_resume (Some (m, LeafletModule)) (el p));
             isConnected := isConnected p; inflight := k |}
      end
  end.

Definition run (evs : list event) (p : page) : page :=
  fold_left (fun q ev => step ev q) evs p.

(** ** Notions the properties are stated with *)

Open Scope list_scope.

(** The identities of a collection, and those attached to the live map. *)
Definition ids (ls : list Layer) : gset nat :=
  list_to_set (_leaflet_id <$> ls).

Definition attached (s : HaMap) : gset nat :=
  match leafletMap s with
  | Some m => map_layers m
  | None => ∅
  end.

Fixpoint count_by {A} (p : A -> bool) (l : list A) : nat :=
  match l with
  | [] => 0
  | x :: rest => (if p x then 1 else 0) + count_by p rest
  end.

(** Identities come from the counter, and a focus marker is also an item. *)
Definition stamped (s : HaMap) : Prop :=
  (forall l, l ∈ _mapItems s ++ _mapZones s ++ _mapPaths s ->
             _leaflet_id l <= lastId s)
  /\ (_mapItems s = [] -> _mapFocusItems s = []).

(** The coordinates [_drawEntities] accepts: both present and truthy. *)
Definition coords (stateObj : HassEntity) : option LatLng :=
  match latitude (attributes stateObj), longitude (attributes stateObj) with
  | Some lat, Some lng =>
      if num_truthy lat && num_truthy lng then Some (lat, lng) else None
  | _, _ => None
  end.

(** A coordinate attribute that is the number zero. *)
Definition zero_coordinate (o : option number) : bool :=
  match o with
  | Some x => is_zero x
  | None => false
  end.


(** [stamp n shs]: the objects the factories return for the shapes [shs],
    in this order, when the counter stands at [n]. *)
Fixpoint stamp (n : nat) (shs : list Shape) : list Layer :=
  match shs with
  | [] => []
  | sh :: rest => {| _leaflet_id := S n; shape := sh |} :: stamp (S n) rest
  end.

(** The component after the new objects [L] went to [_mapPaths]. *)
Definition add_paths (L : list Layer) (s : HaMap) : HaMap :=
  set_lastId (lastId s + length L) (set__mapPaths (_mapPaths s ++ L) s).

(** The live map with one more set of identities attached. *)
Definition attach (new : gset nat) (s : HaMap) : HaMap :=
  match leafletMap s with
  | Some m =>
      set_leafletMap
        (Some {| map_id := map_id m; map_layers := new ∪ map_layers m |}) s
  | None => s
  end.

(** The live map with a set of identities taken off. *)
Definition detach (old : gset nat) (s : HaMap) : HaMap :=
  match leafletMap s with
  | Some m =>
      set_leafletMap
        (Some {| map_id := map_id m; map_layers := map_layers m ∖ old |}) s
  | None => s
  end.

(** "[opacity(i) = (1 - factor) + i * factor / (N - 2)]" for a path of [N]
    points, in the numbers of the program: the step [factor / (N - 2)] is
    computed once, and every operation rounds. *)
Definition interpolated (f : number) (N i : nat) : number :=
  num_add (num_sub 1 f)
    (num_mul (num_of_nat i) (num_div f (num_sub (num_of_nat N) 2))).

Section PathShapes.

Context `{Collaborators}.

(** What the specification says a path is drawn as: for each consecutive
    pair a point marker at the earlier point and a segment to the next
    one, then a marker for the final point. *)
Fixpoint pair_shapes (h : HomeAssistant) (darkPrimaryColor : string)
    (path : HaMapPaths) (i : nat) (pts : list HaMapPathPoint) : list Shape :=
  match pts with
  | pt :: rest =>
      match rest with
      | next :: _ =>
          point_marker h darkPrimaryColor path i pt
          :: polyline [point pt; point next] (color_or path darkPrimaryColor)
               (point_opacity path i) false
          :: pair_shapes h darkPrimaryColor path (S i) rest
      | [] => []
      end
  | [] => []
  end.

Definition end_shape (h : HomeAssistant) (darkPrimaryColor : string)
    (path : HaMapPaths) : list Shape :=
  match last (points path) with
  | Some pt =>
      [point_marker h darkPrimaryColor path (length (points path) - 1) pt]
  | None => []
  end.

Definition expected_path_shapes (h : HomeAssistant)
    (darkPrimaryColor : string) (path : HaMapPaths) : list Shape :=
  pair_shapes h darkPrimaryColor path 0 (points path)
  ++ end_shape h darkPrimaryColor path.

End PathShapes.

(** The component after an entity put [I] into [_mapItems], [F] into
    [_mapFocusItems] and [Z] into [_mapZones]. *)
Definition grow (I F Z : list Layer) (s : HaMap) : HaMap :=
  set_lastId (lastId s + length I + length Z)
    (set__mapZones (_mapZones s ++ Z)
       (set__mapFocusItems (_mapFocusItems s ++ F)
          (set__mapItems (_mapItems s ++ I) s))).

(** A listed entry whose identifier names no entity of the snapshot but a
    member of [Object.prototype]: the render throws at it. *)
Definition inherited_entry (h : HomeAssistant) (entity : EntitySpec) : bool :=
  match states_at h (getEntityId entity) with
  | Some (Inherited _) => true
  | _ => false
  end.

(** The render of a list of entries is cut short by one of them. *)
Definition aborts (h : HomeAssistant) (ents : list EntitySpec) : bool :=
  existsb (inherited_entry h) ents.

(** The entries the loop gets through: those before the first one at
    which it throws. *)
Fixpoint drawn_prefix (h : HomeAssistant) (ents : list EntitySpec)
    : list EntitySpec :=
  match ents with
  | [] => []
  | entity :: rest =>
      if inherited_entry h entity then [] else entity :: drawn_prefix h rest
  end.

Section EntityNotions.

Context `{Collaborators}.

(** A zone that is passive while passive rendering is off. *)
Definition hidden_zone (rp : bool) (stateObj : HassEntity) : bool :=
  String.eqb (computeStateDomain stateObj) "zone"
  && opt_bool_truthy (passive (attributes stateObj))
  && negb rp.

(** The listed entity gets a marker: it is in the snapshot, its
    coordinates are accepted, and it is not a hidden zone. *)
Definition draws_marker (h : HomeAssistant) (rp : bool)
    (entity : EntitySpec) : bool :=
  match states h !! getEntityId entity with
  | Some stateObj =>
      match coords stateObj with
      | Some _ => negb (hidden_zone rp stateObj)
      | None => false
      end
  | None => false
  end.

(** The title of a listed entity: [customTitle ?? computeStateName(..)]. *)
Definition title_of (entity : EntitySpec) (stateObj : HassEntity) : string :=
  match entity with
  | EntityObj {| name := Some t |} => t
  | _ => computeStateName stateObj
  end.

End EntityNotions.

(** The component as [_drawEntities] leaves it when the loop added [I],
    [F] and [Z]: the old items and zones are off the map and forgotten
    (the focus list only together with a non-empty item list), the new
    ones are attached. *)
Definition cleared_entities (s : HaMap) : HaMap :=
  set__mapZones []
    (set__mapFocusItems
       (if nonempty (_mapItems s) then [] else _mapFocusItems s)
       (set__mapItems [] s)).

Definition redrawn (I F Z : list Layer) (s : HaMap) : HaMap :=
  attach (ids (I ++ Z))
    (grow I F Z
       (detach (ids (_mapItems s ++ _mapZones s)) (cleared_entities s))).

(** The component as [_drawEntities] leaves it when the loop threw after
    it had added [I], [F] and [Z]: nothing new is attached. *)
Definition cut_short (I F Z : list Layer) (s : HaMap) : HaMap :=
  grow I F Z
    (detach (ids (_mapItems s ++ _mapZones s)) (cleared_entities s)).

Definition rendered (thrown : bool) (I F Z : list Layer) (s : HaMap)
    : HaMap :=
  if thrown then cut_short I F Z s else redrawn I F Z s.

(** The component once [_drawPaths] took the old path objects off the
    map and emptied [_mapPaths]. *)
Definition pre_paths (s : HaMap) : HaMap :=
  detach (ids (_mapPaths s)) (set__mapPaths [] s).

(** The class name [_drawEntities] gives zone icons. *)
Definition className_of (h : HomeAssistant) (s : HaMap) : string :=
  if match themeMode s with
     | Dark => true
     | Light => false
     | Auto => themes_darkMode h
     end
  then "dark" else "light".

Definition pre_entities (s : HaMap) : HaMap :=
  detach (ids (_mapItems s ++ _mapZones s)) (cleared_entities s).

(** ** Invariants over the reachable components *)

(** [c] keeps [P], however it completes. *)
Definition keeps {A} (P : HaMap -> Prop) (c : M A) : Prop :=
  forall s, P s -> P (final (c s)).

(** The fields the renderers own. *)
Definition scene (s : HaMap)
    : list Layer * list Layer * list Layer * list Layer * nat :=
  (_mapItems s, _mapFocusItems s, _mapZones s, _mapPaths s, lastId s).

(** [c] leaves the scene alone. *)
Definition frames {A} (c : M A) : Prop :=
  forall s, scene (final (c s)) = scene s.

(** Two components that differ in their public properties only. *)
Definition same_internals (s s' : HaMap) : Prop :=
  _loaded s' = _loaded s /\ leafletMap s' = leafletMap s
  /\ Leaflet s' = Leaflet s /\ _resizeObserver s' = _resizeObserver s
  /\ _loading s' = _loading s /\ mapEl s' = mapEl s /\ trace s' = trace s
  /\ scene s' = scene s.

Section Reachable.

Context `{Collaborators}.

(** The components that can arise: a new one, then properties assigned
    from outside, lifecycle callbacks, acquisitions that settle, update
    cycles and calls of [fitMap], in any order. *)
Inductive reachable : HaMap -> Prop :=
| reach_initial h ents ps ls : reachable (initial h ents ps ls)
| reach_assign s s' : reachable s -> same_internals s s' -> reachable s'
| reach_connected s : reachable s -> reachable (final (connectedCallback s))
| reach_disconnected s :
    reachable s -> reachable (final (disconnectedCallback s))
| reach_settled s settled :
    reachable s -> reachable (final (_loadMap_resume settled s))
| reach_update s changedProps :
    reachable s -> reachable (final (update changedProps s))
| reach_fitMap s options : reachable s -> reachable (final (fitMap options s)).

End Reachable.

(** ** Readings of the specification that the code does not meet *)

Section Readings.

Context `{Collaborators}.


Definition markers_drawn (s : HaMap) : nat :=
  count_by is_marker (shape <$> (_mapItems s ++ _mapZones s)).


(** The icons of the zone markers of a component. *)
Definition zone_icons (s : HaMap) : list IconHtml :=
  omap (fun l => match shape l with
                 | marker _ ic _ _ => Some (html ic)
                 | _ => None
                 end) (_mapZones s).

(** "The icon glyph when an icon attribute is present, and otherwise the
    first letters of the title truncated to at most 3 characters". *)
Definition zone_icon_as_stated (stateObj : HassEntity) (title : string)
    : IconHtml :=
  match icon (attributes stateObj) with
  | Some i => if str_truthy i then HaIconEl i else SpanEl (initials title)
  | None => SpanEl (initials title)
  end.

End Readings.

(** "Opacity ... to 1.0 approached at the last": an opacity that is a
    number and does not exceed 1. *)
Definition at_most_one (o : option number) : Prop :=
  match o with
  | Some x => (x <=? 1)%float = true
  | None => False
  end.



(** Only the theme mode is in the batch of changed properties. *)
Definition theme_only (changedProps : PropertyValues) : Prop :=
  ch__loaded changedProps = false /\ ch_entities changedProps = false
  /\ ch_hass changedProps = None /\ ch_paths changedProps = false
  /\ ch_layers changedProps = None /\ ch_zoom changedProps = false
  /\ ch_themeMode changedProps = true.

(** ** Sample inputs *)

Fixpoint before_dot (s : string) : string :=
  match s with
  | EmptyString => EmptyString
  | String c rest =>
      if Ascii.eqb c "."%char then EmptyString else String c (before_dot rest)
  end.

(** Collaborators for concrete runs: the domain of a state object is the
    part of its identifier before the dot. *)
Definition sample_collaborators : Collaborators :=
  {| computeStateDomain := fun st => before_dot (state_entity_id st);
     computeStateName := fun st => state_entity_id st;
     formatEntityState := fun _ st => state st;
     hassUrl := fun _ p => p;
     isTouch := false;
     formatDateTime := fun _ _ => "1 January 2024 at 12:00";
     formatTimeWithSeconds := fun _ _ => "12:00:00";
     formatTimeWeekday := fun _ _ => "Monday 12:00";
     isToday := fun _ => true;
     getPropertyValue := fun prop => prop |}.

Definition person_anna : HassEntity :=
  {| obj_ref := 1; state_entity_id := "person.anna"; state := "home";
     attributes :=
       {| latitude := Some 52%float; longitude := Some 13%float;
          passive := None; icon := None; radius := None;
          entity_picture := None; gps_accuracy := Some 10%float |} |}.

Definition zone_home : HassEntity :=
  {| obj_ref := 2; state_entity_id := "zone.home"; state := "1";
     attributes :=
       {| latitude := Some 52.5%float; longitude := Some 13.5%float;
          passive := None; icon := None; radius := Some 100%float;
          entity_picture := None; gps_accuracy := None |} |}.

Definition zone_work : HassEntity :=
  {| obj_ref := 3; state_entity_id := "zone.work"; state := "0";
     attributes :=
       {| latitude := Some 48%float; longitude := Some 11%float;
          passive := Some true; icon := Some "mdi:briefcase";
          radius := Some 50%float; entity_picture := None;
          gps_accuracy := None |} |}.

Definition sensor_equator : HassEntity :=
  {| obj_ref := 4; state_entity_id := "sensor.equator"; state := "on";
     attributes :=
       {| latitude := Some 0%float; longitude := Some 13%float;
          passive := None; icon := None; radius := None;
          entity_picture := None; gps_accuracy := None |} |}.

Definition sample_hass : HomeAssistant :=
  {| states :=
       <["person.anna" := person_anna]>
         (<["zone.home" := zone_home]>
            (<["zone.work" := zone_work]>
               (<["sensor.equator" := sensor_equator]> ∅)));
     config_latitude := 52%float;
     config_longitude := 13%float;
     themes_darkMode := false |}.

(** A component whose map was acquired, with the sample snapshot. *)
Definition sample_ready (ents : option (list EntitySpec))
    (ps : option (list HaMapPaths)) : HaMap :=
  set__loaded true
    (set_Leaflet (Some LeafletModule)
       (set_leafletMap (Some {| map_id := 1; map_layers := ∅ |})
          (set_mapEl
             (Some {| cls_dark := false; cls_forced_dark := false;
                      cls_forced_light := false |})
             (initial (Some sample_hass) ents ps None)))).

Definition home_sweet_home : EntitySpec :=
  EntityObj {| entity_id := "zone.home"; color := "#03a9f4";
               label_mode := None; name := Some "Home Sweet Home";
               focus := None |}.

(** Three points half a degree apart, and the same path cut to two. *)
Definition three_points : list HaMapPathPoint :=
  [ {| point := (52%float, 13%float); timestamp := 0 |};
    {| point := (52.5%float, 13%float); timestamp := 60 |};
    {| point := (53%float, 13%float); timestamp := 120 |} ].

Definition graded_path (pts : list HaMapPathPoint) : HaMapPaths :=
  {| points := pts; path_color := None; path_name := Some "Anna";
     gradualOpacity := Some 0.5%float; fullDatetime := None |}.

Definition path_opacities (s : HaMap) : list (option number) :=
  omap (fun l => match shape l with
                 | circleMarker _ _ _ o _ _ _ => Some o
                 | polyline _ _ o _ => Some o
                 | _ => None
                 end) (_mapPaths s).

(** ** The rest of the class *)

(** [fitBounds] (lines 241-252): the second entry point of the viewport
    fitter, on a list of coordinates handed in. *)
Definition fitBounds (boundingbox : list LatLng)
    (options : option FitOptions) : M unit :=
  let* s := get in
  match leafletMap s, Leaflet s, hass s with
  | Some _, Some _, Some _ =>
      call (call_latLngBounds boundingbox) >>
      pad (nonempty boundingbox) (pad_or options) >>
      call (call_fitBounds (zoom_or options s))
  | _, _, _ => ret tt
  end.

(** ** Notions for the further properties *)

Definition is_circle (sh : Shape) : bool :=
  match sh with circle _ _ _ _ => true | _ => false end.

(** [c] leaves the view [v] of the component alone, however it completes. *)
Definition preserves {A T} (v : HaMap -> T) (c : M A) : Prop :=
  forall s, v (final (c s)) = v s.

(** The component after the calls [added] went to the library. *)
Definition traced (added : list LeafletCall) (s : HaMap) : HaMap :=
  set_trace (trace s ++ added) s.

(** Every call [c] makes from [s] is one of the [allowed] ones. *)
Definition adds {A} (allowed : LeafletCall -> bool) (c : M A) (s : HaMap)
    : Prop :=
  exists added,
    trace (final (c s)) = trace s ++ added /\ forallb allowed added = true.

Definition is_setZoom (c : LeafletCall) : bool :=
  match c with call_setZoom _ => true | _ => false end.

(** The calls that only build a bounding region. *)
Definition is_region_call (c : LeafletCall) : bool :=
  match c with
  | call_latLngBounds _ | call_extend _ => true
  | _ => false
  end.

Definition isSome {A} (o : option A) : bool :=
  match o with Some _ => true | None => false end.

(** Readiness and the presence of the handles it stands for. *)
Definition handles (s : HaMap)
    : bool * bool * option LeafletModuleType * bool :=
  (_loaded s, isSome (leafletMap s), Leaflet s, isSome (mapEl s)).

Definition loaded_has_handles (s : HaMap) : Prop :=
  _loaded s = true ->
  is_Some (leafletMap s) /\ is_Some (Leaflet s) /\ is_Some (mapEl s).

(** The three styling classes agree with each other. *)
Definition classes_consistent (c : ClassList) : Prop :=
  (cls_forced_dark c = true -> cls_dark c = true)
  /\ (cls_forced_light c = true -> cls_dark c = false)
  /\ cls_forced_dark c && cls_forced_light c = false.

Definition styled (s : HaMap) : Prop :=
  forall c, mapEl s = Some c -> classes_consistent c.

(** What [bounds.extend] receives for a layer on the component [s]:
    [None] when the layer has neither [getBounds] nor [getLatLng], or is a
    circle that is on no map. *)
Definition extent_of (s : HaMap) (l : Layer) : option Extent :=
  if has_getBounds l then
    match shape l with
    | circle _ _ _ _ => if on_map l s then Some (BoundsOf l) else None
    | _ => Some (BoundsOf l)
    end
  else
    match getLatLng l with
    | Some p => Some (PointAt p)
    | None => None
    end.

Fixpoint extents (s : HaMap) (ls : list Layer) : option (list Extent) :=
  match ls with
  | [] => Some []
  | l :: rest =>
      match extent_of s l, extents s rest with
      | Some e, Some es => Some (e :: es)
      | _, _ => None
      end
  end.

(** What [fitMap] extends the region of the focus items with: the zones
    when [fitZones] is set, then the overlay layers. *)
Definition fitted (s : HaMap) : list Layer :=
  (if fitZones s then _mapZones s else []) ++ default [] (layers s).

(** The region [fitMap] builds holds a point. *)
Definition region_held (s : HaMap) : bool :=
  nonempty (_mapFocusItems s) || existsb widens (fitted s).

(** The positions of a list of layers that all have [getLatLng]. *)
Fixpoint positions (items : list Layer) : option (list LatLng) :=
  match items with
  | [] => Some []
  | item :: rest =>
      match getLatLng item, positions rest with
      | Some p, Some ps => Some (p :: ps)
      | _, _ => None
      end
  end.

(** The collections hold the kinds of objects their types announce, and
    focus items are markers. *)
Definition well_kinded (s : HaMap) : Prop :=
  Forall (fun l => is_marker (shape l) = true) (_mapFocusItems s)
  /\ Forall (fun l => is_marker (shape l) || is_circle (shape l) = true)
       (_mapItems s ++ _mapZones s)
  /\ Forall (fun l => is_circleMarker (shape l) || is_polyline (shape l) = true)
       (_mapPaths s).

(** How [_drawEntities] treats one listed entity. *)
Inductive entry_kind :=
| Skipped
| ZoneEntry
| EntityEntry (focused accuracy : bool).

Definition focus_of (entity : EntitySpec) : bool :=
  match entity with
  | EntityObj {| focus := Some false |} => false
  | _ => true
  end.

Definition accuracy_of (stateObj : HassEntity) : bool :=
  match gps_accuracy (attributes stateObj) with
  | Some acc => num_truthy acc
  | None => false
  end.

Definition items_of_kind (k : entry_kind) : nat :=
  match k with
  | EntityEntry _ true => 2
  | EntityEntry _ false => 1
  | _ => 0
  end.

Definition focus_of_kind (k : entry_kind) : nat :=
  match k with
  | EntityEntry true _ => 1
  | _ => 0
  end.

Definition zones_of_kind (k : entry_kind) : nat :=
  match k with
  | ZoneEntry => 2
  | _ => 0
  end.

Section EntryKinds.

Context `{Collaborators}.

Definition entry_kind_of (h : HomeAssistant) (rp : bool)
    (entity : EntitySpec) : entry_kind :=
  match states h !! getEntityId entity with
  | Some stateObj =>
      match coords stateObj with
      | Some _ =>
          if String.eqb (computeStateDomain stateObj) "zone"
          then if hidden_zone rp stateObj then Skipped else ZoneEntry
          else EntityEntry (focus_of entity) (accuracy_of stateObj)
      | None => Skipped
      end
  | None => Skipped
  end.

End EntryKinds.

(** The style of a drawn path object. *)
Definition shape_opacity (sh : Shape) : option number :=
  match sh with
  | circleMarker _ _ _ o _ _ _ | polyline _ _ o _ => o
  | _ => None
  end.

Definition shape_color (sh : Shape) : option string :=
  match sh with
  | circle _ _ c _ | circleMarker _ _ c _ _ _ _ | polyline _ c _ _ => Some c
  | _ => None
  end.

Definition shape_interactive (sh : Shape) : option bool :=
  match sh with
  | marker _ _ i _ => i
  | circle _ i _ _ | circleMarker _ _ _ _ _ i _ | polyline _ _ _ i => Some i
  | otherLayer => None
  end.

(** A path that gets no opacity gradient: no factor, or a falsy one. *)
Definition not_gradual (path : HaMapPaths) : bool :=
  match gradualOpacity path with
  | Some g => negb (num_truthy g)
  | None => true
  end.

(** The style the objects of one path share. *)
Definition styled_as (dpc : string) (path : HaMapPaths) (sh : Shape) : Prop :=
  shape_color sh = Some (color_or path dpc)
  /\ shape_interactive sh = Some (is_circleMarker sh)
  /\ (not_gradual path = true -> shape_opacity sh = None).

(** The page: one acquisition in flight at most, and the resize observer
    follows the connection. *)
Definition single_flight (p : page) : Prop :=
  inflight p = if _loading (el p) then 1 else 0.

Definition observer_follows (p : page) : Prop :=
  (_resizeObserver (el p) = None /\ isConnected p = false)
  \/ _resizeObserver (el p) = Some (isConnected p).

Definition fresh_page (h : option HomeAssistant)
    (ents : option (list EntitySpec)) (ps : option (list HaMapPaths))
    (ls : option (list Layer)) : page :=
  {| el := initial h ents ps ls; isConnected := false; inflight := 0 |}.

(** Only the zoom, or only [hass], is in the batch of changed properties. *)
Definition zoom_only (changedProps : PropertyValues) : Prop :=
  ch__loaded changedProps = false /\ ch_entities changedProps = false
  /\ ch_hass changedProps = None /\ ch_paths changedProps = false
  /\ ch_layers changedProps = None /\ ch_zoom changedProps = true
  /\ ch_themeMode changedProps = false.



(** ** More sample inputs *)

Definition tile_layer : Layer := {| _leaflet_id := 100; shape := otherLayer |}.

Definition overlay_circle : Layer :=
  {| _leaflet_id := 101;
     shape := circle (50%float, 10%float) true "red" (Some 500%float) |}.

Definition overlay_line : Layer :=
  {| _leaflet_id := 102;
     shape := polyline [(50%float, 10%float); (51%float, 11%float)] "blue" None true |}.

(** A ready component with overlay layers. *)
Definition sample_layered (ents : option (list EntitySpec))
    (ls : option (list Layer)) : HaMap :=
  set__loaded true
    (set_Leaflet (Some LeafletModule)
       (set_leafletMap (Some {| map_id := 1; map_layers := ∅ |})
          (set_mapEl
             (Some {| cls_dark := false; cls_forced_dark := false;
                      cls_forced_light := false |})
             (initial (Some sample_hass) ents None ls)))).


(** The sample component once attached and its map acquired. *)
Definition sample_attached (ents : option (list EntitySpec))
    (ls : option (list Layer)) : HaMap :=
  final
    (_loadMap_resume (Some ({| map_id := 1; map_layers := ∅ |}, LeafletModule))
       (final (connectedCallback (initial (Some sample_hass) ents None ls)))).

Definition batch (l e : bool) (h : option (option HomeAssistant)) (p : bool)
    (ly : option (option (list Layer))) (z t : bool) : PropertyValues :=
  {| ch__loaded := l; ch_entities := e; ch_hass := h; ch_paths := p;
     ch_layers := ly; ch_zoom := z; ch_themeMode := t |}.

(** * Properties *)

#[local] Set Warnings "-clear-no-such-hyp".

(** ** The monad and the primitive effects *)

Lemma HaMap_eta (s : HaMap) :
  s = {| hass := hass s; entities := entities s; paths := paths s;
         layers := layers s; autoFit := autoFit s;
         renderPassive := renderPassive s;
         interactiveZones := interactiveZones s; fitZones := fitZones s;
         themeMode := themeMode s; zoom := zoom s; _loaded := _loaded s;
         leafletMap := leafletMap s; Leaflet := Leaflet s;
         _resizeObserver := _resizeObserver s; _mapItems := _mapItems s;
         _mapFocusItems := _mapFocusItems s; _mapZones := _mapZones s;
         _mapPaths := _mapPaths s; _loading := _loading s; mapEl := mapEl s;
         lastId := lastId s; trace := trace s |}.
Proof. destruct s; reflexivity. Qed.

Lemma bind_Normal {A B} (c : M A) (k : A -> M B) s a s' :
  c s = Normal a s' -> bind c k s = k a s'.
Proof. unfold bind. intros ->. reflexivity. Qed.

(** Runs the primitive effects of a computation applied to a state. *)
Ltac run_m :=
  repeat (progress (
    unfold bind, ret, get, modify, throw, new_layer, call, push__mapItems,
      push__mapFocusItems, push__mapZones, push__mapPaths;
    cbn)).

(** Two components with the same fields are equal. *)
Lemma HaMap_ext (a b : HaMap) :
  hass a = hass b -> entities a = entities b -> paths a = paths b ->
  layers a = layers b -> autoFit a = autoFit b ->
  renderPassive a = renderPassive b ->
  interactiveZones a = interactiveZones b -> fitZones a = fitZones b ->
  themeMode a = themeMode b -> zoom a = zoom b -> _loaded a = _loaded b ->
  leafletMap a = leafletMap b -> Leaflet a = Leaflet b ->
  _resizeObserver a = _resizeObserver b -> _mapItems a = _mapItems b ->
  _mapFocusItems a = _mapFocusItems b -> _mapZones a = _mapZones b ->
  _mapPaths a = _mapPaths b -> _loading a = _loading b -> mapEl a = mapEl b ->
  lastId a = lastId b -> trace a = trace b ->
  a = b.
Proof. destruct a, b; cbn; intros; subst; reflexivity. Qed.

(** Reduces an equation between two components built from setters to the
    fields that differ. *)
Ltac state_eq :=
  lazymatch goal with
  | |- Normal _ _ = Normal _ _ => f_equal
  | |- Throw _ = Throw _ => f_equal
  | _ => idtac
  end;
  apply HaMap_ext; cbn; try reflexivity.

Lemma ids_nil : ids [] = ∅.
Proof. reflexivity. Qed.

Lemma ids_cons l ls : ids (l :: ls) = {[ _leaflet_id l ]} ∪ ids ls.
Proof. reflexivity. Qed.

Lemma ids_app (a b : list Layer) : ids (a ++ b) = ids a ∪ ids b.
Proof.
  unfold ids. rewrite fmap_app. apply leibniz_equiv.
  apply list_to_set_app.
Qed.

Lemma elem_of_ids (x : nat) (ls : list Layer) :
  x ∈ ids ls <-> exists l, l ∈ ls /\ _leaflet_id l = x.
Proof.
  unfold ids. rewrite elem_of_list_to_set, list_elem_of_fmap.
  split; intros (l & ? & ?); exists l; auto.
Qed.

Lemma attach_empty s : attach ∅ s = s.
Proof.
  unfold attach. destruct s as [? ? ? ? ? ? ? ? ? ? ? [[i A]|] ? ? ? ? ? ? ? ? ? ?];
    cbn; [|reflexivity].
  unfold set_leafletMap; cbn. do 3 f_equal. set_solver.
Qed.

Lemma attach_attach a b s : attach a (attach b s) = attach (a ∪ b) s.
Proof.
  unfold attach. destruct (leafletMap s) as [m|] eqn:E; cbn.
  - unfold set_leafletMap; cbn. do 3 f_equal. set_solver.
  - rewrite E. reflexivity.
Qed.

Lemma detach_empty s : detach ∅ s = s.
Proof.
  unfold detach. destruct s as [? ? ? ? ? ? ? ? ? ? ? [[i A]|] ? ? ? ? ? ? ? ? ? ?];
    cbn; [|reflexivity].
  unfold set_leafletMap; cbn. do 3 f_equal. set_solver.
Qed.

Lemma detach_detach a b s : detach a (detach b s) = detach (b ∪ a) s.
Proof.
  unfold detach. destruct (leafletMap s) as [m|] eqn:E; cbn.
  - unfold set_leafletMap; cbn. do 3 f_equal. set_solver.
  - rewrite E. reflexivity.
Qed.

Lemma forEach_layer_remove (ls : list Layer) (s : HaMap) :
  forEach layer_remove ls s = Normal tt (detach (ids ls) s).
Proof.
  revert s. induction ls as [|l ls IH]; intros s.
  - cbn [forEach]. rewrite ids_nil, detach_empty. reflexivity.
  - cbn [forEach].
    rewrite (bind_Normal _ _ s tt (detach {[ _leaflet_id l ]} s))
      by reflexivity.
    rewrite IH, detach_detach, ids_cons. reflexivity.
Qed.

Lemma forEach_map_addLayer (ls : list Layer) (s : HaMap) :
  is_Some (leafletMap s) ->
  forEach map_addLayer ls s = Normal tt (attach (ids ls) s).
Proof.
  revert s. induction ls as [|l ls IH]; intros s Hm.
  - cbn [forEach]. rewrite ids_nil, attach_empty. reflexivity.
  - cbn [forEach].
    rewrite (bind_Normal _ _ s tt (attach {[ _leaflet_id l ]} s)).
    2:{ destruct Hm as [m Hm]. unfold map_addLayer, attach, bind, get, modify.
        rewrite Hm. reflexivity. }
    rewrite IH.
    + rewrite attach_attach, ids_cons. do 2 f_equal. set_solver.
    + destruct Hm as [m Hm]. unfold attach. rewrite Hm. cbn. eauto.
Qed.

(** ** Paths *)

Lemma add_paths_nil s : add_paths [] s = s.
Proof.
  unfold add_paths. state_eq.
  - apply app_nil_r.
  - lia.
Qed.

Lemma add_paths_add_paths L1 L2 s :
  add_paths L2 (add_paths L1 s) = add_paths (L1 ++ L2) s.
Proof.
  unfold add_paths. state_eq.
  - symmetry. apply app_assoc.
  - rewrite length_app. lia.
Qed.

Lemma stamp_app n a b :
  stamp n (a ++ b) = stamp n a ++ stamp (n + length a) b.
Proof.
  revert n. induction a as [|x a IH]; intros n; cbn.
  - rewrite Nat.add_0_r. reflexivity.
  - rewrite IH. do 3 f_equal. lia.
Qed.

Lemma length_stamp n shs : length (stamp n shs) = length shs.
Proof. revert n. induction shs; intros; cbn; auto. Qed.

Lemma shape_stamp n shs : shape <$> stamp n shs = shs.
Proof. revert n. induction shs; intros; cbn; f_equal; auto. Qed.

Lemma stamp_fresh n shs l :
  l ∈ stamp n shs -> n < _leaflet_id l <= n + length shs.
Proof.
  revert n. induction shs as [|sh shs IH]; intros n Hl; cbn in *.
  - inversion Hl.
  - apply elem_of_cons in Hl as [-> | Hl]; cbn; [lia|].
    apply IH in Hl. lia.
Qed.

Section PathProperties.

Context `{Collaborators}.
Variables (h : HomeAssistant) (darkPrimaryColor : string) (path : HaMapPaths).

Lemma drawPathPair_step i pt next s :
  points path !! i = Some pt ->
  points path !! S i = Some next ->
  drawPathPair h darkPrimaryColor path i s =
  Normal tt (add_paths (stamp (lastId s)
    [point_marker h darkPrimaryColor path i pt;
     polyline [point pt; point next] (color_or path darkPrimaryColor)
       (point_opacity path i) false]) s).
Proof.
  intros Hi HSi. unfold drawPathPair. rewrite Hi, HSi.
  unfold add_paths. run_m. state_eq.
  - rewrite <- app_assoc. reflexivity.
  - lia.
Qed.

Lemma pair_shapes_cons2 i pt next rest :
  pair_shapes h darkPrimaryColor path i (pt :: next :: rest) =
  [point_marker h darkPrimaryColor path i pt;
   polyline [point pt; point next] (color_or path darkPrimaryColor)
     (point_opacity path i) false]
  ++ pair_shapes h darkPrimaryColor path (S i) (next :: rest).
Proof. reflexivity. Qed.

Lemma pair_loop pts : forall i s,
  drop i (points path) = pts ->
  forEach (drawPathPair h darkPrimaryColor path) (seq i (length pts - 1)) s =
  Normal tt (add_paths
    (stamp (lastId s) (pair_shapes h darkPrimaryColor path i pts)) s).
Proof.
  induction pts as [|pt rest IH]; intros i s Hd.
  - cbn. rewrite add_paths_nil. reflexivity.
  - destruct rest as [|next rest'].
    + cbn. rewrite add_paths_nil. reflexivity.
    + assert (points path !! i = Some pt) as Hi.
      { rewrite <- (Nat.add_0_r i), <- lookup_drop, Hd. reflexivity. }
      assert (drop (S i) (points path) = next :: rest') as Hd'.
      { replace (S i) with (i + 1) by lia.
        rewrite <- drop_drop, Hd. reflexivity. }
      assert (points path !! S i = Some next) as HSi.
      { rewrite <- (Nat.add_0_r (S i)), <- lookup_drop, Hd'. reflexivity. }
      replace (length (pt :: next :: rest') - 1)
        with (S (length (next :: rest') - 1)) by (cbn; lia).
      cbn [seq forEach].
      rewrite (bind_Normal _ _ _ _ _ (drawPathPair_step i pt next s Hi HSi)).
      rewrite (IH (S i) _ Hd'), add_paths_add_paths.
      rewrite (pair_shapes_cons2 i pt next rest'), stamp_app.
      reflexivity.
Qed.

Lemma add_paths_attach A L s :
  add_paths L (attach A s) = attach A (add_paths L s).
Proof.
  unfold attach, add_paths. destruct (leafletMap s) as [m|] eqn:E; cbn;
    rewrite E; reflexivity.
Qed.

Lemma is_Some_map_attach A s :
  is_Some (leafletMap s) -> is_Some (leafletMap (attach A s)).
Proof. intros [m Hm]. unfold attach. rewrite Hm. cbn. eauto. Qed.

Lemma end_marker_step s :
  (match length (points path) with
   | 0 => ret tt
   | S pointIndex =>
       match points path !! pointIndex with
       | Some pt =>
           let* m :=
             new_layer (point_marker h darkPrimaryColor path pointIndex pt) in
           push__mapPaths m
       | None => throw
       end
   end) s =
  Normal tt (add_paths (stamp (lastId s) (end_shape h darkPrimaryColor path)) s).
Proof.
  unfold end_shape. rewrite last_lookup.
  destruct (length (points path)) as [|k] eqn:El.
  - cbn. destruct (points path); [|discriminate].
    cbn. rewrite add_paths_nil. reflexivity.
  - cbn [pred]. destruct (lookup_lt_is_Some_2 (points path) k) as [pt Hpt];
      [lia|].
    rewrite Hpt. replace (S k - 1) with k by lia.
    unfold add_paths. run_m. state_eq. lia.
Qed.

(** [drawPath] pushes the expected shapes, stamped in order, and attaches
    the whole of [_mapPaths]. *)
Lemma drawPath_spec s :
  is_Some (leafletMap s) ->
  drawPath h darkPrimaryColor path s =
  Normal tt
    (attach
       (ids (_mapPaths s
             ++ stamp (lastId s) (expected_path_shapes h darkPrimaryColor path)))
       (add_paths
          (stamp (lastId s) (expected_path_shapes h darkPrimaryColor path)) s)).
Proof.
  intros Hm. unfold drawPath.
  rewrite (bind_Normal _ _ _ _ _ (pair_loop (points path) 0 s eq_refl)).
  rewrite (bind_Normal _ _ _ _ _ (end_marker_step _)).
  replace (lastId (add_paths _ s)) with
    (lastId s + length (pair_shapes h darkPrimaryColor path 0 (points path))).
  2:{ unfold add_paths; cbn. rewrite length_stamp. reflexivity. }
  rewrite add_paths_add_paths, <- stamp_app.
  fold (expected_path_shapes h darkPrimaryColor path).
  set (L := stamp (lastId s) _).
  rewrite (bind_Normal get _ _ (add_paths L s) (add_paths L s)) by reflexivity.
  rewrite forEach_map_addLayer by exact Hm.
  reflexivity.
Qed.

End PathProperties.

Section PathsProperties.

Context `{Collaborators}.
Variables (h : HomeAssistant) (darkPrimaryColor : string).

Lemma forEach_drawPath ps : forall s,
  is_Some (leafletMap s) ->
  forEach (drawPath h darkPrimaryColor) ps s =
  Normal tt
    (let L := stamp (lastId s)
                (flat_map (expected_path_shapes h darkPrimaryColor) ps) in
     attach (match ps with [] => ∅ | _ => ids (_mapPaths s ++ L) end)
       (add_paths L s)).
Proof.
  induction ps as [|path ps IH]; intros s Hm.
  - cbn. rewrite add_paths_nil, attach_empty. reflexivity.
  - cbn [forEach flat_map].
    rewrite (bind_Normal _ _ _ _ _ (drawPath_spec h darkPrimaryColor path s Hm)).
    rewrite IH by (apply is_Some_map_attach; exact Hm).
    cbv zeta. rewrite stamp_app.
    set (L1 := stamp (lastId s) (expected_path_shapes h darkPrimaryColor path)).
    set (S2 := flat_map (expected_path_shapes h darkPrimaryColor) ps).
    assert (lastId (attach (ids (_mapPaths s ++ L1)) (add_paths L1 s))
            = lastId s + length (expected_path_shapes h darkPrimaryColor path))
      as ->.
    { destruct Hm as [m Hm]. unfold attach, add_paths; cbn. rewrite Hm. cbn.
      unfold L1. rewrite length_stamp. reflexivity. }
    set (L2 := stamp _ S2).
    assert (_mapPaths (attach (ids (_mapPaths s ++ L1)) (add_paths L1 s))
            = _mapPaths s ++ L1) as ->.
    { destruct Hm as [m Hm]. unfold attach, add_paths; cbn. rewrite Hm.
      reflexivity. }
    rewrite add_paths_attach, add_paths_add_paths, attach_attach.
    do 2 f_equal.
    destruct ps as [|p2 ps'].
    + cbn in *. rewrite app_nil_r. set_solver.
    + rewrite !ids_app. set_solver.
Qed.

End PathsProperties.

Section PathRenderer.

Context `{Collaborators}.
Variable h : HomeAssistant.

Lemma set__mapPaths_id s : _mapPaths s = [] -> set__mapPaths [] s = s.
Proof. intros E. unfold set__mapPaths. rewrite <- E. symmetry. apply HaMap_eta. Qed.

(** [_drawPaths] on a ready component first detaches and forgets the old
    path objects, then runs the loop over the paths. *)
Lemma _drawPaths_clear s :
  hass s = Some h -> is_Some (leafletMap s) -> is_Some (Leaflet s) ->
  _drawPaths s =
  match paths s with
  | None => Normal tt (pre_paths s)
  | Some ps =>
      forEach (drawPath h (getPropertyValue "--dark-primary-color")) ps
        (pre_paths s)
  end.
Proof.
  intros Hh [m Hm] [L0 HL]. unfold _drawPaths.
  rewrite (bind_Normal get _ s s s) by reflexivity.
  rewrite Hh, Hm, HL.
  assert ((if nonempty (_mapPaths s)
           then forEach layer_remove (_mapPaths s) >> modify (set__mapPaths [])
           else ret tt) s
          = Normal tt (pre_paths s)) as Hc.
  { unfold pre_paths. destruct (_mapPaths s) as [|l ls] eqn:E.
    - cbn [nonempty]. rewrite ids_nil, detach_empty, set__mapPaths_id by exact E.
      reflexivity.
    - cbn [nonempty].
      rewrite (bind_Normal _ _ _ _ _ (forEach_layer_remove _ s)).
      unfold detach.
      change (leafletMap (set__mapPaths [] s)) with (leafletMap s).
      rewrite Hm. reflexivity. }
  rewrite (bind_Normal _ _ _ _ _ Hc).
  assert (paths (pre_paths s) = paths s) as Hp
    by (unfold pre_paths, detach; cbn; rewrite Hm; reflexivity).
  destruct (paths s) as [ps|]; reflexivity.
Qed.

(** The old path objects are detached and forgotten, the expected shapes
    of all paths are created in order and attached. *)
Lemma _drawPaths_spec s :
  hass s = Some h -> is_Some (leafletMap s) -> is_Some (Leaflet s) ->
  _drawPaths s =
  Normal tt
    (match paths s with
     | None => pre_paths s
     | Some ps =>
         let L := stamp (lastId s)
                    (flat_map (expected_path_shapes h
                                 (getPropertyValue "--dark-primary-color")) ps) in
         attach (ids L) (add_paths L (pre_paths s))
     end).
Proof.
  intros Hh Hm HL. rewrite (_drawPaths_clear s Hh Hm HL).
  destruct (paths s) as [ps|]; [|reflexivity].
  destruct Hm as [m Hm].
  rewrite forEach_drawPath.
  2:{ unfold pre_paths, detach; cbn. rewrite Hm. cbn. eauto. }
  cbv zeta.
  assert (lastId (pre_paths s) = lastId s)
    as -> by (unfold pre_paths, detach; cbn; rewrite Hm; reflexivity).
  assert (_mapPaths (pre_paths s) = [])
    as -> by (unfold pre_paths, detach; cbn; rewrite Hm; reflexivity).
  cbn [app]. destruct ps; [|reflexivity].
  cbn [flat_map stamp]. rewrite ids_nil. reflexivity.
Qed.

End PathRenderer.

(** ** Entities *)

Lemma grow_nil s : grow [] [] [] s = s.
Proof. unfold grow. state_eq; try apply app_nil_r. lia. Qed.

Lemma grow_grow I1 F1 Z1 I2 F2 Z2 s :
  grow I2 F2 Z2 (grow I1 F1 Z1 s) = grow (I1 ++ I2) (F1 ++ F2) (Z1 ++ Z2) s.
Proof.
  unfold grow. state_eq; try (symmetry; apply app_assoc).
  rewrite !length_app. lia.
Qed.

(** Closes [c s = Normal tt (grow ?I ?F ?Z s)] once [c] is a straight
    sequence of factory calls and pushes. *)
Ltac solve_grow :=
  unfold grow; run_m; state_eq;
  rewrite ?app_nil_r, <- ?app_assoc; try reflexivity; lia.

Section EntityStep.

Context `{Collaborators}.
Variables (h : HomeAssistant) (cn zoneColor passiveZoneColor dpc : string).

(** The facts about the objects one entity adds, once they are explicit. *)
Ltac entity_facts :=
  split_and!;
  [ intros l Hl; cbn [app] in Hl;
    repeat (apply elem_of_cons in Hl as [-> | Hl]);
    solve [ cbn; lia | inversion Hl ]
  | set_solver
  | reflexivity
  | solve [ discriminate | auto ] ].

Ltac entity_leaf :=
  first
    [ exists [], [], []; rewrite grow_nil; split; [reflexivity | entity_facts]
    | eexists [], [], [_; _]; split; [solve_grow | entity_facts]
    | eexists [_; _], [_], []; split; [solve_grow | entity_facts]
    | eexists [_; _], [], []; split; [solve_grow | entity_facts]
    | eexists [_], [_], []; split; [solve_grow | entity_facts]
    | eexists [_], [], []; split; [solve_grow | entity_facts] ].

Lemma states_at_own entity :
  inherited_entry h entity = false ->
  states_at h (getEntityId entity)
  = StateObj <$> states h !! getEntityId entity.
Proof.
  unfold inherited_entry, states_at.
  destruct (states h !! getEntityId entity); [reflexivity|].
  destruct (bool_decide _); [discriminate | reflexivity].
Qed.

Lemma drawEntity_inherited entity s :
  inherited_entry h entity = true ->
  drawEntity h cn zoneColor passiveZoneColor dpc entity s = Throw s.
Proof.
  unfold inherited_entry, drawEntity.
  destruct (states_at h (getEntityId entity)) as [[st|key]|];
    [discriminate | reflexivity | discriminate].
Qed.


Lemma drawEntity_step entity s :
  inherited_entry h entity = false ->
  exists I F Z,
    drawEntity h cn zoneColor passiveZoneColor dpc entity s
    = Normal tt (grow I F Z s)
    /\ (forall l, l ∈ I ++ Z ->
          lastId s < _leaflet_id l <= lastId s + length I + length Z)
    /\ (forall l, l ∈ F -> l ∈ I)
    /\ count_by is_marker (shape <$> (I ++ Z))
       = (if draws_marker h (renderPassive s) entity then 1 else 0)
    /\ (draws_marker h (renderPassive s) entity = false ->
        I = [] /\ F = [] /\ Z = []).
Proof.
  intros Hown.
  unfold drawEntity, draws_marker, coords, hidden_zone.
  rewrite (states_at_own entity Hown).
  destruct (states h !! getEntityId entity) as [st|] eqn:Est;
    cbn [fmap option_fmap option_map]; [|entity_leaf].
  destruct (latitude (attributes st)) as [lat|]; [|entity_leaf].
  destruct (longitude (attributes st)) as [lng|]; [|entity_leaf].
  destruct (num_truthy lat && num_truthy lng); cbn [negb]; [|entity_leaf].
  destruct (String.eqb (computeStateDomain st) "zone"); cbn [andb negb].
  - rewrite (bind_Normal get _ s s s) by reflexivity.
    destruct (opt_bool_truthy (passive (attributes st))
              && negb (renderPassive s)); cbn [negb]; entity_leaf.
  - destruct (gps_accuracy (attributes st)) as [acc|];
      [destruct (num_truthy acc)|];
      destruct entity as [id|[eid col lm nm [[|]|]]]; entity_leaf.
Qed.

(** The shapes an entity adds depend on the inputs only, not on what was
    drawn before nor on the identities handed out. *)
Ltac shapes_leaf :=
  first
    [ exists [], [], [], [], [], []; rewrite !grow_nil;
      split_and!; reflexivity
    | eexists [], [], [_; _], [], [], [_; _];
      split_and!; [solve_grow | solve_grow | reflexivity ..]
    | eexists [_; _], [_], [], [_; _], [_], [];
      split_and!; [solve_grow | solve_grow | reflexivity ..]
    | eexists [_; _], [], [], [_; _], [], [];
      split_and!; [solve_grow | solve_grow | reflexivity ..]
    | eexists [_], [_], [], [_], [_], [];
      split_and!; [solve_grow | solve_grow | reflexivity ..]
    | eexists [_], [], [], [_], [], [];
      split_and!; [solve_grow | solve_grow | reflexivity ..] ].

Lemma drawEntity_shapes entity s t :
  inherited_entry h entity = false ->
  renderPassive s = renderPassive t ->
  interactiveZones s = interactiveZones t ->
  exists I F Z I' F' Z',
    drawEntity h cn zoneColor passiveZoneColor dpc entity s
    = Normal tt (grow I F Z s)
    /\ drawEntity h cn zoneColor passiveZoneColor dpc entity t
       = Normal tt (grow I' F' Z' t)
    /\ shape <$> I = shape <$> I'
    /\ shape <$> F = shape <$> F'
    /\ shape <$> Z = shape <$> Z'.
Proof.
  intros Hown Hrp Hiz. unfold drawEntity.
  rewrite (states_at_own entity Hown).
  destruct (states h !! getEntityId entity) as [st|] eqn:Est;
    cbn [fmap option_fmap option_map]; [|shapes_leaf].
  destruct (latitude (attributes st)) as [lat|]; [|shapes_leaf].
  destruct (longitude (attributes st)) as [lng|]; [|shapes_leaf].
  destruct (num_truthy lat && num_truthy lng); cbn [negb]; [|shapes_leaf].
  destruct (String.eqb (computeStateDomain st) "zone").
  - rewrite (bind_Normal get _ s s s) by reflexivity.
    rewrite (bind_Normal get _ t t t) by reflexivity.
    rewrite <- Hrp, <- Hiz.
    destruct (opt_bool_truthy (passive (attributes st))
              && negb (renderPassive s)); shapes_leaf.
  - destruct (gps_accuracy (attributes st)) as [acc|];
      [destruct (num_truthy acc)|];
      destruct entity as [id|[eid col lm nm [[|]|]]]; shapes_leaf.
Qed.

Lemma count_by_app {A} (p : A -> bool) (a b : list A) :
  count_by p (a ++ b) = count_by p a + count_by p b.
Proof. induction a as [|x a IH]; cbn; [reflexivity|]. rewrite IH. lia. Qed.

(** The loop gets through the entries before the first inherited one,
    and throws there. *)
Lemma forEach_drawEntity_step ents : forall s,
  exists I F Z,
    forEach (drawEntity h cn zoneColor passiveZoneColor dpc) ents s
    = outcome (aborts h ents) (grow I F Z s)
    /\ (forall l, l ∈ I ++ Z ->
          lastId s < _leaflet_id l <= lastId s + length I + length Z)
    /\ (forall l, l ∈ F -> l ∈ I)
    /\ count_by is_marker (shape <$> (I ++ Z))
       = count_by (draws_marker h (renderPassive s)) (drawn_prefix h ents).
Proof.
  induction ents as [|e ents IH]; intros s.
  - exists [], [], []. cbn [forEach]. unfold ret. rewrite grow_nil.
    split_and!; [reflexivity | set_solver | set_solver | reflexivity].
  - unfold aborts. cbn [forEach existsb drawn_prefix].
    destruct (inherited_entry h e) eqn:He; cbn [orb].
    { exists [], [], []. unfold bind.
      rewrite (drawEntity_inherited e s He), grow_nil.
      split_and!; [reflexivity | set_solver | set_solver | reflexivity]. }
    destruct (drawEntity_step e s He)
      as (I1 & F1 & Z1 & E1 & Hf1 & Hs1 & Hc1 & _).
    destruct (IH (grow I1 F1 Z1 s)) as (I2 & F2 & Z2 & E2 & Hf2 & Hs2 & Hc2).
    exists (I1 ++ I2), (F1 ++ F2), (Z1 ++ Z2).
    rewrite (bind_Normal _ _ _ _ _ E1), E2, grow_grow.
    change (lastId (grow I1 F1 Z1 s)) with (lastId s + length I1 + length Z1)
      in Hf2.
    change (renderPassive (grow I1 F1 Z1 s)) with (renderPassive s) in Hc2.
    split_and!.
    + reflexivity.
    + intros l Hl. rewrite !length_app.
      assert (l ∈ I1 ++ Z1 \/ l ∈ I2 ++ Z2) as [Hl1 | Hl2] by set_solver.
      * apply Hf1 in Hl1. lia.
      * apply Hf2 in Hl2. lia.
    + set_solver.
    + cbn [count_by]. rewrite <- Hc1, <- Hc2.
      rewrite !fmap_app, !count_by_app. lia.
Qed.

Lemma forEach_drawEntity_shapes ents : forall s t,
  renderPassive s = renderPassive t ->
  interactiveZones s = interactiveZones t ->
  exists I F Z I' F' Z',
    forEach (drawEntity h cn zoneColor passiveZoneColor dpc) ents s
    = outcome (aborts h ents) (grow I F Z s)
    /\ forEach (drawEntity h cn zoneColor passiveZoneColor dpc) ents t
       = outcome (aborts h ents) (grow I' F' Z' t)
    /\ shape <$> I = shape <$> I'
    /\ shape <$> F = shape <$> F'
    /\ shape <$> Z = shape <$> Z'.
Proof.
  induction ents as [|e ents IH]; intros s t Hrp Hiz.
  - exists [], [], [], [], [], []. cbn [forEach]. unfold ret.
    rewrite !grow_nil. split_and!; reflexivity.
  - unfold aborts. cbn [forEach existsb].
    destruct (inherited_entry h e) eqn:He; cbn [orb].
    { exists [], [], [], [], [], []. unfold bind.
      rewrite !(drawEntity_inherited e _ He), !grow_nil.
      split_and!; reflexivity. }
    destruct (drawEntity_shapes e s t He Hrp Hiz)
      as (I1 & F1 & Z1 & I1' & F1' & Z1' & E1 & E1' & HI1 & HF1 & HZ1).
    destruct (IH (grow I1 F1 Z1 s) (grow I1' F1' Z1' t) Hrp Hiz)
      as (I2 & F2 & Z2 & I2' & F2' & Z2' & E2 & E2' & HI2 & HF2 & HZ2).
    exists (I1 ++ I2), (F1 ++ F2), (Z1 ++ Z2),
           (I1' ++ I2'), (F1' ++ F2'), (Z1' ++ Z2').
    rewrite (bind_Normal _ _ _ _ _ E1), E2, (bind_Normal _ _ _ _ _ E1'), E2'.
    rewrite !grow_grow, !fmap_app.
    split_and!; first [reflexivity | congruence].
Qed.

End EntityStep.

(** Proves [f (x s) = f s] for a field [f] that [x] leaves alone. *)
Ltac frame :=
  unfold rendered, redrawn, cut_short, pre_entities, pre_paths,
    cleared_entities, grow, add_paths, attach, detach;
  cbn; repeat case_match; reflexivity.

Section EntityRenderer.

Context `{Collaborators}.

Lemma _darkMode_ready s h :
  hass s = Some h ->
  _darkMode s =
  Normal (match themeMode s with
          | Dark => true
          | Light => false
          | Auto => themes_darkMode h
          end) s.
Proof.
  intros Hh. unfold _darkMode. run_m. rewrite Hh.
  destruct (themeMode s); reflexivity.
Qed.

Lemma clear_items_run s :
  (if nonempty (_mapItems s)
   then forEach layer_remove (_mapItems s) >>
        modify (set__mapItems []) >>
        modify (set__mapFocusItems [])
   else ret tt) s
  = Normal tt
      (detach (ids (_mapItems s))
         (set__mapFocusItems
            (if nonempty (_mapItems s) then [] else _mapFocusItems s)
            (set__mapItems [] s))).
Proof.
  destruct (_mapItems s) as [|l ls] eqn:E; cbn [nonempty].
  - rewrite ids_nil, detach_empty. unfold ret. state_eq. exact E.
  - rewrite (bind_Normal _ _ _ _ _ (forEach_layer_remove _ s)).
    unfold detach. run_m. destruct (leafletMap s); state_eq.
Qed.

Lemma clear_zones_run zs c :
  _mapZones c = zs ->
  (if nonempty zs
   then forEach layer_remove zs >> modify (set__mapZones [])
   else ret tt) c
  = Normal tt (detach (ids zs) (set__mapZones [] c)).
Proof.
  intros E. destruct zs as [|l ls]; cbn [nonempty].
  - rewrite ids_nil, detach_empty. unfold ret. state_eq. exact E.
  - rewrite (bind_Normal _ _ _ _ _ (forEach_layer_remove _ c)).
    unfold detach. run_m. destruct (leafletMap c); state_eq.
Qed.

Lemma _drawEntities_clear s h :
  hass s = Some h -> is_Some (leafletMap s) -> is_Some (Leaflet s) ->
  _drawEntities s =
  match entities s with
  | None => Normal tt (pre_entities s)
  | Some ents =>
      (forEach (drawEntity h (className_of h s)
                  (getPropertyValue "--accent-color")
                  (getPropertyValue "--secondary-text-color")
                  (getPropertyValue "--dark-primary-color")) ents >>
       let* s1 := get in
       forEach map_addLayer (_mapItems s1) >>
       forEach map_addLayer (_mapZones s1)) (pre_entities s)
  end.
Proof.
  intros Hh [m Hm] [L0 HL]. unfold _drawEntities.
  rewrite (bind_Normal get _ s s s) by reflexivity.
  rewrite Hh, Hm, HL.
  rewrite (bind_Normal _ _ _ _ _ (clear_items_run s)).
  set (c1 := detach (ids (_mapItems s)) _).
  assert (_mapZones c1 = _mapZones s) as Hz1.
  { unfold c1, detach. cbn. rewrite Hm. reflexivity. }
  rewrite (bind_Normal _ _ _ _ _ (clear_zones_run (_mapZones s) c1 Hz1)).
  set (c := detach (ids (_mapZones s)) _).
  assert (c = pre_entities s) as Hc.
  { unfold c, c1, pre_entities, cleared_entities, detach. cbn. rewrite Hm. cbn.
    state_eq. apply (f_equal Some), (f_equal (Build_LMap (map_id m))).
    rewrite ids_app. set_solver. }
  rewrite Hc. destruct (entities s) as [ents|]; [|reflexivity].
  assert (hass (pre_entities s) = Some h) as Hhc by (rewrite <- Hh; frame).
  rewrite (bind_Normal _ _ _ _ _ (_darkMode_ready _ h Hhc)).
  replace (themeMode (pre_entities s)) with (themeMode s) by frame.
  reflexivity.
Qed.

Lemma _drawEntities_run s h ents I F Z :
  hass s = Some h -> is_Some (leafletMap s) -> is_Some (Leaflet s) ->
  entities s = Some ents ->
  forEach (drawEntity h (className_of h s)
             (getPropertyValue "--accent-color")
             (getPropertyValue "--secondary-text-color")
             (getPropertyValue "--dark-primary-color")) ents (pre_entities s)
  = outcome (aborts h ents) (grow I F Z (pre_entities s)) ->
  _drawEntities s
  = outcome (aborts h ents) (rendered (aborts h ents) I F Z s).
Proof.
  intros Hh Hm HL He E.
  rewrite (_drawEntities_clear s h Hh Hm HL), He.
  destruct (aborts h ents); cbn [outcome rendered] in *.
  { unfold bind at 1. rewrite E. reflexivity. }
  rewrite (bind_Normal _ _ _ _ _ E).
  set (c := pre_entities s) in *.
  rewrite (bind_Normal get _ _ (grow I F Z c) (grow I F Z c)) by reflexivity.
  assert (is_Some (leafletMap (grow I F Z c))) as Hmg.
  { destruct Hm as [m Hm]. unfold c, pre_entities, detach. cbn.
    rewrite Hm. cbn. eauto. }
  rewrite (bind_Normal _ _ _ _ _ (forEach_map_addLayer _ _ Hmg)).
  rewrite forEach_map_addLayer by (apply is_Some_map_attach; exact Hmg).
  rewrite attach_attach. unfold redrawn. fold c.
  assert (_mapItems c = []) as Hi0 by (unfold c; frame).
  assert (_mapZones c = []) as Hz0 by (unfold c; frame).
  change (_mapZones (grow I F Z c)) with (_mapZones c ++ Z).
  change (_mapItems (grow I F Z c)) with (_mapItems c ++ I).
  rewrite Hi0, Hz0. cbn [app].
  assert (ids Z ∪ ids I = ids (I ++ Z)) as ->; [|reflexivity].
  rewrite ids_app. set_solver.
Qed.

(** One render: it throws exactly when a listed identifier names an
    inherited member, after the entries before that one were drawn. *)
Lemma _drawEntities_spec s h :
  hass s = Some h -> is_Some (leafletMap s) -> is_Some (Leaflet s) ->
  exists I F Z,
    _drawEntities s
    = outcome (aborts h (default [] (entities s)))
        (rendered (aborts h (default [] (entities s))) I F Z s)
    /\ (forall l, l ∈ I ++ Z ->
          lastId s < _leaflet_id l <= lastId s + length I + length Z)
    /\ (forall l, l ∈ F -> l ∈ I)
    /\ match entities s with
       | Some ents =>
           count_by is_marker (shape <$> (I ++ Z))
           = count_by (draws_marker h (renderPassive s)) (drawn_prefix h ents)
       | None => I = [] /\ F = [] /\ Z = []
       end.
Proof.
  intros Hh Hm HL.
  destruct (entities s) as [ents|] eqn:Eents; cbn [default].
  - destruct (forEach_drawEntity_step h (className_of h s)
                (getPropertyValue "--accent-color")
                (getPropertyValue "--secondary-text-color")
                (getPropertyValue "--dark-primary-color") ents (pre_entities s))
      as (I & F & Z & E & Hf & Hs & Hcount).
    exists I, F, Z.
    replace (lastId (pre_entities s)) with (lastId s) in Hf by frame.
    replace (renderPassive (pre_entities s)) with (renderPassive s) in Hcount
      by frame.
    split_and!; try assumption.
    exact (_drawEntities_run s h ents I F Z Hh Hm HL Eents E).
  - exists [], [], [].
    rewrite (_drawEntities_clear s h Hh Hm HL), Eents.
    cbn [aborts existsb outcome rendered].
    unfold redrawn. fold (pre_entities s).
    rewrite grow_nil. cbn [app]. rewrite ids_nil, attach_empty.
    repeat split; set_solver.
Qed.

(** Two renders from components with the same inputs draw the same shapes,
    and throw or complete alike. *)
Lemma _drawEntities_shapes s t h :
  hass s = Some h -> is_Some (leafletMap s) -> is_Some (Leaflet s) ->
  hass t = Some h -> is_Some (leafletMap t) -> is_Some (Leaflet t) ->
  entities s = entities t -> renderPassive s = renderPassive t ->
  interactiveZones s = interactiveZones t -> themeMode s = themeMode t ->
  exists I F Z I' F' Z',
    _drawEntities s
    = outcome (aborts h (default [] (entities s)))
        (rendered (aborts h (default [] (entities s))) I F Z s)
    /\ _drawEntities t
       = outcome (aborts h (default [] (entities s)))
           (rendered (aborts h (default [] (entities s))) I' F' Z' t)
    /\ shape <$> I = shape <$> I'
    /\ shape <$> F = shape <$> F'
    /\ shape <$> Z = shape <$> Z'.
Proof.
  intros Hh Hm HL Hh' Hm' HL' He Hrp Hiz Htm.
  destruct (entities s) as [ents|] eqn:Eents; cbn [default].
  - assert (className_of h s = className_of h t) as Hcn
      by (unfold className_of; rewrite Htm; reflexivity).
    destruct (forEach_drawEntity_shapes h (className_of h s)
                (getPropertyValue "--accent-color")
                (getPropertyValue "--secondary-text-color")
                (getPropertyValue "--dark-primary-color") ents
                (pre_entities s) (pre_entities t))
      as (I & F & Z & I' & F' & Z' & E & E' & HI & HF & HZ).
    { transitivity (renderPassive s); [frame|].
      rewrite Hrp. symmetry. frame. }
    { transitivity (interactiveZones s); [frame|].
      rewrite Hiz. symmetry. frame. }
    exists I, F, Z, I', F', Z'. split_and!; try assumption.
    + exact (_drawEntities_run s h ents I F Z Hh Hm HL Eents E).
    + rewrite Hcn in E'. symmetry in He.
      exact (_drawEntities_run t h ents I' F' Z' Hh' Hm' HL' He E').
  - exists [], [], [], [], [], [].
    rewrite (_drawEntities_clear s h Hh Hm HL), Eents.
    rewrite (_drawEntities_clear t h Hh' Hm' HL'), <- He.
    cbn [aborts existsb outcome rendered].
    unfold redrawn. fold (pre_entities s). fold (pre_entities t).
    rewrite !grow_nil. cbn [app]. rewrite ids_nil, !attach_empty.
    split_and!; reflexivity.
Qed.

End EntityRenderer.

Lemma own_not_inherited h entity stateObj :
  states h !! getEntityId entity = Some stateObj ->
  inherited_entry h entity = false.
Proof.
  intros Hst. unfold inherited_entry, states_at. rewrite Hst. reflexivity.
Qed.

Lemma drawn_prefix_all h ents :
  aborts h ents = false -> drawn_prefix h ents = ents.
Proof.
  unfold aborts. induction ents as [|e ents IH]; cbn; [reflexivity|].
  destruct (inherited_entry h e); cbn; [discriminate|].
  intros Hrest. rewrite (IH Hrest). reflexivity.
Qed.

(** * The claims *)

Section EntityClaims.

Context `{Collaborators}.

(** C10. An entity whose snapshot entry has latitude 0 or longitude 0 is
    skipped by the Entity Renderer like one without coordinates: the body
    of the loop leaves the component as it was, no object is created. *)
Theorem zero_coordinate_draws_nothing h cn zoneColor passiveZoneColor dpc
    entity stateObj s :
  states h !! getEntityId entity = Some stateObj ->
  zero_coordinate (latitude (attributes stateObj)) = true
  \/ zero_coordinate (longitude (attributes stateObj)) = true ->
  drawEntity h cn zoneColor passiveZoneColor dpc entity s = Normal tt s
  /\ draws_marker h (renderPassive s) entity = false.
Proof.
  intros Hst Hzero.
  assert (coords stateObj = None) as Hc.
  { unfold coords, zero_coordinate, num_truthy in *.
    destruct (latitude (attributes stateObj)) as [lat|];
      destruct (longitude (attributes stateObj)) as [lng|];
      try reflexivity;
      destruct Hzero as [Hz | Hz]; try discriminate;
      rewrite Hz; cbn; rewrite ?andb_false_r; reflexivity. }
  assert (draws_marker h (renderPassive s) entity = false) as Hd.
  { unfold draws_marker. rewrite Hst, Hc. reflexivity. }
  split; [|exact Hd].
  destruct (drawEntity_step h cn zoneColor passiveZoneColor dpc entity s
              (own_not_inherited h entity stateObj Hst))
    as (I & F & Z & E & _ & _ & _ & Hnone).
  destruct (Hnone Hd) as (-> & -> & ->).
  rewrite E, grow_nil. reflexivity.
Qed.


(** C6 (amended). A zone entity that is drawn gets a marker whose icon is
    the [ha-icon] glyph when the icon attribute is a non-empty string, and
    otherwise a [span] holding the whole title (the custom name, else the
    state name): no initials and no truncation; a circle follows it. *)
Theorem zone_marker_icon h cn zoneColor passiveZoneColor dpc entity stateObj
    lat lng t :
  states h !! getEntityId entity = Some stateObj ->
  latitude (attributes stateObj) = Some lat ->
  longitude (attributes stateObj) = Some lng ->
  num_truthy lat = true -> num_truthy lng = true ->
  computeStateDomain stateObj = "zone" ->
  hidden_zone (renderPassive t) stateObj = false ->
  drawEntity h cn zoneColor passiveZoneColor dpc entity t =
  Normal tt
    (grow [] []
       (stamp (lastId t)
          [marker (lat, lng)
             {| html :=
                  match icon (attributes stateObj) with
                  | Some i =>
                      if str_truthy i then HaIconEl i
                      else SpanEl (title_of entity stateObj)
                  | None => SpanEl (title_of entity stateObj)
                  end;
                iconSize := (24, 24)%Z;
                className := cn |}
             (Some (interactiveZones t)) (title_of entity stateObj);
           circle (lat, lng) false
             (if opt_bool_truthy (passive (attributes stateObj))
              then passiveZoneColor else zoneColor)
             (radius (attributes stateObj))]) t).
Proof.
  intros Hst Hlat Hlng Htl Htg Hdom Hhid.
  unfold drawEntity, states_at.
  rewrite Hst, Hlat, Hlng, Htl, Htg, Hdom. cbn [andb negb].
  change (String.eqb "zone" "zone") with true. cbv iota.
  rewrite (bind_Normal get _ t t t) by reflexivity.
  unfold hidden_zone in Hhid. rewrite Hdom in Hhid.
  change (String.eqb "zone" "zone") with true in Hhid. cbn [andb] in Hhid.
  rewrite Hhid.
  assert (match match entity with
                | EntityId _ => None
                | EntityObj e => name e
                end with
          | Some x => x
          | None => computeStateName stateObj
          end = title_of entity stateObj) as ->.
  { destruct entity as [id|[eid col lm [nm|] fc]]; reflexivity. }
  cbn [stamp]. solve_grow.
Qed.

End EntityClaims.

(** ** Paths: what the expected shapes are *)

Section PathClaims.

Context `{Collaborators}.
Variables (h : HomeAssistant) (dpc : string) (path : HaMapPaths).

Lemma pair_shapes_length pts : forall i,
  length (pair_shapes h dpc path i pts) = 2 * (length pts - 1).
Proof.
  induction pts as [|pt rest IH]; intros i; [reflexivity|].
  destruct rest as [|next rest']; [reflexivity|].
  rewrite pair_shapes_cons2, length_app, IH. cbn [length]. lia.
Qed.

Lemma pair_shapes_counts pts : forall i,
  count_by is_circleMarker (pair_shapes h dpc path i pts) = length pts - 1
  /\ count_by is_polyline (pair_shapes h dpc path i pts) = length pts - 1
  /\ count_by has_tooltip (pair_shapes h dpc path i pts) = length pts - 1.
Proof.
  induction pts as [|pt rest IH]; intros i; [repeat split|].
  destruct rest as [|next rest']; [repeat split|].
  rewrite pair_shapes_cons2, !count_by_app.
  destruct (IH (S i)) as (-> & -> & ->). cbn. repeat split; lia.
Qed.

Lemma pair_shapes_lookup pts : forall i j pt next,
  pts !! j = Some pt -> pts !! S j = Some next ->
  pair_shapes h dpc path i pts !! (2 * j)
  = Some (point_marker h dpc path (i + j) pt)
  /\ pair_shapes h dpc path i pts !! (2 * j + 1)
     = Some (polyline [point pt; point next] (color_or path dpc)
               (point_opacity path (i + j)) false).
Proof.
  induction pts as [|p0 rest IH]; intros i j pt next Hj HSj; [inversion Hj|].
  destruct rest as [|p1 rest']; [destruct j; inversion HSj|].
  rewrite pair_shapes_cons2.
  destruct j as [|j].
  - cbn in Hj, HSj. inversion Hj; inversion HSj; subst.
    rewrite Nat.add_0_r. split; reflexivity.
  - cbn [lookup list_lookup] in Hj, HSj.
    destruct (IH (S i) j pt next Hj HSj) as (E1 & E2).
    replace (2 * S j) with (S (S (2 * j))) by lia.
    replace (S (S (2 * j)) + 1) with (S (S (2 * j + 1))) by lia.
    replace (i + S j) with (S i + j) by lia.
    split; [exact E1 | exact E2].
Qed.

Lemma expected_path_shapes_end pt :
  last (points path) = Some pt ->
  expected_path_shapes h dpc path !! (2 * (length (points path) - 1))
  = Some (point_marker h dpc path (length (points path) - 1) pt)
  /\ last (expected_path_shapes h dpc path)
     = Some (point_marker h dpc path (length (points path) - 1) pt).
Proof.
  intros Hl. unfold expected_path_shapes, end_shape. rewrite Hl. split.
  - rewrite lookup_app_r by (rewrite pair_shapes_length; lia).
    rewrite pair_shapes_length, Nat.sub_diag. reflexivity.
  - apply last_snoc.
Qed.

Lemma expected_path_shapes_counts N :
  length (points path) = N -> 1 <= N ->
  count_by is_circleMarker (expected_path_shapes h dpc path) = N
  /\ count_by is_polyline (expected_path_shapes h dpc path) = N - 1
  /\ count_by has_tooltip (expected_path_shapes h dpc path) = N
  /\ length (expected_path_shapes h dpc path) = N + (N - 1).
Proof.
  intros HN Hpos. unfold expected_path_shapes, end_shape.
  destruct (last (points path)) as [pt|] eqn:El.
  2:{ apply last_None in El. rewrite El in HN. cbn in HN. lia. }
  rewrite !count_by_app, length_app, pair_shapes_length.
  destruct (pair_shapes_counts (points path) 0) as (-> & -> & ->).
  rewrite HN. cbn. repeat split; lia.
Qed.

Lemma marker_lookup i pt :
  points path !! i = Some pt ->
  expected_path_shapes h dpc path !! (2 * i)
  = Some (point_marker h dpc path i pt).
Proof.
  intros Hi.
  destruct (points path !! S i) as [next|] eqn:HSi.
  - unfold expected_path_shapes. rewrite lookup_app_l.
    + apply (proj1 (pair_shapes_lookup (points path) 0 i pt next Hi HSi)).
    + rewrite pair_shapes_length.
      apply lookup_lt_Some in HSi. lia.
  - apply lookup_ge_None in HSi. pose proof (lookup_lt_Some _ _ _ Hi) as Hlt.
    assert (i = length (points path) - 1) as -> by lia.
    apply expected_path_shapes_end. rewrite last_lookup.
    replace (pred (length (points path))) with (length (points path) - 1)
      by lia.
    exact Hi.
Qed.

Lemma segment_lookup i pt next :
  points path !! i = Some pt -> points path !! S i = Some next ->
  expected_path_shapes h dpc path !! (2 * i + 1)
  = Some (polyline [point pt; point next] (color_or path dpc)
            (point_opacity path i) false).
Proof.
  intros Hi HSi. unfold expected_path_shapes. rewrite lookup_app_l.
  - apply (proj2 (pair_shapes_lookup (points path) 0 i pt next Hi HSi)).
  - rewrite pair_shapes_length. apply lookup_lt_Some in HSi. lia.
Qed.

End PathClaims.

(** ** Paths: the opacity gradient *)

Lemma SFeqb_refl x : x <> S754_nan -> SFeqb x x = true.
Proof.
  intros Hx. unfold SFeqb, SFcompare.
  destruct x as [s|s| |s m e]; try congruence.
  - destruct s; reflexivity.
  - rewrite Z.compare_refl, Pos.compare_cont_refl. destruct s; reflexivity.
Qed.

Lemma is_nan_spec x :
  is_nan x = match Prim2SF x with S754_nan => true | _ => false end.
Proof.
  unfold is_nan. rewrite FloatAxioms.eqb_spec.
  destruct (Prim2SF x) eqn:E;
    try (rewrite SFeqb_refl by discriminate; reflexivity).
  reflexivity.
Qed.

Lemma is_infinity_spec x :
  is_infinity x = match Prim2SF x with S754_infinity _ => true | _ => false end.
Proof.
  unfold is_infinity. rewrite FloatAxioms.eqb_spec, abs_spec.
  change (Prim2SF infinity) with (S754_infinity false).
  destruct (Prim2SF x) as [s|s| |s m e]; reflexivity.
Qed.

Lemma same_value_zero_spec a b :
  same_value_zero a b =
  match Prim2SF a, Prim2SF b with
  | S754_nan, S754_nan => true
  | x, y => SFeqb x y
  end.
Proof.
  unfold same_value_zero. rewrite FloatAxioms.eqb_spec, !is_nan_spec.
  destruct (Prim2SF a), (Prim2SF b); cbn; rewrite ?orb_false_r; reflexivity.
Qed.

(** Index 0 adds [0 * step] to the base: a zero when the step is finite,
    [NaN] when it is not. *)
Lemma first_index_opacity base step :
  same_value_zero (num_add base (num_mul (num_of_nat 0) step))
    (if is_finite step then base else nan) = true.
Proof.
  unfold num_add, num_mul, is_finite.
  change (num_of_nat 0) with 0%float.
  rewrite same_value_zero_spec, add_spec, mul_spec, is_nan_spec,
    is_infinity_spec.
  change (Prim2SF 0) with (S754_zero false).
  destruct (Prim2SF step) as [s|s| |s m e]; cbn.
  - destruct (Prim2SF base) as [sb|sb| |sb mb eb] eqn:Eb; cbn.
    + destruct sb, s; reflexivity.
    + destruct sb; reflexivity.
    + reflexivity.
    + change (SFeqb (S754_finite sb mb eb) (S754_finite sb mb eb) = true).
      apply SFeqb_refl. discriminate.
  - destruct (Prim2SF base); reflexivity.
  - destruct (Prim2SF base); reflexivity.
  - destruct (Prim2SF base) as [sb|sb| |sb mb eb] eqn:Eb; cbn.
    + destruct sb, s; reflexivity.
    + destruct sb; reflexivity.
    + reflexivity.
    + change (SFeqb (S754_finite sb mb eb) (S754_finite sb mb eb) = true).
      apply SFeqb_refl. discriminate.
Qed.

(** For a truthy factor the opacity of index [i] is the interpolation, as
    the doubles compute it. *)
Lemma point_opacity_formula path f i :
  gradualOpacity path = Some f -> num_truthy f = true ->
  point_opacity path i = Some (interpolated f (length (points path)) i).
Proof.
  intros Hg Hf. unfold point_opacity, opacity_params. rewrite Hg, Hf.
  reflexivity.
Qed.

Section OpacityClaims.

Context `{Collaborators}.

(** C2 (amended). For a path with a truthy gradual-opacity factor [f] and
    [N >= 3] points, the path is drawn as its expected shapes; the point
    marker of index [i] (at position [2 i]) and the segment of index [i]
    (at position [2 i + 1]) carry the opacity
    [(1 - f) + i * (f / (N - 2))], each operation rounded as the doubles
    round it. The first point has [1 - f] (the sign of a zero apart) when
    the step [f / (N - 2)] is finite, and [NaN] when it is not. The last
    point, index [N - 1], gets the value of the same expression, one step
    beyond index [N - 2]. *)
Theorem gradual_opacity_formula h dpc path f N :
  gradualOpacity path = Some f -> num_truthy f = true ->
  length (points path) = N -> 3 <= N ->
  (forall t, is_Some (leafletMap t) ->
     drawPath h dpc path t =
     Normal tt
       (attach
          (ids (_mapPaths t
                ++ stamp (lastId t) (expected_path_shapes h dpc path)))
          (add_paths (stamp (lastId t) (expected_path_shapes h dpc path)) t)))
  /\ (forall i pt,
        points path !! i = Some pt ->
        expected_path_shapes h dpc path !! (2 * i)
        = Some (circleMarker (point pt) (if isTouch then 8 else 3)
                  (color_or path dpc) (Some (interpolated f N i))
                  (Some (interpolated f N i)) true
                  (Some (_computePathTooltip h path pt))))
  /\ (forall i pt next,
        points path !! i = Some pt -> points path !! S i = Some next ->
        expected_path_shapes h dpc path !! (2 * i + 1)
        = Some (polyline [point pt; point next] (color_or path dpc)
                  (Some (interpolated f N i)) false))
  /\ same_value_zero (interpolated f N 0)
       (if is_finite (num_div f (num_sub (num_of_nat N) 2))
        then num_sub 1 f
        else nan) = true
  /\ point_opacity path (N - 1) = Some (interpolated f N (N - 1)).
Proof.
  intros Hg Hf HN H3.
  split_and!.
  - intros t Ht. apply drawPath_spec. exact Ht.
  - intros i pt Hi.
    rewrite (marker_lookup h dpc path i pt Hi). unfold point_marker.
    rewrite (point_opacity_formula path f i Hg Hf), HN. reflexivity.
  - intros i pt next Hi HSi.
    rewrite (segment_lookup h dpc path i pt next Hi HSi).
    rewrite (point_opacity_formula path f i Hg Hf), HN. reflexivity.
  - apply first_index_opacity.
  - rewrite (point_opacity_formula path f (N - 1) Hg Hf), HN. reflexivity.
Qed.

(** C4. On a ready component [_drawPaths] completes and leaves in
    [_mapPaths] the expected shapes of every path, in order; for a path
    with [N >= 2] points these are exactly [N] circular point markers, each
    with a tooltip, and [N - 1] line segments, all attached to the map:
    [N - 1] markers and the segments come from the loop over point pairs,
    and the marker of the final point follows them as the last object. *)
Theorem path_renderer_counts s h ps :
  hass s = Some h -> is_Some (leafletMap s) -> is_Some (Leaflet s) ->
  paths s = Some ps ->
  (exists s',
     _drawPaths s = Normal tt s'
     /\ shape <$> _mapPaths s'
        = flat_map (expected_path_shapes h
                      (getPropertyValue "--dark-primary-color")) ps
     /\ ids (_mapPaths s') ⊆ attached s')
  /\ (forall dpc path t,
        forEach (drawPathPair h dpc path) (seq 0 (length (points path) - 1)) t
        = Normal tt
            (add_paths
               (stamp (lastId t) (pair_shapes h dpc path 0 (points path))) t))
  /\ (forall dpc path N,
        length (points path) = N -> 2 <= N ->
        count_by is_circleMarker (expected_path_shapes h dpc path) = N
        /\ count_by has_tooltip (expected_path_shapes h dpc path) = N
        /\ count_by is_polyline (expected_path_shapes h dpc path) = N - 1
        /\ length (expected_path_shapes h dpc path) = N + (N - 1)
        /\ expected_path_shapes h dpc path
           = pair_shapes h dpc path 0 (points path) ++ end_shape h dpc path
        /\ count_by is_circleMarker (pair_shapes h dpc path 0 (points path))
           = N - 1
        /\ exists pt,
             last (points path) = Some pt
             /\ end_shape h dpc path = [point_marker h dpc path (N - 1) pt]).
Proof.
  intros Hh Hm HL Hp. split_and!.
  - eexists. split; [apply (_drawPaths_spec h s Hh Hm HL)|].
    rewrite Hp. cbv zeta.
    set (L := stamp _ _).
    assert (_mapPaths (attach (ids L) (add_paths L (pre_paths s))) = L)
      as -> by frame.
    split; [apply shape_stamp|].
    destruct Hm as [m Hm].
    unfold attached, attach, add_paths, pre_paths, detach. cbn.
    rewrite Hm. cbn. set_solver.
  - intros dpc path t. apply pair_loop. reflexivity.
  - intros dpc path N HN H2.
    destruct (expected_path_shapes_counts h dpc path N HN) as (Hc & Hl & Ht & Hlen);
      [lia|].
    destruct (pair_shapes_counts h dpc path (points path) 0) as (Hpc & _ & _).
    split_and!; try assumption; try reflexivity.
    + rewrite Hpc, HN. reflexivity.
    + destruct (last (points path)) as [pt|] eqn:El.
      * exists pt. split; [reflexivity|].
        unfold end_shape. rewrite El, HN. reflexivity.
      * apply last_None in El. rewrite El in HN. cbn in HN. lia.
Qed.

End OpacityClaims.

(** ** Viewport, update cycle and lifecycle *)


(** [_updateMapStyle] touches the class list only. *)
Lemma _updateMapStyle_frame s :
  final (_updateMapStyle s) = set_mapEl (mapEl (final (_updateMapStyle s))) s.
Proof.
  unfold _updateMapStyle, _darkMode. run_m.
  destruct (mapEl s); [destruct (themeMode s); [destruct (hass s)|..]|];
    cbn; try reflexivity; state_eq.
Qed.

Section UpdateClaims.

Context `{Collaborators}.

(** C9. An update whose batch holds the theme mode only draws nothing: the
    component ends as it started except for the class list of the map
    element, so the four collections, the live map and its layers, and the
    calls made are unchanged. When the component is loaded the update is
    exactly [_updateMapStyle], which sets the three styling classes from the
    theme mode; when it is not, nothing happens at all. *)
Theorem theme_change_only_restyles changedProps s :
  theme_only changedProps ->
  final (update changedProps s)
  = set_mapEl (mapEl (final (update changedProps s))) s
  /\ _mapItems (final (update changedProps s)) = _mapItems s
  /\ _mapFocusItems (final (update changedProps s)) = _mapFocusItems s
  /\ _mapZones (final (update changedProps s)) = _mapZones s
  /\ _mapPaths (final (update changedProps s)) = _mapPaths s
  /\ leafletMap (final (update changedProps s)) = leafletMap s
  /\ trace (final (update changedProps s)) = trace s
  /\ lastId (final (update changedProps s)) = lastId s
  /\ (_loaded s = false -> update changedProps s = Normal tt s)
  /\ (_loaded s = true -> update changedProps s = _updateMapStyle s)
  /\ (_loaded s = true -> is_Some (mapEl s) ->
      themeMode s <> Auto \/ is_Some (hass s) ->
      exists d,
        _darkMode s = Normal d s
        /\ update changedProps s
           = Normal tt
               (set_mapEl
                  (Some {| cls_dark := d;
                           cls_forced_dark :=
                             match themeMode s with Dark => true | _ => false end;
                           cls_forced_light :=
                             match themeMode s with Light => true | _ => false end
                        |}) s)).
Proof.
  intros (Hl & He & Hh & Hp & Hly & Hz & Ht).
  assert (_loaded s = false -> update changedProps s = Normal tt s) as Hoff.
  { intros Hld. unfold update.
    rewrite (bind_Normal get _ s s s) by reflexivity.
    rewrite Hld. reflexivity. }
  assert (_loaded s = true -> update changedProps s = _updateMapStyle s)
    as Hon.
  { intros Hld. unfold update.
    rewrite (bind_Normal get _ s s s) by reflexivity.
    rewrite Hld, Hl, He, Hh, Hp, Hly, Hz, Ht. cbn [negb orb mjoin].
    unfold mjoin, option_join. cbn [mbind option_bind].
    rewrite (bind_Normal _ _ s false s) by reflexivity.
    rewrite (bind_Normal _ _ s tt s) by reflexivity.
    rewrite bool_decide_eq_false_2 by (intros [x Hx]; discriminate Hx).
    rewrite (bind_Normal _ _ s false s) by reflexivity.
    rewrite andb_false_r.
    rewrite (bind_Normal _ _ s tt s) by reflexivity.
    rewrite (bind_Normal _ _ s tt s) by reflexivity.
    reflexivity. }
  assert (final (update changedProps s)
          = set_mapEl (mapEl (final (update changedProps s))) s) as Hfr.
  { destruct (_loaded s) eqn:Hld.
    - rewrite (Hon eq_refl). apply _updateMapStyle_frame.
    - rewrite (Hoff eq_refl). cbn [final]. state_eq. }
  split_and!; try assumption; try (rewrite Hfr; reflexivity).
  intros Hld [cl Hcl] Hdm. rewrite (Hon Hld).
  unfold _updateMapStyle, _darkMode. run_m. rewrite Hcl.
  destruct (themeMode s) eqn:Etm.
  - destruct Hdm as [Hne | [h0 Hh0]]; [congruence|]. rewrite Hh0. cbn.
    eexists. split; reflexivity.
  - cbn. eexists. split; reflexivity.
  - cbn. eexists. split; reflexivity.
Qed.

End UpdateClaims.

(** C7. Detaching releases the handle and resets readiness, whatever the
    state; but a [_loadMap] that was suspended on its acquisition when the
    element was detached still commits the map and sets [_loaded] when the
    acquisition completes: the detached component ends ready, holding a
    live map. *)
Theorem late_acquisition_is_committed :
  (forall s,
     throws (disconnectedCallback s) = false
     /\ leafletMap (final (disconnectedCallback s)) = None
     /\ _loaded (final (disconnectedCallback s)) = false)
  /\ (forall h m,
        let p := run [Attach; Detach; AcquisitionDone m]
                   {| el := initial (Some h) None None None;
                      isConnected := false; inflight := 0 |} in
        isConnected p = false
        /\ leafletMap (el p) = Some m
        /\ Leaflet (el p) = Some LeafletModule
        /\ _loaded (el p) = true
        /\ inflight p = 0).
Proof.
  split.
  - intros s. unfold disconnectedCallback. run_m.
    destruct (leafletMap s) eqn:Em; destruct (_resizeObserver s); cbn;
      repeat split; exact Em.
  - intros h m. cbn. repeat split.
Qed.

(** ** The identities stay consistent *)

Lemma frames_ret {A} (a : A) : frames (ret a).
Proof. intros s. reflexivity. Qed.

Lemma frames_throw {A} : frames (@throw A).
Proof. intros s. reflexivity. Qed.

Lemma frames_bind {A B} (c : M A) (k : A -> M B) :
  frames c -> (forall a, frames (k a)) -> frames (bind c k).
Proof.
  intros Hc Hk s. unfold bind. specialize (Hc s).
  destruct (c s) as [a s'|s']; cbn [final] in *; [|exact Hc].
  rewrite (Hk a s'). exact Hc.
Qed.

Lemma frames_get_bind {B} (k : HaMap -> M B) :
  (forall s, frames (k s)) -> frames (bind get k).
Proof. intros Hk s. exact (Hk s s). Qed.

Lemma frames_modify (f : HaMap -> HaMap) :
  (forall s, scene (f s) = scene s) -> frames (modify f).
Proof. intros Hf s. exact (Hf s). Qed.

Lemma frames_forEach {A} (f : A -> M unit) (l : list A) :
  (forall x, frames (f x)) -> frames (forEach f l).
Proof.
  intros Hf. induction l as [|x l IH]; cbn [forEach].
  - apply frames_ret.
  - apply frames_bind; [apply Hf | intros _; exact IH].
Qed.

Lemma frames_try_finally {A} (c : M A) (f : M unit) :
  frames c -> frames f -> frames (try_finally c f).
Proof.
  intros Hc Hf s. unfold try_finally. specialize (Hc s).
  destruct (c s) as [a s'|s']; cbn [final] in *.
  - specialize (Hf s'). destruct (f s'); cbn [final] in *; congruence.
  - rewrite (Hf s'). exact Hc.
Qed.

(** Decomposes a computation down to its primitive effects. *)
Ltac frames_tac :=
  repeat
    match goal with
    | |- frames (match ?x with _ => _ end) => destruct x
    | |- frames (ret _) => apply frames_ret
    | |- frames throw => apply frames_throw
    | |- frames (bind get _) => apply frames_get_bind; intros ?
    | |- frames (bind _ _) => apply frames_bind; [|intros ?]
    | |- frames (forEach _ _) => apply frames_forEach; intros ?
    | |- frames (try_finally _ _) => apply frames_try_finally
    | |- frames (modify _) =>
        apply frames_modify; intros ?;
        solve [ reflexivity | cbn; repeat case_match; reflexivity ]
    end.

Lemma frames_layer_remove l : frames (layer_remove l).
Proof. unfold layer_remove. frames_tac. Qed.

Lemma frames_map_addLayer l : frames (map_addLayer l).
Proof. unfold map_addLayer. frames_tac. Qed.

Lemma frames_call c : frames (call c).
Proof. unfold call. frames_tac. Qed.

Lemma frames__darkMode : frames _darkMode.
Proof. unfold _darkMode. frames_tac. Qed.

Lemma frames__updateMapStyle : frames _updateMapStyle.
Proof.
  unfold _updateMapStyle. frames_tac. apply frames__darkMode.
Qed.

Lemma frames_latLngs items : frames (latLngs items).
Proof.
  induction items as [|item rest IH]; cbn [latLngs]; frames_tac. exact IH.
Qed.

Lemma frames_getBounds l : frames (getBounds l).
Proof. unfold getBounds. frames_tac. Qed.

Lemma frames_extend_with l : frames (extend_with l).
Proof.
  unfold extend_with. frames_tac;
    first [ apply frames_call | apply frames_getBounds ].
Qed.

Lemma frames_pad held ratio : frames (pad held ratio).
Proof. unfold pad. frames_tac. apply frames_call. Qed.

Lemma frames_fitMap options : frames (fitMap options).
Proof.
  unfold fitMap. frames_tac;
    first [ apply frames_call | apply frames_latLngs
          | apply frames_extend_with | apply frames_pad ].
Qed.

Lemma frames__drawLayers prev : frames (_drawLayers prev).
Proof.
  unfold _drawLayers. frames_tac;
    first [ apply frames_layer_remove | apply frames_map_addLayer ].
Qed.

Lemma frames_connectedCallback : frames connectedCallback.
Proof.
  unfold connectedCallback, _loadMap_start, _attachObserver. frames_tac.
Qed.

Lemma frames_disconnectedCallback : frames disconnectedCallback.
Proof. unfold disconnectedCallback. frames_tac; apply frames_call. Qed.

Lemma frames__loadMap_resume settled : frames (_loadMap_resume settled).
Proof.
  unfold _loadMap_resume. frames_tac; apply frames__updateMapStyle.
Qed.

Lemma stamped_scene s s' : scene s' = scene s -> stamped s -> stamped s'.
Proof.
  unfold scene, stamped. intros E. injection E as -> -> -> -> ->.
  intros Hst. exact Hst.
Qed.

Lemma frames_keeps_stamped {A} (c : M A) : frames c -> keeps stamped c.
Proof. intros Hc s Hs. exact (stamped_scene s _ (Hc s) Hs). Qed.

Lemma keeps_bind {A B} (P : HaMap -> Prop) (c : M A) (k : A -> M B) :
  keeps P c -> (forall a, keeps P (k a)) -> keeps P (bind c k).
Proof.
  intros Hc Hk s Hs. unfold bind. specialize (Hc s Hs).
  destruct (c s) as [a s'|s']; cbn [final] in *; [|exact Hc].
  exact (Hk a s' Hc).
Qed.

Lemma keeps_ret {A} (P : HaMap -> Prop) (a : A) : keeps P (ret a).
Proof. intros s Hs. exact Hs. Qed.

Lemma keeps_get_bind {B} (P : HaMap -> Prop) (k : HaMap -> M B) :
  (forall s, keeps P (k s)) -> keeps P (bind get k).
Proof. intros Hk s Hs. exact (Hk s s Hs). Qed.

(** ** Re-rendering *)

Lemma attached_redrawn I F Z s :
  is_Some (leafletMap s) ->
  attached (redrawn I F Z s)
  = ids (I ++ Z) ∪ (attached s ∖ ids (_mapItems s ++ _mapZones s)).
Proof.
  intros [m Hm].
  unfold attached, redrawn, attach, grow, detach, cleared_entities. cbn.
  rewrite Hm. cbn. reflexivity.
Qed.

Lemma _mapFocusItems_redrawn I F Z s :
  _mapFocusItems (redrawn I F Z s)
  = (if nonempty (_mapItems s) then [] else _mapFocusItems s) ++ F.
Proof. frame. Qed.

Lemma is_Some_map_redrawn I F Z s :
  is_Some (leafletMap s) -> is_Some (leafletMap (redrawn I F Z s)).
Proof.
  intros [m Hm]. unfold redrawn, attach, grow, detach, cleared_entities.
  cbn. rewrite Hm. cbn. eauto.
Qed.

Lemma final_outcome thrown s : final (outcome thrown s) = s.
Proof. destruct thrown; reflexivity. Qed.

Lemma throws_outcome thrown s : throws (outcome thrown s) = thrown.
Proof. destruct thrown; reflexivity. Qed.

Lemma outcome_inj thrown s s' :
  outcome thrown s = outcome thrown s' -> s = s'.
Proof. destruct thrown; intros [= ->]; reflexivity. Qed.

Lemma attached_rendered thrown I F Z s :
  is_Some (leafletMap s) ->
  attached (rendered thrown I F Z s)
  = (if thrown then ∅ else ids (I ++ Z))
    ∪ (attached s ∖ ids (_mapItems s ++ _mapZones s)).
Proof.
  intros Hm. destruct thrown; cbn [rendered];
    [|apply attached_redrawn; exact Hm].
  destruct Hm as [m Hm].
  unfold attached, cut_short, grow, detach, cleared_entities. cbn.
  rewrite Hm. cbn. set_solver.
Qed.

Lemma _mapFocusItems_rendered thrown I F Z s :
  _mapFocusItems (rendered thrown I F Z s)
  = (if nonempty (_mapItems s) then [] else _mapFocusItems s) ++ F.
Proof. destruct thrown; frame. Qed.

Lemma is_Some_map_rendered thrown I F Z s :
  is_Some (leafletMap s) -> is_Some (leafletMap (rendered thrown I F Z s)).
Proof.
  intros Hm. destruct thrown; cbn [rendered];
    [|apply is_Some_map_redrawn; exact Hm].
  destruct Hm as [m Hm]. unfold cut_short, grow, detach, cleared_entities.
  cbn. rewrite Hm. cbn. eauto.
Qed.

Section RenderClaims.

Context `{Collaborators}.

(** One render of the entities, from a component with consistent
    identities. *)
Lemma entities_render_facts s h :
  hass s = Some h -> is_Some (leafletMap s) -> is_Some (Leaflet s) ->
  stamped s ->
  exists s1,
    _drawEntities s = outcome (aborts h (default [] (entities s))) s1
    /\ (forall l, l ∈ _mapItems s ++ _mapZones s ->
          _leaflet_id l ∉ attached s1)
    /\ (forall l, l ∈ _mapItems s1 ++ _mapZones s1 ->
          lastId s < _leaflet_id l <= lastId s1)
    /\ attached s1
       = (if aborts h (default [] (entities s)) then ∅
          else ids (_mapItems s1 ++ _mapZones s1))
         ∪ (attached s ∖ ids (_mapItems s ++ _mapZones s))
    /\ (forall l, l ∈ _mapFocusItems s1 -> l ∈ _mapItems s1)
    /\ hass s1 = Some h /\ is_Some (leafletMap s1) /\ is_Some (Leaflet s1)
    /\ stamped s1
    /\ entities s1 = entities s /\ renderPassive s1 = renderPassive s
    /\ interactiveZones s1 = interactiveZones s
    /\ themeMode s1 = themeMode s
    /\ _mapPaths s1 = _mapPaths s.
Proof.
  intros Hh Hm HL [Hids Hfoc].
  destruct (_drawEntities_spec s h Hh Hm HL) as (I & F & Z & E & Hf & Hs & _).
  set (thrown := aborts h (default [] (entities s))) in *.
  exists (rendered thrown I F Z s).
  assert (_mapItems (rendered thrown I F Z s) = I) as EI
    by (destruct thrown; frame).
  assert (_mapZones (rendered thrown I F Z s) = Z) as EZ
    by (destruct thrown; frame).
  assert (lastId (rendered thrown I F Z s) = lastId s + length I + length Z)
    as EL by (destruct thrown; frame).
  assert (_mapFocusItems (rendered thrown I F Z s) = F) as EF.
  { rewrite _mapFocusItems_rendered.
    destruct (_mapItems s) eqn:Ei; [rewrite Hfoc by reflexivity|]; reflexivity. }
  rewrite EI, EZ, EF, EL.
  split_and!; try assumption.
  - intros l Hl. rewrite attached_rendered by exact Hm.
    assert (_leaflet_id l <= lastId s) as Hle by (apply Hids; set_solver).
    intros [Hin | Hin]%elem_of_union.
    + destruct thrown; [set_solver|].
      apply elem_of_ids in Hin as (l' & Hl' & Heq).
      apply Hf in Hl'. lia.
    + apply elem_of_difference in Hin as [_ Hnot]. apply Hnot.
      apply elem_of_ids. exists l. split; [exact Hl | reflexivity].
  - apply attached_rendered. exact Hm.
  - rewrite <- Hh. destruct thrown; frame.
  - apply is_Some_map_rendered. exact Hm.
  - destruct HL as [L0 HL]. exists L0. rewrite <- HL. destruct thrown; frame.
  - split.
    + rewrite EI, EZ, EL.
      replace (_mapPaths (rendered thrown I F Z s)) with (_mapPaths s)
        by (symmetry; destruct thrown; frame).
      intros l Hl. rewrite app_assoc in Hl.
      apply elem_of_app in Hl as [Hl | Hl].
      * apply Hf in Hl. lia.
      * assert (_leaflet_id l <= lastId s) by (apply Hids; set_solver). lia.
    + rewrite EI, EF. intros ->. destruct F as [|x F']; [reflexivity|].
      specialize (Hs x ltac:(set_solver)). inversion Hs.
  - destruct thrown; frame.
  - destruct thrown; frame.
  - destruct thrown; frame.
  - destruct thrown; frame.
  - destruct thrown; frame.
Qed.

(** One render of the paths. *)
Lemma paths_render_facts s h :
  hass s = Some h -> is_Some (leafletMap s) -> is_Some (Leaflet s) ->
  stamped s ->
  exists p1,
    _drawPaths s = Normal tt p1
    /\ (forall l, l ∈ _mapPaths s -> _leaflet_id l ∉ attached p1)
    /\ (forall l, l ∈ _mapPaths p1 -> lastId s < _leaflet_id l <= lastId p1)
    /\ attached p1 = ids (_mapPaths p1) ∪ (attached s ∖ ids (_mapPaths s))
    /\ shape <$> _mapPaths p1
       = match paths s with
         | Some ps =>
             flat_map (expected_path_shapes h
                         (getPropertyValue "--dark-primary-color")) ps
         | None => []
         end
    /\ hass p1 = Some h /\ is_Some (leafletMap p1) /\ is_Some (Leaflet p1)
    /\ stamped p1 /\ paths p1 = paths s.
Proof.
  intros Hh Hm HL [Hids Hfoc].
  eexists. split; [apply (_drawPaths_spec h s Hh Hm HL)|]. cbv zeta.
  set (cleared := pre_paths s).
  set (L := match paths s with
            | Some ps =>
                stamp (lastId s)
                  (flat_map (expected_path_shapes h
                     (getPropertyValue "--dark-primary-color")) ps)
            | None => []
            end).
  assert (match paths s with
          | Some ps =>
              attach
                (ids (stamp (lastId s)
                        (flat_map (expected_path_shapes h
                           (getPropertyValue "--dark-primary-color")) ps)))
                (add_paths
                   (stamp (lastId s)
                      (flat_map (expected_path_shapes h
                         (getPropertyValue "--dark-primary-color")) ps))
                   cleared)
          | None => cleared
          end = attach (ids L) (add_paths L cleared)) as ->.
  { unfold L. destruct (paths s); [reflexivity|].
    rewrite add_paths_nil, ids_nil, attach_empty. reflexivity. }
  assert (_mapPaths (attach (ids L) (add_paths L cleared)) = L) as EP
    by (unfold cleared; frame).
  assert (lastId (attach (ids L) (add_paths L cleared)) = lastId s + length L)
    as EL by (unfold cleared; frame).
  assert (forall l, l ∈ L -> lastId s < _leaflet_id l <= lastId s + length L)
    as Hfresh.
  { unfold L. destruct (paths s) as [ps|]; [|intros x Hx; inversion Hx].
    intros x Hx. apply stamp_fresh in Hx. rewrite length_stamp. exact Hx. }
  assert (attached (attach (ids L) (add_paths L cleared))
          = ids L ∪ (attached s ∖ ids (_mapPaths s))) as EA.
  { destruct Hm as [m Hm].
    unfold cleared, pre_paths, attached, attach, add_paths, detach. cbn.
    rewrite Hm. cbn. reflexivity. }
  rewrite EP, EL, EA.
  split_and!.
  - intros l Hl.
    assert (_leaflet_id l <= lastId s) as Hle by (apply Hids; set_solver).
    intros [Hin | Hin]%elem_of_union.
    + apply elem_of_ids in Hin as (l' & Hl' & Heq).
      apply Hfresh in Hl'. lia.
    + apply elem_of_difference in Hin as [_ Hnot]. apply Hnot.
      apply elem_of_ids. exists l. split; [exact Hl | reflexivity].
  - exact Hfresh.
  - reflexivity.
  - unfold L. destruct (paths s); [apply shape_stamp | reflexivity].
  - rewrite <- Hh. unfold cleared. frame.
  - destruct Hm as [m Hm].
    unfold cleared, pre_paths, attach, add_paths, detach. cbn.
    rewrite Hm. cbn. eauto.
  - destruct HL as [L0 HL]. exists L0. rewrite <- HL. unfold cleared. frame.
  - split.
    + rewrite EP, EL.
      replace (_mapItems (attach (ids L) (add_paths L cleared)))
        with (_mapItems s) by (symmetry; unfold cleared; frame).
      replace (_mapZones (attach (ids L) (add_paths L cleared)))
        with (_mapZones s) by (symmetry; unfold cleared; frame).
      intros l Hl. rewrite app_assoc in Hl.
      apply elem_of_app in Hl as [Hl | Hl].
      * assert (_leaflet_id l <= lastId s) by (apply Hids; set_solver). lia.
      * apply Hfresh in Hl. lia.
    + replace (_mapItems (attach (ids L) (add_paths L cleared)))
        with (_mapItems s) by (symmetry; unfold cleared; frame).
      replace (_mapFocusItems (attach (ids L) (add_paths L cleared)))
        with (_mapFocusItems s) by (symmetry; unfold cleared; frame).
      exact Hfoc.
  - unfold cleared. frame.
Qed.

(** C1. On a ready component whose drawn objects carry identities handed
    out so far, a render of the entities takes every object of the
    previous item and zone collections off the map, and leaves collections
    that hold new objects only; what else was on the map stays. The render
    completes, and then the new objects are all attached, unless a listed
    identifier names a member inherited from [Object.prototype]: there the
    loop throws, and the objects created before are attached to nothing.
    A second render with the same entity list and snapshot
    does the same to the objects of the first, and draws the same shapes:
    the item, focus and zone collections have the same sizes after the
    second render as after the first. The same holds for the path
    collection under [_drawPaths]. In both renderers the loop that creates
    objects starts from the component with the old objects detached and
    the collections empty. *)
Theorem rerender_replaces_drawn_objects s h :
  hass s = Some h -> is_Some (leafletMap s) -> is_Some (Leaflet s) ->
  stamped s ->
  (exists s1 s2,
     _drawEntities s = outcome (aborts h (default [] (entities s))) s1
     /\ _drawEntities s1 = outcome (aborts h (default [] (entities s))) s2
     /\ (forall l, l ∈ _mapItems s ++ _mapZones s ->
           _leaflet_id l ∉ attached s1)
     /\ (forall l, l ∈ _mapItems s1 ++ _mapZones s1 ->
           lastId s < _leaflet_id l)
     /\ attached s1
        = (if aborts h (default [] (entities s)) then ∅
           else ids (_mapItems s1 ++ _mapZones s1))
          ∪ (attached s ∖ ids (_mapItems s ++ _mapZones s))
     /\ (forall l, l ∈ _mapItems s1 ++ _mapZones s1 ->
           _leaflet_id l ∉ attached s2)
     /\ attached s2
        = (if aborts h (default [] (entities s)) then ∅
           else ids (_mapItems s2 ++ _mapZones s2))
          ∪ (attached s1 ∖ ids (_mapItems s1 ++ _mapZones s1))
     /\ shape <$> _mapItems s2 = shape <$> _mapItems s1
     /\ shape <$> _mapFocusItems s2 = shape <$> _mapFocusItems s1
     /\ shape <$> _mapZones s2 = shape <$> _mapZones s1
     /\ length (_mapItems s2) = length (_mapItems s1)
     /\ length (_mapFocusItems s2) = length (_mapFocusItems s1)
     /\ length (_mapZones s2) = length (_mapZones s1))
  /\ (exists p1 p2,
        _drawPaths s = Normal tt p1
        /\ _drawPaths p1 = Normal tt p2
        /\ (forall l, l ∈ _mapPaths s -> _leaflet_id l ∉ attached p1)
        /\ (forall l, l ∈ _mapPaths p1 -> lastId s < _leaflet_id l)
        /\ attached p1 = ids (_mapPaths p1) ∪ (attached s ∖ ids (_mapPaths s))
        /\ (forall l, l ∈ _mapPaths p1 -> _leaflet_id l ∉ attached p2)
        /\ attached p2
           = ids (_mapPaths p2) ∪ (attached p1 ∖ ids (_mapPaths p1))
        /\ shape <$> _mapPaths p2 = shape <$> _mapPaths p1
        /\ length (_mapPaths p2) = length (_mapPaths p1))
  /\ (_drawEntities s =
      match entities s with
      | None => Normal tt (pre_entities s)
      | Some ents =>
          (forEach (drawEntity h (className_of h s)
                      (getPropertyValue "--accent-color")
                      (getPropertyValue "--secondary-text-color")
                      (getPropertyValue "--dark-primary-color")) ents >>
           let* s1 := get in
           forEach map_addLayer (_mapItems s1) >>
           forEach map_addLayer (_mapZones s1)) (pre_entities s)
      end
      /\ _mapItems (pre_entities s) = []
      /\ _mapFocusItems (pre_entities s) = []
      /\ _mapZones (pre_entities s) = []
      /\ attached (pre_entities s)
         = attached s ∖ ids (_mapItems s ++ _mapZones s))
  /\ (_drawPaths s =
      match paths s with
      | None => Normal tt (pre_paths s)
      | Some ps =>
          forEach (drawPath h (getPropertyValue "--dark-primary-color")) ps
            (pre_paths s)
      end
      /\ _mapPaths (pre_paths s) = []
      /\ attached (pre_paths s) = attached s ∖ ids (_mapPaths s)).
Proof.
  intros Hh Hm HL Hst. split_and!.
  - destruct (entities_render_facts s h Hh Hm HL Hst)
      as (s1 & E1 & Hold1 & Hnew1 & Hatt1 & Hfoc1 & Hh1 & Hm1 & HL1 & Hst1
          & He1 & Hrp1 & Hiz1 & Htm1 & _).
    destruct (entities_render_facts s1 h Hh1 Hm1 HL1 Hst1)
      as (s2 & E2 & Hold2 & Hnew2 & Hatt2 & _).
    destruct (_drawEntities_shapes s s1 h Hh Hm HL Hh1 Hm1 HL1
                (eq_sym He1) (eq_sym Hrp1) (eq_sym Hiz1) (eq_sym Htm1))
      as (I & F & Z & I' & F' & Z' & R1 & R2 & HI & HF & HZ).
    rewrite He1 in E2, Hatt2.
    set (thrown := aborts h (default [] (entities s))) in *.
    rewrite E1 in R1. rewrite E2 in R2.
    apply outcome_inj in R1. apply outcome_inj in R2.
    assert (_mapItems s1 = I) as EI by (rewrite R1; destruct thrown; frame).
    assert (_mapZones s1 = Z) as EZ by (rewrite R1; destruct thrown; frame).
    assert (_mapItems s2 = I') as EI'
      by (rewrite R2; destruct thrown; frame).
    assert (_mapZones s2 = Z') as EZ'
      by (rewrite R2; destruct thrown; frame).
    assert (_mapFocusItems s1 = F) as EF.
    { rewrite R1, _mapFocusItems_rendered. destruct Hst as [_ Hfoc].
      destruct (_mapItems s) eqn:Ei; [rewrite Hfoc by reflexivity|];
        reflexivity. }
    assert (_mapFocusItems s2 = F') as EF'.
    { rewrite R2, _mapFocusItems_rendered. destruct Hst1 as [_ Hfoc].
      destruct (_mapItems s1) eqn:Ei; [rewrite Hfoc by reflexivity|];
        reflexivity. }
    exists s1, s2.
    split_and!; try assumption.
    + intros l Hl. apply Hnew1 in Hl. lia.
    + rewrite EI, EI'. symmetry. exact HI.
    + rewrite EF, EF'. symmetry. exact HF.
    + rewrite EZ, EZ'. symmetry. exact HZ.
    + rewrite EI, EI', <- (length_fmap shape I'), <- HI. apply length_fmap.
    + rewrite EF, EF', <- (length_fmap shape F'), <- HF. apply length_fmap.
    + rewrite EZ, EZ', <- (length_fmap shape Z'), <- HZ. apply length_fmap.
  - destruct (paths_render_facts s h Hh Hm HL Hst)
      as (p1 & E1 & Hold1 & Hnew1 & Hatt1 & Hsh1 & Hh1 & Hm1 & HL1 & Hst1
          & Hp1).
    destruct (paths_render_facts p1 h Hh1 Hm1 HL1 Hst1)
      as (p2 & E2 & Hold2 & Hnew2 & Hatt2 & Hsh2 & _).
    exists p1, p2.
    assert (shape <$> _mapPaths p2 = shape <$> _mapPaths p1) as Hsame.
    { rewrite Hsh2, Hsh1, Hp1. reflexivity. }
    split_and!; try assumption.
    + intros l Hl. apply Hnew1 in Hl. lia.
    + rewrite <- (length_fmap shape (_mapPaths p2)), Hsame. apply length_fmap.
  - exact (_drawEntities_clear s h Hh Hm HL).
  - frame.
  - destruct Hst as [_ Hfoc].
    replace (_mapFocusItems (pre_entities s))
      with (if nonempty (_mapItems s) then [] else _mapFocusItems s) by frame.
    destruct (_mapItems s); [apply Hfoc|]; reflexivity.
  - frame.
  - destruct Hm as [m Hm].
    unfold attached, pre_entities, detach, cleared_entities. cbn.
    rewrite Hm. reflexivity.
  - exact (_drawPaths_clear h s Hh Hm HL).
  - frame.
  - destruct Hm as [m Hm]. unfold attached, pre_paths, detach. cbn.
    rewrite Hm. reflexivity.
Qed.

Lemma _drawEntities_unready s :
  hass s = None \/ leafletMap s = None \/ Leaflet s = None ->
  _drawEntities s = Normal tt s.
Proof.
  intros Hmiss. unfold _drawEntities.
  rewrite (bind_Normal get _ s s s) by reflexivity.
  destruct Hmiss as [Hn | [Hn | Hn]]; rewrite Hn;
    repeat case_match; reflexivity.
Qed.

Lemma _drawPaths_unready s :
  hass s = None \/ leafletMap s = None \/ Leaflet s = None ->
  _drawPaths s = Normal tt s.
Proof.
  intros Hmiss. unfold _drawPaths.
  rewrite (bind_Normal get _ s s s) by reflexivity.
  destruct Hmiss as [Hn | [Hn | Hn]]; rewrite Hn;
    repeat case_match; reflexivity.
Qed.

Lemma keeps_stamped__drawEntities : keeps stamped _drawEntities.
Proof.
  intros s Hs.
  destruct (hass s) as [h|] eqn:Hh;
    [|rewrite _drawEntities_unready by auto; exact Hs].
  destruct (leafletMap s) as [m|] eqn:Hm;
    [|rewrite _drawEntities_unready by auto; exact Hs].
  destruct (Leaflet s) as [L0|] eqn:HL;
    [|rewrite _drawEntities_unready by auto; exact Hs].
  destruct (entities_render_facts s h Hh) as (s1 & E & Hfacts);
    [rewrite Hm; eauto | rewrite HL; eauto | exact Hs |].
  rewrite E, final_outcome. apply Hfacts.
Qed.

Lemma keeps_stamped__drawPaths : keeps stamped _drawPaths.
Proof.
  intros s Hs.
  destruct (hass s) as [h|] eqn:Hh;
    [|rewrite _drawPaths_unready by auto; exact Hs].
  destruct (leafletMap s) as [m|] eqn:Hm;
    [|rewrite _drawPaths_unready by auto; exact Hs].
  destruct (Leaflet s) as [L0|] eqn:HL;
    [|rewrite _drawPaths_unready by auto; exact Hs].
  destruct (paths_render_facts s h Hh) as (p1 & E & Hfacts);
    [rewrite Hm; eauto | rewrite HL; eauto | exact Hs |].
  rewrite E. apply Hfacts.
Qed.

(** Decomposes a method down to renders and scene-preserving effects. *)
Ltac keeps_tac :=
  repeat
    match goal with
    | |- keeps _ (match ?x with _ => _ end) => destruct x
    | |- keeps _ (ret _) => apply keeps_ret
    | |- keeps _ (bind get _) => apply keeps_get_bind; intros ?
    | |- keeps _ (bind _ _) => apply keeps_bind; [|intros ?]
    | |- keeps stamped _drawEntities => apply keeps_stamped__drawEntities
    | |- keeps stamped _drawPaths => apply keeps_stamped__drawPaths
    | |- keeps stamped throw => apply frames_keeps_stamped, frames_throw
    | |- keeps stamped (call _) => apply frames_keeps_stamped, frames_call
    | |- keeps stamped (fitMap _) => apply frames_keeps_stamped, frames_fitMap
    | |- keeps stamped (_drawLayers _) =>
        apply frames_keeps_stamped, frames__drawLayers
    | |- keeps stamped _updateMapStyle =>
        apply frames_keeps_stamped, frames__updateMapStyle
    end.

Lemma keeps_stamped_redraw_if_changed old ents :
  keeps stamped (redraw_if_changed old ents).
Proof.
  induction ents as [|entity rest IH]; cbn [redraw_if_changed]; keeps_tac.
  exact IH.
Qed.

Lemma keeps_stamped_update changedProps : keeps stamped (update changedProps).
Proof.
  unfold update. keeps_tac. apply keeps_stamped_redraw_if_changed.
Qed.

(** Every component that can arise has consistent identities. *)
Lemma reachable_stamped s : reachable s -> stamped s.
Proof.
  induction 1 as [h ents ps ls | s s' _ IH Hsame | s _ IH | s _ IH
                 | s settled _ IH | s changedProps _ IH | s options _ IH].
  - split; [intros l Hl; inversion Hl | reflexivity].
  - apply (stamped_scene s); [apply Hsame | exact IH].
  - exact (frames_keeps_stamped _ frames_connectedCallback s IH).
  - exact (frames_keeps_stamped _ frames_disconnectedCallback s IH).
  - exact (frames_keeps_stamped _ (frames__loadMap_resume settled) s IH).
  - exact (keeps_stamped_update changedProps s IH).
  - exact (frames_keeps_stamped _ (frames_fitMap options) s IH).
Qed.

End RenderClaims.

(** * Further properties *)

(** ** Rules for what a computation leaves alone *)

Create HintDb preserves.

Lemma preserves_ret {A T} (v : HaMap -> T) (a : A) : preserves v (ret a).
Proof. intros s. reflexivity. Qed.

Lemma preserves_throw {A T} (v : HaMap -> T) : preserves v (@throw A).
Proof. intros s. reflexivity. Qed.

Lemma preserves_bind {A B T} (v : HaMap -> T) (c : M A) (k : A -> M B) :
  preserves v c -> (forall a, preserves v (k a)) -> preserves v (bind c k).
Proof.
  intros Hc Hk s. unfold bind. specialize (Hc s).
  destruct (c s) as [a s'|s']; cbn [final] in *; [|exact Hc].
  rewrite (Hk a s'). exact Hc.
Qed.

Lemma preserves_get_bind {B T} (v : HaMap -> T) (k : HaMap -> M B) :
  (forall s, preserves v (k s)) -> preserves v (bind get k).
Proof. intros Hk s. exact (Hk s s). Qed.

Lemma preserves_modify {T} (v : HaMap -> T) (f : HaMap -> HaMap) :
  (forall s, v (f s) = v s) -> preserves v (modify f).
Proof. intros Hf s. exact (Hf s). Qed.

Lemma preserves_forEach {A T} (v : HaMap -> T) (f : A -> M unit) l :
  (forall x, preserves v (f x)) -> preserves v (forEach f l).
Proof.
  intros Hf. induction l as [|x l IH]; cbn [forEach].
  - apply preserves_ret.
  - apply preserves_bind; [apply Hf | intros _; exact IH].
Qed.

Lemma preserves_try_finally {A T} (v : HaMap -> T) (c : M A) (f : M unit) :
  preserves v c -> preserves v f -> preserves v (try_finally c f).
Proof.
  intros Hc Hf s. unfold try_finally. specialize (Hc s).
  destruct (c s) as [a s'|s']; cbn [final] in *.
  - specialize (Hf s'). destruct (f s'); cbn [final] in *; congruence.
  - rewrite (Hf s'). exact Hc.
Qed.

Lemma preserves_latLngs {T} (v : HaMap -> T) items :
  preserves v (latLngs items).
Proof.
  induction items as [|item rest IH]; cbn [latLngs].
  - apply preserves_ret.
  - destruct (getLatLng item); [|apply preserves_throw].
    apply preserves_bind; [exact IH | intros ps; apply preserves_ret].
Qed.

(** Decomposes a method down to its assignments; renders and loops over
    entities come from the hint base. *)
Ltac preserves_tac :=
  repeat
    match goal with
    | |- preserves _ (match ?x with _ => _ end) => destruct x
    | |- preserves _ (ret _) => apply preserves_ret
    | |- preserves _ throw => apply preserves_throw
    | |- preserves _ (latLngs _) => apply preserves_latLngs
    | |- preserves _ (bind get _) => apply preserves_get_bind; intros ?
    | |- preserves _ (bind _ _) => apply preserves_bind; [|intros ?]
    | |- preserves _ (forEach _ _) => apply preserves_forEach; intros ?
    | |- preserves _ (try_finally _ _) => apply preserves_try_finally
    | |- preserves ?v (modify _) =>
        apply preserves_modify; intros ?;
        solve [ reflexivity
              | cbn; repeat case_match; reflexivity
              | unfold v; cbn; repeat case_match; reflexivity ]
    | |- preserves _ (call _) => unfold call
    | |- preserves _ (layer_remove _) =>
        first [ solve [ auto with preserves ] | unfold layer_remove ]
    | |- preserves _ (map_addLayer _) =>
        first [ solve [ auto with preserves ] | unfold map_addLayer ]
    | |- preserves _ (extend_with _) => unfold extend_with
    | |- preserves _ (getBounds _) => unfold getBounds
    | |- preserves _ (pad _ _) => unfold pad
    | |- preserves _ _darkMode => unfold _darkMode
    | |- preserves _ _updateMapStyle =>
        first [ solve [ auto with preserves ] | unfold _updateMapStyle ]
    | |- preserves _ (fitMap _) => unfold fitMap
    | |- preserves _ (fitBounds _ _) => unfold fitBounds
    | |- preserves _ (_drawLayers _) => unfold _drawLayers
    | |- preserves _ _ => solve [ auto with preserves ]
    end.

Lemma preserves_handles_map_addLayer l : preserves handles (map_addLayer l).
Proof.
  intros s. unfold map_addLayer, handles. run_m.
  destruct (leafletMap s) eqn:Em; cbn; rewrite ?Em; reflexivity.
Qed.

Lemma preserves_handles_layer_remove l : preserves handles (layer_remove l).
Proof.
  intros s. unfold layer_remove, handles. run_m.
  destruct (leafletMap s) eqn:Em; cbn; rewrite ?Em; reflexivity.
Qed.

Lemma preserves_handles__updateMapStyle : preserves handles _updateMapStyle.
Proof.
  intros s. unfold _updateMapStyle, _darkMode, handles. run_m.
  destruct (mapEl s) eqn:Em; [destruct (themeMode s); [destruct (hass s)|..]|];
    cbn; rewrite ?Em; reflexivity.
Qed.

#[global] Hint Resolve preserves_handles_map_addLayer
  preserves_handles_layer_remove preserves_handles__updateMapStyle : preserves.

(** The fields of a rendered component, given its map. *)
Ltac frame_map Hm :=
  unfold handles, rendered, redrawn, cut_short, pre_entities, pre_paths,
    cleared_entities, grow, add_paths, attach, detach;
  cbn; rewrite ?Hm; cbn; rewrite ?Hm; reflexivity.

(** ** The lifecycle *)

Lemma connectedCallback_run s :
  connectedCallback s =
  Normal (negb (_loading s))
    (set__resizeObserver (Some true)
       (if _loading s then s
        else set__loading true
               (match mapEl s with
                | Some _ => s
                | None =>
                    set_mapEl
                      (Some {| cls_dark := false; cls_forced_dark := false;
                               cls_forced_light := false |}) s
                end))).
Proof.
  unfold connectedCallback, _loadMap_start, _attachObserver. run_m.
  destruct (_loading s); cbn; [reflexivity|].
  destruct (mapEl s); reflexivity.
Qed.

(** X1. Whatever the sequence of attach, detach and completion events, at
    most one acquisition is in flight: their number is 1 while [_loading]
    is set and 0 otherwise, so attaching again before the first
    acquisition completes starts no second one. *)
Theorem one_acquisition_in_flight evs p :
  single_flight p -> single_flight (run evs p) /\ inflight (run evs p) <= 1.
Proof.
  assert (forall q, single_flight q -> inflight q <= 1) as Hle.
  { intros q Hq. unfold single_flight in Hq. destruct (_loading (el q)); lia. }
  assert (forall ev q, single_flight q -> single_flight (step ev q)) as Hstep.
  { intros ev q Hq. unfold single_flight in *. destruct ev as [| |m]; cbn.
    - rewrite connectedCallback_run. cbn.
      destruct (_loading (el q)) eqn:El; cbn; [rewrite El|]; lia.
    - unfold disconnectedCallback. run_m.
      destruct (leafletMap (el q)); destruct (_resizeObserver (el q)); cbn;
        exact Hq.
    - destruct (inflight q) as [|k] eqn:Ei; [rewrite Ei; exact Hq|].
      cbn [el inflight].
      assert (k = 0) as -> by (destruct (_loading (el q)); lia).
      unfold _loadMap_resume, try_finally.
      match goal with
      | |- context [match ?c with Normal _ _ => _ | Throw _ => _ end] =>
          destruct c
      end; reflexivity. }
  intros Hp. assert (single_flight (run evs p)) as Hrun.
  { revert p Hp. induction evs as [|ev evs IH]; intros p Hp; [exact Hp|].
    cbn. apply IH, Hstep, Hp. }
  split; [exact Hrun | exact (Hle _ Hrun)].
Qed.

(** X2. The resize observer follows the connection: on a page where there
    is no observer while the element was never attached, or the observer
    observes the element exactly while it is connected, this is still so
    after any sequence of attach, detach and completion events. It holds
    on a new page. *)
Theorem observer_follows_connection evs p :
  observer_follows p -> observer_follows (run evs p).
Proof.
  revert p. induction evs as [|ev evs IH]; intros p Hp; [exact Hp|].
  cbn. apply IH. clear IH. unfold observer_follows in *.
  destruct ev as [| |m]; cbn.
  - rewrite connectedCallback_run. right. reflexivity.
  - unfold disconnectedCallback. run_m.
    destruct Hp as [[Ho _] | Ho]; rewrite Ho;
      destruct (leafletMap (el p)); cbn; auto.
  - destruct (inflight p); [exact Hp|]. cbn [el isConnected].
    assert (preserves _resizeObserver
              (_loadMap_resume (Some (m, LeafletModule)))) as Hr
      by (unfold _loadMap_resume; preserves_tac).
    rewrite (Hr (el p)). exact Hp.
Qed.

(** X3. When the awaited acquisition settles, [_loading] is reset whatever
    happens (the [finally]), so the next attach can try again. A rejection
    changes nothing else. A resolution always commits the map and the
    library; it makes the component loaded exactly when the style can be
    computed, that is when the [#map] element exists and, under the [auto]
    theme, [hass] is set: otherwise [_updateMapStyle] throws and the
    component holds a map without ever being loaded. *)
Theorem acquisition_settles s :
  (throws (_loadMap_resume None s) = true
   /\ final (_loadMap_resume None s) = set__loading false s)
  /\ (forall m L,
        let r := _loadMap_resume (Some (m, L)) s in
        _loading (final r) = false
        /\ leafletMap (final r) = Some m
        /\ Leaflet (final r) = Some L
        /\ scene (final r) = scene s
        /\ (throws r = false <->
            is_Some (mapEl s) /\ (themeMode s <> Auto \/ is_Some (hass s)))
        /\ _loaded (final r) = if throws r then _loaded s else true).
Proof.
  split; [split; reflexivity|].
  intros m L. unfold _loadMap_resume, try_finally, _updateMapStyle, _darkMode.
  run_m.
  destruct (mapEl s) as [c|] eqn:Em; cbn.
  - destruct (themeMode s) eqn:Et; cbn.
    + destruct (hass s) as [h|] eqn:Eh; cbn; split_and!; try reflexivity.
      * split; [intros _; split; eauto | reflexivity].
      * split; [discriminate|].
        intros [_ [Hne | [h Hh]]]; [congruence | discriminate].
    + split_and!; try reflexivity.
      split; [intros _; split; eauto; left; discriminate | reflexivity].
    + split_and!; try reflexivity.
      split; [intros _; split; eauto; left; discriminate | reflexivity].
  - split_and!; try reflexivity.
    split; [discriminate|]. intros [[c Hc] _]. discriminate.
Qed.

(** ** The viewport and the overlay layers *)

Lemma traced_nil s : traced [] s = s.
Proof. unfold traced. state_eq. apply app_nil_r. Qed.

Lemma traced_traced a b s : traced b (traced a s) = traced (a ++ b) s.
Proof. unfold traced. state_eq. cbn. symmetry. apply app_assoc. Qed.

Lemma call_run c s : call c s = Normal tt (traced [c] s).
Proof. reflexivity. Qed.

Lemma latLngs_positions items s :
  latLngs items s =
  match positions items with
  | Some pts => Normal pts s
  | None => Throw s
  end.
Proof.
  induction items as [|item rest IH]; cbn [latLngs positions]; [reflexivity|].
  destruct (getLatLng item); [|reflexivity].
  unfold bind. rewrite IH. destruct (positions rest); reflexivity.
Qed.

Lemma extents_app s a b :
  extents s (a ++ b) =
  match extents s a, extents s b with
  | Some ea, Some eb => Some (ea ++ eb)
  | _, _ => None
  end.
Proof.
  induction a as [|l a IH]; cbn [app extents].
  - destruct (extents s b); reflexivity.
  - rewrite IH. destruct (extent_of s l); [|reflexivity].
    destruct (extents s a); [|reflexivity]. destruct (extents s b); reflexivity.
Qed.

(** Calls leave the layers where they are. *)
Lemma extents_traced added s ls : extents (traced added s) ls = extents s ls.
Proof. induction ls as [|l ls IH]; [reflexivity|]. cbn. rewrite IH. reflexivity. Qed.

Lemma extend_with_run l s :
  extend_with l s =
  match extent_of s l with
  | Some e => Normal tt (traced [call_extend e] s)
  | None => Throw s
  end.
Proof.
  unfold extend_with, extent_of, getBounds.
  destruct (has_getBounds l).
  - destruct (shape l); try reflexivity.
    unfold bind, get. destruct (on_map l s); reflexivity.
  - destruct (getLatLng l); reflexivity.
Qed.

(** Extending over layers that all have an extent makes one call each. *)
Lemma forEach_extend_with ls : forall s es,
  extents s ls = Some es ->
  forEach extend_with ls s = Normal tt (traced (call_extend <$> es) s).
Proof.
  induction ls as [|l ls IH]; intros s es Hes; cbn [forEach extents] in *.
  - injection Hes as <-. cbn. rewrite traced_nil. reflexivity.
  - destruct (extent_of s l) as [e|] eqn:El; [|discriminate].
    destruct (extents s ls) as [es'|] eqn:Els; [|discriminate].
    injection Hes as <-.
    unfold bind. rewrite extend_with_run, El.
    rewrite (IH _ es') by (rewrite extents_traced; exact Els).
    rewrite traced_traced. reflexivity.
Qed.

(** At the first layer without extent the loop throws. *)
Lemma forEach_extend_with_throws ls : forall s,
  extents s ls = None ->
  exists added,
    forEach extend_with ls s = Throw (traced added s)
    /\ forallb is_region_call added = true.
Proof.
  induction ls as [|l ls IH]; intros s Hes; cbn [forEach extents] in *;
    [discriminate|].
  unfold bind. rewrite extend_with_run.
  destruct (extent_of s l) as [e|] eqn:El.
  - destruct (extents s ls) as [es'|] eqn:Els; [discriminate|].
    destruct (IH (traced [call_extend e] s)) as (added & E & Ha);
      [rewrite extents_traced; exact Els|].
    exists (call_extend e :: added). rewrite E, traced_traced.
    split; [reflexivity | exact Ha].
  - exists []. rewrite traced_nil. split; reflexivity.
Qed.

Lemma forallb_region_extend es :
  forallb is_region_call (call_extend <$> es) = true.
Proof. induction es as [|e es IH]; [reflexivity | exact IH]. Qed.

Lemma nonempty_positions items pts :
  positions items = Some pts -> nonempty pts = nonempty items.
Proof.
  destruct items as [|item rest]; cbn [positions].
  - intros [= <-]. reflexivity.
  - destruct (getLatLng item); [|discriminate].
    destruct (positions rest); [|discriminate]. intros [= <-]. reflexivity.
Qed.

(** What the bounding branch of [fitMap] extends over: the zones when
    [fitZones] is set, then the overlay layers. *)
Lemma fitMap_bounding s options h :
  is_Some (leafletMap s) -> is_Some (Leaflet s) -> hass s = Some h ->
  nonempty (_mapFocusItems s) || nonempty (default [] (layers s)) = true ->
  fitMap options s =
  (let* pts := latLngs (_mapFocusItems s) in
   call (call_latLngBounds pts) >>
   forEach extend_with (if fitZones s then _mapZones s else []) >>
   forEach extend_with (default [] (layers s)) >>
   pad (nonempty pts || existsb widens (fitted s)) (pad_or options) >>
   call (call_fitBounds (zoom_or options s))) s.
Proof.
  intros [m Hm] [L HL] Hh Hne. unfold fitMap.
  rewrite (bind_Normal get _ s s s) by reflexivity. rewrite Hm, HL, Hh.
  assert (negb (nonempty (_mapFocusItems s))
          && negb (match layers s with
                   | Some ls => nonempty ls
                   | None => false
                   end) = false) as ->.
  { destruct (layers s); cbn in Hne |- *;
      destruct (nonempty (_mapFocusItems s)); cbn in Hne |- *;
      try reflexivity; try discriminate; rewrite Hne; reflexivity. }
  unfold fitted. destruct (fitZones s); destruct (layers s); reflexivity.
Qed.

(** The ways the bounding branch of [fitMap] can go. *)
Lemma fitMap_bounding_cases s options h :
  is_Some (leafletMap s) -> is_Some (Leaflet s) -> hass s = Some h ->
  nonempty (_mapFocusItems s) || nonempty (default [] (layers s)) = true ->
  match positions (_mapFocusItems s), extents s (fitted s) with
  | Some pts, Some es =>
      fitMap options s =
      if region_held s then
        Normal tt
          (traced
             (call_latLngBounds pts
              :: (call_extend <$> es)
              ++ [call_pad (pad_or options);
                  call_fitBounds (zoom_or options s)])
             s)
      else Throw (traced (call_latLngBounds pts :: (call_extend <$> es)) s)
  | _, _ =>
      exists added,
        fitMap options s = Throw (traced added s)
        /\ forallb is_region_call added = true
  end.
Proof.
  intros Hm HL Hh Hne.
  pose proof (fitMap_bounding s options h Hm HL Hh Hne) as Hrun.
  unfold bind at 1 in Hrun. rewrite latLngs_positions in Hrun.
  destruct (positions (_mapFocusItems s)) as [pts|] eqn:Hpts.
  2:{ exists []. rewrite traced_nil. split; [exact Hrun | reflexivity]. }
  rewrite (nonempty_positions _ _ Hpts) in Hrun.
  fold (region_held s) in Hrun.
  unfold fitted. rewrite extents_app.
  unfold bind at 1 in Hrun. rewrite call_run in Hrun.
  unfold bind at 1 in Hrun.
  destruct (extents s (if fitZones s then _mapZones s else [])) as [ez|] eqn:Ez.
  - rewrite (forEach_extend_with _ _ ez) in Hrun
      by (rewrite extents_traced; exact Ez).
    unfold bind at 1 in Hrun.
    destruct (extents s (default [] (layers s))) as [el|] eqn:El.
    + rewrite (forEach_extend_with _ _ el) in Hrun
        by (rewrite !extents_traced; exact El).
      unfold bind at 1 in Hrun. unfold pad in Hrun.
      destruct (region_held s).
      * rewrite !call_run, !traced_traced in Hrun.
        rewrite fmap_app, <- !app_assoc. exact Hrun.
      * rewrite !traced_traced in Hrun. rewrite fmap_app.
        cbn [app] in Hrun. exact Hrun.
    + destruct (forEach_extend_with_throws (default [] (layers s))
                  (traced (call_extend <$> ez)
                     (traced [call_latLngBounds pts] s)))
        as (added & E & Ha); [rewrite !extents_traced; exact El|].
      rewrite E, !traced_traced in Hrun.
      eexists. split; [exact Hrun|].
      cbn [app forallb is_region_call].
      rewrite forallb_app, forallb_region_extend. exact Ha.
  - destruct (forEach_extend_with_throws
                (if fitZones s then _mapZones s else [])
                (traced [call_latLngBounds pts] s)) as (added & E & Ha);
      [rewrite extents_traced; exact Ez|].
    rewrite E, traced_traced in Hrun.
    eexists. split; [exact Hrun | exact Ha].
Qed.

(** X4. When there is something to fit ([_mapFocusItems] or [layers] is not
    empty), every object has what the code asks of it (a focus item its
    position; a zone or overlay layer its bounds, which for a circle means
    that it is on the map, or else its position) and some object puts a
    point into the region, [fitMap] on a component with its map, the
    library and [hass] makes these calls in this order and nothing else:
    [latLngBounds] on the positions of the focus items, one [extend] per
    zone (only when [fitZones] is set) and then one per overlay layer, with
    the bounds of the object when it has [getBounds] and its position
    otherwise, [pad] with the requested ratio or 0.5, and [fitBounds] with
    the requested zoom (when truthy) or the zoom property as maximum. *)
Theorem fitMap_fits_bounds s options h pts es :
  is_Some (leafletMap s) -> is_Some (Leaflet s) -> hass s = Some h ->
  nonempty (_mapFocusItems s) || nonempty (default [] (layers s)) = true ->
  positions (_mapFocusItems s) = Some pts ->
  extents s (fitted s) = Some es ->
  region_held s = true ->
  fitMap options s =
  Normal tt
    (traced
       (call_latLngBounds pts
        :: (call_extend <$> es)
        ++ [call_pad (pad_or options); call_fitBounds (zoom_or options s)])
       s).
Proof.
  intros Hm HL Hh Hne Hpts Hes Hheld.
  pose proof (fitMap_bounding_cases s options h Hm HL Hh Hne) as Hc.
  rewrite Hpts, Hes, Hheld in Hc. exact Hc.
Qed.

(** X5. On a component with its map, the library and [hass], when
    [_mapFocusItems] or [layers] is not empty, [fitMap] throws, and the
    viewport stays where it is (the only calls made are those that build
    the bounding region), in each of these cases: a focus item has no
    [getLatLng]; one of the zones (which count only when [fitZones] is
    set) or of the overlay layers is a circle that is on no map, or has
    neither [getBounds] nor [getLatLng] (a tile layer for instance); or no
    object puts a point into the region. *)
Theorem fitMap_throws_on_layer_without_extent s options h :
  is_Some (leafletMap s) -> is_Some (Leaflet s) -> hass s = Some h ->
  nonempty (_mapFocusItems s) || nonempty (default [] (layers s)) = true ->
  positions (_mapFocusItems s) = None
  \/ extents s (fitted s) = None
  \/ region_held s = false ->
  exists added,
    fitMap options s = Throw (traced added s)
    /\ forallb is_region_call added = true.
Proof.
  intros Hm HL Hh Hne Hbad.
  pose proof (fitMap_bounding_cases s options h Hm HL Hh Hne) as Hc.
  destruct (positions (_mapFocusItems s)) as [pts|]; [|exact Hc].
  destruct (extents s (fitted s)) as [es|]; [|exact Hc].
  destruct Hbad as [Hbad | [Hbad | Hbad]]; try discriminate.
  rewrite Hbad in Hc. eexists. split; [exact Hc|].
  cbn [forallb is_region_call]. apply forallb_region_extend.
Qed.

(** X6. When there is at least one focus item, each with its position,
    and the focus items are all there is to fit (no zones to include: none
    drawn or [fitZones] off; no overlay layers), [fitBounds] called with
    the positions of the focus items does exactly what [fitMap] does;
    this includes doing nothing when the map, the library or [hass] is
    missing. *)
Theorem fitBounds_on_focus_positions s options pts :
  positions (_mapFocusItems s) = Some pts -> _mapFocusItems s <> [] ->
  fitZones s = false \/ _mapZones s = [] ->
  default [] (layers s) = [] ->
  fitBounds pts options s = fitMap options s.
Proof.
  intros Hpts Hne Hz Hl.
  destruct (leafletMap s) as [m|] eqn:Hm;
    [|unfold fitBounds, fitMap; run_m; rewrite Hm; reflexivity].
  destruct (Leaflet s) as [L|] eqn:HL;
    [|unfold fitBounds, fitMap; run_m; rewrite Hm, HL; reflexivity].
  destruct (hass s) as [h|] eqn:Hh;
    [|unfold fitBounds, fitMap; run_m; rewrite Hm, HL, Hh; reflexivity].
  assert (nonempty (_mapFocusItems s) = true) as Hfoc
    by (destruct (_mapFocusItems s); [contradiction | reflexivity]).
  assert (fitted s = []) as Hfit.
  { unfold fitted. rewrite Hl, app_nil_r. destruct Hz as [-> | Hz]; [reflexivity|].
    destruct (fitZones s); [exact Hz | reflexivity]. }
  pose proof (fitMap_bounding_cases s options h) as Hc.
  unfold region_held in Hc.
  rewrite Hm, HL, Hpts, Hfit, Hfoc in Hc. cbn [extents orb fmap list_fmap app] in Hc.
  rewrite Hc; eauto.
  unfold fitBounds. rewrite (bind_Normal get _ s s s) by reflexivity.
  rewrite Hm, HL, Hh, (nonempty_positions _ _ Hpts), Hfoc.
  unfold bind, pad. rewrite !call_run, !traced_traced.
  reflexivity.
Qed.

(** X7. [_drawLayers] takes the previous overlay layers off the map and
    attaches the current ones, so a layer in both ends up attached; without
    a map it throws at the first layer to attach, and does nothing when
    there is none. *)
Theorem drawLayers_swaps_layers prevLayers s :
  _drawLayers prevLayers s =
  match leafletMap s with
  | Some _ =>
      Normal tt
        (attach (ids (default [] (layers s)))
           (detach (ids (default [] prevLayers)) s))
  | None => if nonempty (default [] (layers s)) then Throw s else Normal tt s
  end.
Proof.
  unfold _drawLayers.
  assert ((match prevLayers with
           | Some prev => forEach layer_remove prev
           | None => ret tt
           end) s = Normal tt (detach (ids (default [] prevLayers)) s)) as E.
  { destruct prevLayers as [prev|]; cbn [default].
    - apply forEach_layer_remove.
    - rewrite ids_nil, detach_empty. reflexivity. }
  rewrite (bind_Normal _ _ _ _ _ E).
  set (s1 := detach _ s).
  rewrite (bind_Normal get _ s1 s1 s1) by reflexivity.
  assert (layers s1 = layers s) as -> by (unfold s1; frame).
  destruct (leafletMap s) as [m|] eqn:Hm.
  - assert (is_Some (leafletMap s1)) as Hm1
      by (unfold s1, detach; rewrite Hm; cbn; eauto).
    destruct (layers s) as [ls|]; cbn [default].
    + apply forEach_map_addLayer. exact Hm1.
    + rewrite ids_nil, attach_empty. reflexivity.
  - assert (s1 = s) as -> by (unfold s1, detach; rewrite Hm; reflexivity).
    destruct (layers s) as [[|l ls]|]; cbn [default nonempty forEach];
      try reflexivity.
    unfold map_addLayer. run_m. rewrite Hm. reflexivity.
Qed.

(** ** The update cycle *)

Section UpdateProperties.

Context `{Collaborators}.

(** A render changes the scene and the layers of the map, nothing else. *)
Ltac render_preserves unready spec :=
  intros s;
  destruct (hass s) as [h|] eqn:Hh;
    [|rewrite unready by auto; reflexivity];
  destruct (leafletMap s) as [m|] eqn:Hm;
    [|rewrite unready by auto; reflexivity];
  destruct (Leaflet s) as [L|] eqn:HL;
    [|rewrite unready by auto; reflexivity];
  spec.

Lemma _drawEntities_final s h :
  hass s = Some h -> is_Some (leafletMap s) -> is_Some (Leaflet s) ->
  exists thrown I F Z, final (_drawEntities s) = rendered thrown I F Z s.
Proof.
  intros Hh Hm HL.
  destruct (_drawEntities_spec s h Hh Hm HL) as (I & F & Z & E & _).
  eexists _, I, F, Z. rewrite E. apply final_outcome.
Qed.

Lemma preserves_handles__drawEntities : preserves handles _drawEntities.
Proof.
  render_preserves _drawEntities_unready
    ltac:(destruct (_drawEntities_final s h Hh) as (b & I & F & Z & ->);
          [rewrite Hm; eauto | rewrite HL; eauto | destruct b; frame_map Hm]).
Qed.

Lemma preserves_mapEl__drawEntities : preserves mapEl _drawEntities.
Proof.
  render_preserves _drawEntities_unready
    ltac:(destruct (_drawEntities_final s h Hh) as (b & I & F & Z & ->);
          [rewrite Hm; eauto | rewrite HL; eauto | destruct b; frame_map Hm]).
Qed.

Lemma preserves_trace__drawEntities : preserves trace _drawEntities.
Proof.
  render_preserves _drawEntities_unready
    ltac:(destruct (_drawEntities_final s h Hh) as (b & I & F & Z & ->);
          [rewrite Hm; eauto | rewrite HL; eauto | destruct b; frame_map Hm]).
Qed.

Lemma preserves_handles__drawPaths : preserves handles _drawPaths.
Proof.
  render_preserves _drawPaths_unready
    ltac:(rewrite (_drawPaths_spec h s Hh) by (rewrite ?Hm, ?HL; eauto);
          cbn [final]; destruct (paths s); frame_map Hm).
Qed.

Lemma preserves_mapEl__drawPaths : preserves mapEl _drawPaths.
Proof.
  render_preserves _drawPaths_unready
    ltac:(rewrite (_drawPaths_spec h s Hh) by (rewrite ?Hm, ?HL; eauto);
          cbn [final]; destruct (paths s); frame_map Hm).
Qed.

Lemma preserves_trace__drawPaths : preserves trace _drawPaths.
Proof.
  render_preserves _drawPaths_unready
    ltac:(rewrite (_drawPaths_spec h s Hh) by (rewrite ?Hm, ?HL; eauto);
          cbn [final]; destruct (paths s); frame_map Hm).
Qed.

#[local] Hint Resolve preserves_handles__drawEntities
  preserves_mapEl__drawEntities preserves_trace__drawEntities
  preserves_handles__drawPaths preserves_mapEl__drawPaths
  preserves_trace__drawPaths : preserves.

Lemma preserves_redraw_if_changed {T} (v : HaMap -> T) old ents :
  preserves v _drawEntities -> preserves v (redraw_if_changed old ents).
Proof.
  intros Hd. induction ents as [|entity rest IH]; cbn [redraw_if_changed];
    preserves_tac.
Qed.

#[local] Hint Resolve preserves_redraw_if_changed : preserves.

Lemma preserves_handles_update changedProps :
  preserves handles (update changedProps).
Proof.
  unfold update. preserves_tac.
Qed.

Lemma preserves_handles_fitMap options : preserves handles (fitMap options).
Proof. preserves_tac. Qed.

Lemma loaded_has_handles_handles s s' :
  handles s' = handles s -> loaded_has_handles s -> loaded_has_handles s'.
Proof.
  unfold handles, loaded_has_handles. intros E Hs Hl.
  injection E as E1 E2 E3 E4. rewrite E1 in Hl.
  destruct (Hs Hl) as ([m Hm] & HL & [c Hc]). rewrite Hm in E2. rewrite Hc in E4.
  rewrite E3. split_and!; [|exact HL|].
  - destruct (leafletMap s'); [eauto | discriminate].
  - destruct (mapEl s'); [eauto | discriminate].
Qed.

(** A loaded component holds its map, the library and the [#map] element. *)
Lemma reachable_loaded_has_handles s : reachable s -> loaded_has_handles s.
Proof.
  induction 1 as [h ents ps ls | s s' _ IH Hsame | s _ IH | s _ IH
                 | s settled _ IH | s changedProps _ IH | s options _ IH].
  - intros Hl. discriminate.
  - apply (loaded_has_handles_handles s); [|exact IH].
    destruct Hsame as (E1 & E2 & E3 & _ & _ & E4 & _). unfold handles.
    rewrite E1, E2, E3, E4. reflexivity.
  - rewrite connectedCallback_run. cbn [final]. intros Hl.
    destruct (_loading s); cbn in Hl |- *.
    + exact (IH Hl).
    + destruct (mapEl s) as [c|] eqn:Ec; cbn in Hl |- *.
      * exact (IH Hl).
      * destruct (IH Hl) as (_ & _ & [c Hc]). congruence.
  - intros Hl. exfalso. revert Hl. unfold disconnectedCallback. run_m.
    destruct (leafletMap s); destruct (_resizeObserver s); cbn; discriminate.
  - destruct settled as [[m L]|];
      [|apply (loaded_has_handles_handles s); [reflexivity | exact IH]].
    unfold _loadMap_resume, try_finally, _updateMapStyle, _darkMode. run_m.
    destruct (mapEl s) as [c|] eqn:Ec; cbn.
    + destruct (themeMode s); [destruct (hass s)|..]; cbn; intros Hl; cbn;
        rewrite ?Ec; split_and!; eauto.
    + intros Hl. cbn in Hl. destruct (IH Hl) as (_ & _ & [c Hc]). congruence.
  - exact (loaded_has_handles_handles _ _
             (preserves_handles_update changedProps s) IH).
  - exact (loaded_has_handles_handles _ _
             (preserves_handles_fitMap options s) IH).
Qed.

(** X8. On every component that can arise, being loaded means that the map,
    the library and the [#map] element are there; hence an update cycle in
    which only the zoom changed never throws at [this.leafletMap!]: it is a
    no-op before loading, and afterwards it makes one [setZoom] call with
    the zoom property and changes nothing else. *)
Theorem zoom_update_on_reachable s changedProps :
  reachable s -> zoom_only changedProps ->
  loaded_has_handles s
  /\ update changedProps s =
     Normal tt
       (if _loaded s
        then set_trace (trace s ++ [call_setZoom (zoom s)]) s
        else s).
Proof.
  intros Hr (E1 & E2 & E3 & E4 & E5 & E6 & E7).
  pose proof (reachable_loaded_has_handles s Hr) as Hh.
  split; [exact Hh|].
  unfold update. rewrite E1, E2, E3, E4, E5, E6, E7. run_m.
  destruct (_loaded s) eqn:El; cbn; [|reflexivity].
  destruct (Hh El) as ([m Hm] & _). rewrite Hm. cbn.
  destruct (autoFit s); reflexivity.
Qed.

(** *** The styling classes *)

Lemma keeps_try_finally {A} (P : HaMap -> Prop) (c : M A) (f : M unit) :
  keeps P c -> keeps P f -> keeps P (try_finally c f).
Proof.
  intros Hc Hf s Hs. unfold try_finally. specialize (Hc s Hs).
  destruct (c s) as [a s'|s']; cbn [final] in *.
  - specialize (Hf s' Hc). destruct (f s'); exact Hf.
  - exact (Hf s' Hc).
Qed.

Lemma preserves_mapEl_keeps_styled {A} (c : M A) :
  preserves mapEl c -> keeps styled c.
Proof. intros Hc s Hs cl. rewrite (Hc s). apply Hs. Qed.

Lemma keeps_styled__updateMapStyle : keeps styled _updateMapStyle.
Proof.
  intros s Hs cl. unfold _updateMapStyle, _darkMode. run_m.
  destruct (mapEl s) as [c|] eqn:Ec; cbn; [|rewrite Ec; discriminate].
  destruct (themeMode s); [destruct (hass s)|..]; cbn;
    first [ exact (Hs cl) | intros [= <-]; repeat split; cbn; congruence ].
Qed.

(** Decomposes a method down to restyling and what leaves [#map] alone. *)
Ltac styled_tac :=
  repeat
    match goal with
    | |- keeps _ (match ?x with _ => _ end) => destruct x
    | |- keeps _ (ret _) => apply keeps_ret
    | |- keeps _ (bind get _) => apply keeps_get_bind; intros ?
    | |- keeps _ (bind _ _) => apply keeps_bind; [|intros ?]
    | |- keeps _ (try_finally _ _) => apply keeps_try_finally
    | |- keeps styled _updateMapStyle => apply keeps_styled__updateMapStyle
    | |- keeps styled _ =>
        apply preserves_mapEl_keeps_styled; solve [ preserves_tac ]
    end.

(** X9. The three styling classes of the [#map] element never contradict
    each other on a component that can arise: [forced-dark] comes with
    [dark], [forced-light] without it, and the two are never set together. *)
Theorem styling_classes_consistent s : reachable s -> styled s.
Proof.
  induction 1 as [h ents ps ls | s s' _ IH Hsame | s _ IH | s _ IH
                 | s settled _ IH | s changedProps _ IH | s options _ IH].
  - intros c Hc. discriminate.
  - destruct Hsame as (_ & _ & _ & _ & _ & E & _). intros c. rewrite E.
    apply IH.
  - rewrite connectedCallback_run. cbn [final]. intros c.
    destruct (_loading s); cbn; [apply IH|].
    destruct (mapEl s) as [c0|] eqn:Ec; cbn; [apply IH|].
    intros [= <-]. repeat split; cbn; congruence.
  - revert s IH. change (keeps styled disconnectedCallback).
    unfold disconnectedCallback. styled_tac.
  - revert s IH. change (keeps styled (_loadMap_resume settled)).
    unfold _loadMap_resume. styled_tac.
  - revert s IH. change (keeps styled (update changedProps)).
    unfold update. styled_tac.
  - revert s IH. change (keeps styled (fitMap options)). styled_tac.
Qed.

(** *** A new [hass] *)



(** *** What moves the viewport *)

Lemma adds_ret {A} allowed (a : A) s : adds allowed (ret a) s.
Proof. exists []. rewrite app_nil_r. split; reflexivity. Qed.

Lemma adds_preserves {A} allowed (c : M A) s :
  preserves trace c -> adds allowed c s.
Proof.
  intros Hc. exists []. rewrite app_nil_r. split; [apply Hc | reflexivity].
Qed.

Lemma adds_call allowed c s : allowed c = true -> adds allowed (call c) s.
Proof. intros Hc. exists [c]. cbn. rewrite Hc. split; reflexivity. Qed.

Lemma adds_bind {A B} allowed (c : M A) (k : A -> M B) s :
  adds allowed c s -> (forall a s', adds allowed (k a) s') ->
  adds allowed (bind c k) s.
Proof.
  intros (a1 & E1 & H1) Hk. unfold adds, bind.
  destruct (c s) as [a s'|s']; cbn [final] in *.
  - destruct (Hk a s') as (a2 & E2 & H2). exists (a1 ++ a2).
    rewrite E2, E1, app_assoc, forallb_app, H1, H2. split; reflexivity.
  - exists a1. split; assumption.
Qed.

(** Decomposes a method down to its calls and what leaves the trace
    alone. *)
Ltac adds_tac :=
  repeat
    match goal with
    | |- adds _ (match ?x with _ => _ end) _ => destruct x
    | |- adds _ (ret _) _ => apply adds_ret
    | |- adds _ (bind _ _) _ => apply adds_bind; [|intros ? ?]
    | |- adds _ (call _) _ => apply adds_call; reflexivity
    | |- adds _ _ _ => apply adds_preserves; solve [ preserves_tac ]
    end.

(** X11. Unless [autoFit] is set or the component has just become loaded,
    an update cycle never moves the viewport by itself, whatever changed
    (entities, [hass], paths, overlay layers, theme): the only call it can
    make is [setZoom], for a changed zoom. *)
Theorem update_without_autoFit_keeps_viewport s changedProps :
  autoFit s = false -> ch__loaded changedProps = false ->
  adds is_setZoom (update changedProps) s.
Proof.
  intros Ha Hl. unfold update, adds.
  rewrite (bind_Normal get _ s s s) by reflexivity.
  rewrite Ha, Hl. cbn [orb andb].
  match goal with
  | |- context [final (?c s)] => change (adds is_setZoom c s)
  end.
  adds_tac.
Qed.

End UpdateProperties.

(** ** The objects the renderers keep *)

Section EntityCensus.

Context `{Collaborators}.
Variables (h : HomeAssistant) (cn zoneColor passiveZoneColor dpc : string).

Ltac census_facts :=
  split_and!; try reflexivity; cbn [app]; solve [ repeat constructor ].

Ltac census_leaf :=
  first
    [ exists [], [], []; rewrite grow_nil; census_facts
    | eexists [], [], [_; _]; split; [solve_grow | census_facts]
    | eexists [_; _], [_], []; split; [solve_grow | census_facts]
    | eexists [_; _], [], []; split; [solve_grow | census_facts]
    | eexists [_], [_], []; split; [solve_grow | census_facts]
    | eexists [_], [], []; split; [solve_grow | census_facts] ].

(** The objects one listed entity adds, by the way it is treated. *)
Lemma drawEntity_census entity s :
  inherited_entry h entity = false ->
  exists I F Z,
    drawEntity h cn zoneColor passiveZoneColor dpc entity s
    = Normal tt (grow I F Z s)
    /\ length I = items_of_kind (entry_kind_of h (renderPassive s) entity)
    /\ length F = focus_of_kind (entry_kind_of h (renderPassive s) entity)
    /\ length Z = zones_of_kind (entry_kind_of h (renderPassive s) entity)
    /\ Forall (fun l => is_marker (shape l) = true) F
    /\ Forall (fun l => is_marker (shape l) || is_circle (shape l) = true)
         (I ++ Z).
Proof.
  intros Hown.
  unfold drawEntity, entry_kind_of, coords, hidden_zone, accuracy_of, focus_of.
  rewrite (states_at_own h entity Hown).
  destruct (states h !! getEntityId entity) as [st|] eqn:Est;
    cbn [fmap option_fmap option_map]; [|census_leaf].
  destruct (latitude (attributes st)) as [lat|]; [|census_leaf].
  destruct (longitude (attributes st)) as [lng|]; [|census_leaf].
  destruct (num_truthy lat && num_truthy lng); cbn [negb]; [|census_leaf].
  destruct (String.eqb (computeStateDomain st) "zone"); cbn [andb negb].
  - rewrite (bind_Normal get _ s s s) by reflexivity.
    destruct (opt_bool_truthy (passive (attributes st))
              && negb (renderPassive s)); cbn [negb]; census_leaf.
  - destruct (gps_accuracy (attributes st)) as [acc|];
      [destruct (num_truthy acc)|];
      destruct entity as [id|[eid col lm nm [[|]|]]]; census_leaf.
Qed.

Lemma forEach_drawEntity_census ents : forall s,
  exists I F Z,
    forEach (drawEntity h cn zoneColor passiveZoneColor dpc) ents s
    = outcome (aborts h ents) (grow I F Z s)
    /\ length I
       = sum_list_with items_of_kind
           (entry_kind_of h (renderPassive s) <$> drawn_prefix h ents)
    /\ length F
       = sum_list_with focus_of_kind
           (entry_kind_of h (renderPassive s) <$> drawn_prefix h ents)
    /\ length Z
       = sum_list_with zones_of_kind
           (entry_kind_of h (renderPassive s) <$> drawn_prefix h ents)
    /\ Forall (fun l => is_marker (shape l) = true) F
    /\ Forall (fun l => is_marker (shape l) || is_circle (shape l) = true)
         (I ++ Z).
Proof.
  induction ents as [|e ents IH]; intros s.
  - exists [], [], []. cbn [forEach]. unfold ret. rewrite grow_nil.
    split_and!; try reflexivity; constructor.
  - unfold aborts. cbn [forEach existsb drawn_prefix].
    destruct (inherited_entry h e) eqn:He; cbn [orb].
    { exists [], [], []. unfold bind.
      rewrite (drawEntity_inherited h cn zoneColor passiveZoneColor dpc e s He).
      rewrite grow_nil. split_and!; try reflexivity; constructor. }
    destruct (drawEntity_census e s He)
      as (I1 & F1 & Z1 & E1 & HI1 & HF1 & HZ1 & Hm1 & Hk1).
    destruct (IH (grow I1 F1 Z1 s))
      as (I2 & F2 & Z2 & E2 & HI2 & HF2 & HZ2 & Hm2 & Hk2).
    change (renderPassive (grow I1 F1 Z1 s)) with (renderPassive s)
      in HI2, HF2, HZ2.
    exists (I1 ++ I2), (F1 ++ F2), (Z1 ++ Z2).
    rewrite (bind_Normal _ _ _ _ _ E1), E2, grow_grow.
    rewrite !length_app, HI1, HF1, HZ1, HI2, HF2, HZ2.
    split_and!; try reflexivity.
    + apply Forall_app. split; assumption.
    + apply Forall_app in Hk1 as [Hi1 Hz1]. apply Forall_app in Hk2 as [Hi2 Hz2].
      rewrite !Forall_app. split_and!; assumption.
Qed.

End EntityCensus.

Section Census.

Context `{Collaborators}.

Lemma _drawEntities_census s h :
  hass s = Some h -> is_Some (leafletMap s) -> is_Some (Leaflet s) ->
  exists I F Z,
    _drawEntities s
    = outcome (aborts h (default [] (entities s)))
        (rendered (aborts h (default [] (entities s))) I F Z s)
    /\ (let kinds :=
          entry_kind_of h (renderPassive s)
          <$> drawn_prefix h (default [] (entities s)) in
        length I = sum_list_with items_of_kind kinds
        /\ length F = sum_list_with focus_of_kind kinds
        /\ length Z = sum_list_with zones_of_kind kinds)
    /\ Forall (fun l => is_marker (shape l) = true) F
    /\ Forall (fun l => is_marker (shape l) || is_circle (shape l) = true)
         (I ++ Z).
Proof.
  intros Hh Hm HL.
  destruct (entities s) as [ents|] eqn:Eents.
  - destruct (forEach_drawEntity_census h (className_of h s)
                (getPropertyValue "--accent-color")
                (getPropertyValue "--secondary-text-color")
                (getPropertyValue "--dark-primary-color") ents (pre_entities s))
      as (I & F & Z & E & HI & HF & HZ & Hmk & Hk).
    replace (renderPassive (pre_entities s)) with (renderPassive s)
      in HI, HF, HZ by frame.
    exists I, F, Z. cbv zeta. change (default [] (Some ents)) with ents.
    split_and!; try assumption.
    exact (_drawEntities_run s h ents I F Z Hh Hm HL Eents E).
  - exists [], [], [].
    rewrite (_drawEntities_clear s h Hh Hm HL), Eents.
    change (default [] None) with (@nil EntitySpec).
    cbn [aborts existsb outcome rendered].
    unfold redrawn. fold (pre_entities s).
    rewrite grow_nil. cbn [app]. rewrite ids_nil, attach_empty.
    split_and!; try reflexivity; constructor.
Qed.

(** X12. On a ready component that can arise, one render of the entities
    throws exactly when a listed identifier names a member inherited from
    [Object.prototype], and completes otherwise. It leaves in the three
    collections exactly these numbers of objects, counted over the entries
    before the first such identifier (all of them when it completes): in
    [_mapZones] two per drawn zone (its marker and its radius circle); in
    [_mapItems] one marker per other located entity and one more object,
    the accuracy circle, when its [gps_accuracy] is truthy; in
    [_mapFocusItems] one per such entity unless it was listed with
    [focus: false]. Entities that are not in the snapshot, that have no
    accepted coordinates, or that are hidden zones add nothing. *)
Theorem entity_renderer_census s h ents :
  reachable s ->
  hass s = Some h -> is_Some (leafletMap s) -> is_Some (Leaflet s) ->
  entities s = Some ents ->
  let kinds := entry_kind_of h (renderPassive s) <$> drawn_prefix h ents in
  let s' := final (_drawEntities s) in
  throws (_drawEntities s) = aborts h ents
  /\ (aborts h ents = false -> drawn_prefix h ents = ents)
  /\ length (_mapItems s') = sum_list_with items_of_kind kinds
  /\ length (_mapFocusItems s') = sum_list_with focus_of_kind kinds
  /\ length (_mapZones s') = sum_list_with zones_of_kind kinds.
Proof.
  intros Hr Hh Hm HL He.
  destruct (_drawEntities_census s h Hh Hm HL)
    as (I & F & Z & E & (HI & HF & HZ) & _).
  rewrite He in HI, HF, HZ, E.
  change (default [] (Some ents)) with ents in HI, HF, HZ, E.
  cbv zeta. rewrite E, final_outcome, throws_outcome.
  rewrite _mapFocusItems_rendered.
  replace (_mapItems (rendered (aborts h ents) I F Z s)) with I
    by (destruct (aborts h ents); frame).
  replace (_mapZones (rendered (aborts h ents) I F Z s)) with Z
    by (destruct (aborts h ents); frame).
  split_and!; try assumption; [reflexivity | apply drawn_prefix_all |].
  destruct (reachable_stamped s Hr) as [_ Hfoc].
  destruct (_mapItems s) as [|l ls]; cbn [nonempty]; [|exact HF].
  rewrite Hfoc by reflexivity. exact HF.
Qed.

(** *** The kinds of the objects kept *)

Lemma well_kinded_scene s s' :
  scene s' = scene s -> well_kinded s -> well_kinded s'.
Proof.
  unfold scene, well_kinded. intros E. injection E as -> -> -> -> _.
  intros Hk. exact Hk.
Qed.

Lemma frames_keeps_well_kinded {A} (c : M A) :
  frames c -> keeps well_kinded c.
Proof. intros Hc s Hs. exact (well_kinded_scene s _ (Hc s) Hs). Qed.

Lemma keeps_well_kinded__drawEntities : keeps well_kinded _drawEntities.
Proof.
  intros s Hs.
  destruct (hass s) as [h|] eqn:Hh;
    [|rewrite _drawEntities_unready by auto; exact Hs].
  destruct (leafletMap s) as [m|] eqn:Hm;
    [|rewrite _drawEntities_unready by auto; exact Hs].
  destruct (Leaflet s) as [L0|] eqn:HL;
    [|rewrite _drawEntities_unready by auto; exact Hs].
  destruct (_drawEntities_census s h Hh) as (I & F & Z & E & _ & HF & HK);
    [rewrite Hm; eauto | rewrite HL; eauto |].
  rewrite E, final_outcome. destruct Hs as (Hsf & _ & Hsp).
  set (thrown := aborts h (default [] (entities s))).
  unfold well_kinded. rewrite _mapFocusItems_rendered.
  replace (_mapItems (rendered thrown I F Z s)) with I
    by (destruct thrown; frame).
  replace (_mapZones (rendered thrown I F Z s)) with Z
    by (destruct thrown; frame).
  replace (_mapPaths (rendered thrown I F Z s)) with (_mapPaths s)
    by (destruct thrown; frame).
  split_and!; [|exact HK | exact Hsp].
  apply Forall_app. split; [|exact HF].
  destruct (nonempty (_mapItems s)); [constructor | exact Hsf].
Qed.

Lemma pair_shapes_kinds h dpc path pts : forall i,
  Forall (fun sh => is_circleMarker sh || is_polyline sh = true)
    (pair_shapes h dpc path i pts).
Proof.
  induction pts as [|pt rest IH]; intros i; [constructor|].
  destruct rest as [|next rest']; [constructor|].
  rewrite pair_shapes_cons2. apply Forall_app. split; [|apply IH].
  repeat constructor.
Qed.

Lemma expected_path_shapes_kinds h dpc path :
  Forall (fun sh => is_circleMarker sh || is_polyline sh = true)
    (expected_path_shapes h dpc path).
Proof.
  unfold expected_path_shapes, end_shape. apply Forall_app.
  split; [apply pair_shapes_kinds|].
  destruct (last (points path)); repeat constructor.
Qed.

Lemma keeps_well_kinded__drawPaths : keeps well_kinded _drawPaths.
Proof.
  intros s Hs.
  destruct (hass s) as [h|] eqn:Hh;
    [|rewrite _drawPaths_unready by auto; exact Hs].
  destruct (leafletMap s) as [m|] eqn:Hm;
    [|rewrite _drawPaths_unready by auto; exact Hs].
  destruct (Leaflet s) as [L0|] eqn:HL;
    [|rewrite _drawPaths_unready by auto; exact Hs].
  rewrite (_drawPaths_spec h s Hh) by (rewrite ?Hm, ?HL; eauto).
  cbn [final]. destruct Hs as (Hsf & Hsi & _). unfold well_kinded.
  destruct (paths s) as [ps|]; cbv zeta.
  - set (L := stamp _ _).
    replace (_mapFocusItems (attach (ids L) (add_paths L (pre_paths s))))
      with (_mapFocusItems s) by frame_map Hm.
    replace (_mapItems (attach (ids L) (add_paths L (pre_paths s))))
      with (_mapItems s) by frame_map Hm.
    replace (_mapZones (attach (ids L) (add_paths L (pre_paths s))))
      with (_mapZones s) by frame_map Hm.
    replace (_mapPaths (attach (ids L) (add_paths L (pre_paths s))))
      with L by frame_map Hm.
    split_and!; [exact Hsf | exact Hsi |].
    apply (Forall_fmap shape
             (fun sh => is_circleMarker sh || is_polyline sh = true)).
    unfold L. rewrite shape_stamp. apply Forall_flat_map.
    apply Forall_forall. intros path _. apply expected_path_shapes_kinds.
  - replace (_mapFocusItems (pre_paths s)) with (_mapFocusItems s)
      by frame_map Hm.
    replace (_mapItems (pre_paths s)) with (_mapItems s) by frame_map Hm.
    replace (_mapZones (pre_paths s)) with (_mapZones s) by frame_map Hm.
    replace (_mapPaths (pre_paths s)) with (@nil Layer) by frame_map Hm.
    split_and!; [exact Hsf | exact Hsi | constructor].
Qed.

(** Decomposes a method down to renders and scene-preserving effects. *)
Ltac kinded_tac :=
  repeat
    match goal with
    | |- keeps _ (match ?x with _ => _ end) => destruct x
    | |- keeps _ (ret _) => apply keeps_ret
    | |- keeps _ (bind get _) => apply keeps_get_bind; intros ?
    | |- keeps _ (bind _ _) => apply keeps_bind; [|intros ?]
    | |- keeps well_kinded _drawEntities =>
        apply keeps_well_kinded__drawEntities
    | |- keeps well_kinded _drawPaths => apply keeps_well_kinded__drawPaths
    | |- keeps well_kinded throw =>
        apply frames_keeps_well_kinded, frames_throw
    | |- keeps well_kinded (call _) =>
        apply frames_keeps_well_kinded, frames_call
    | |- keeps well_kinded (fitMap _) =>
        apply frames_keeps_well_kinded, frames_fitMap
    | |- keeps well_kinded (_drawLayers _) =>
        apply frames_keeps_well_kinded, frames__drawLayers
    | |- keeps well_kinded _updateMapStyle =>
        apply frames_keeps_well_kinded, frames__updateMapStyle
    end.

Lemma keeps_well_kinded_redraw_if_changed old ents :
  keeps well_kinded (redraw_if_changed old ents).
Proof.
  induction ents as [|entity rest IH]; cbn [redraw_if_changed]; kinded_tac.
  exact IH.
Qed.

Lemma keeps_well_kinded_update changedProps :
  keeps well_kinded (update changedProps).
Proof.
  unfold update. kinded_tac. apply keeps_well_kinded_redraw_if_changed.
Qed.

(** The collections of a component that can arise hold what their types
    announce. *)
Lemma reachable_well_kinded s : reachable s -> well_kinded s.
Proof.
  induction 1 as [h ents ps ls | s s' _ IH Hsame | s _ IH | s _ IH
                 | s settled _ IH | s changedProps _ IH | s options _ IH].
  - repeat split; constructor.
  - apply (well_kinded_scene s); [apply Hsame | exact IH].
  - exact (frames_keeps_well_kinded _ frames_connectedCallback s IH).
  - exact (frames_keeps_well_kinded _ frames_disconnectedCallback s IH).
  - exact (frames_keeps_well_kinded _ (frames__loadMap_resume settled) s IH).
  - exact (keeps_well_kinded_update changedProps s IH).
  - exact (frames_keeps_well_kinded _ (frames_fitMap options) s IH).
Qed.

Lemma markers_have_positions items :
  Forall (fun l => is_marker (shape l) = true) items ->
  is_Some (positions items).
Proof.
  induction 1 as [|l items Hl _ [pts IH]]; cbn [positions]; [eauto|].
  rewrite IH. unfold getLatLng. destruct (shape l); try discriminate. eauto.
Qed.

(** X13. Reading the positions of the focus items never makes [fitMap]
    throw: on a component that can arise the focus items are markers (and
    the items and zones are markers and circles, the path objects circle
    markers and polylines). [fitMap] throws exactly when the component has
    its map, the library and [hass], there is a focus item or an overlay
    layer, and either one of the zones (which count only when [fitZones]
    is set) or of the overlay layers is a circle that is on no map or has
    neither [getBounds] nor [getLatLng], or no object puts a point into
    the region. *)
Theorem focus_items_never_break_fitMap s options :
  reachable s ->
  well_kinded s
  /\ is_Some (positions (_mapFocusItems s))
  /\ (throws (fitMap options s) = true
      <-> is_Some (leafletMap s) /\ is_Some (Leaflet s) /\ is_Some (hass s)
          /\ nonempty (_mapFocusItems s) || nonempty (default [] (layers s))
             = true
          /\ (extents s (fitted s) = None \/ region_held s = false)).
Proof.
  intros Hr. pose proof (reachable_well_kinded s Hr) as Hk.
  split; [exact Hk|]. destruct Hk as (Hf & _ & _).
  pose proof (markers_have_positions _ Hf) as Hpos.
  split; [exact Hpos|]. destruct Hpos as [pts Hpts].
  destruct (leafletMap s) as [m|] eqn:Hm.
  2:{ unfold fitMap. run_m. rewrite Hm. cbn.
      split; [discriminate | intros ([x Hx] & _); discriminate]. }
  destruct (Leaflet s) as [L|] eqn:HL.
  2:{ unfold fitMap. run_m. rewrite Hm, HL. cbn.
      split; [discriminate | intros (_ & [x Hx] & _); discriminate]. }
  destruct (hass s) as [h|] eqn:Hh.
  2:{ unfold fitMap. run_m. rewrite Hm, HL, Hh. cbn.
      split; [discriminate | intros (_ & _ & [x Hx] & _); discriminate]. }
  destruct (nonempty (_mapFocusItems s) || nonempty (default [] (layers s)))
    eqn:Hne.
  - pose proof (fitMap_bounding_cases s options h) as Hc.
    rewrite Hm, HL, Hpts in Hc.
    specialize (Hc ltac:(eauto) ltac:(eauto) Hh Hne).
    destruct (extents s (fitted s)) as [es|].
    + rewrite Hc. destruct (region_held s); cbn.
      * split; [discriminate|].
        intros (_ & _ & _ & _ & [? | ?]); discriminate.
      * split; eauto 8.
    + destruct Hc as (added & -> & _). cbn. split; eauto 8.
  - apply orb_false_iff in Hne as [Hne1 Hne2].
    unfold fitMap. run_m. rewrite Hm, HL, Hh, Hne1.
    assert (match layers s with
            | Some ls => nonempty ls
            | None => false
            end = false) as ->
      by (destruct (layers s) as [[|]|]; [reflexivity | discriminate
                                         | reflexivity]).
    cbn. split; [discriminate | intros (_ & _ & _ & ? & _); discriminate].
Qed.

End Census.

(** ** The style of the path objects *)

Lemma point_opacity_plain path i :
  not_gradual path = true -> point_opacity path i = None.
Proof.
  unfold not_gradual, point_opacity, opacity_params.
  destruct (gradualOpacity path) as [g|]; [|reflexivity].
  destruct (num_truthy g); [discriminate | reflexivity].
Qed.

Section PathStyle.

Context `{Collaborators}.

Lemma pair_shapes_style h dpc path pts : forall i,
  Forall (styled_as dpc path) (pair_shapes h dpc path i pts).
Proof.
  induction pts as [|pt rest IH]; intros i; [constructor|].
  destruct rest as [|next rest']; [constructor|].
  rewrite pair_shapes_cons2. apply Forall_app. split; [|apply IH].
  repeat constructor; cbn; intros Hp; apply point_opacity_plain, Hp.
Qed.

Lemma expected_path_shapes_style h dpc path :
  Forall (styled_as dpc path) (expected_path_shapes h dpc path).
Proof.
  unfold expected_path_shapes, end_shape. apply Forall_app.
  split; [apply pair_shapes_style|].
  destruct (last (points path)); repeat constructor.
  cbn. intros Hp. apply point_opacity_plain, Hp.
Qed.

(** X15. Every object that [_drawPaths] leaves in [_mapPaths] has the style
    of one of the paths: its colour is the colour of the path, or the
    [--dark-primary-color] of the theme when the path has none (or an
    empty one); point markers are interactive and segments are not; and
    for a path without gradual opacity, a factor of zero included, no
    opacity is set at all. *)
Theorem path_objects_style s h ps :
  hass s = Some h -> is_Some (leafletMap s) -> is_Some (Leaflet s) ->
  paths s = Some ps ->
  throws (_drawPaths s) = false
  /\ Forall (fun l =>
               exists path,
                 path ∈ ps
                 /\ styled_as (getPropertyValue "--dark-primary-color") path
                      (shape l))
       (_mapPaths (final (_drawPaths s))).
Proof.
  intros Hh Hm HL Hp.
  rewrite (_drawPaths_spec h s Hh Hm HL), Hp. cbv zeta. cbn [throws final].
  split; [reflexivity|].
  set (L := stamp _ _).
  assert (_mapPaths (attach (ids L) (add_paths L (pre_paths s))) = L)
    as -> by frame.
  apply (Forall_fmap shape
           (fun sh => exists path,
              path ∈ ps
              /\ styled_as (getPropertyValue "--dark-primary-color") path sh)).
  unfold L. rewrite shape_stamp. apply Forall_flat_map.
  apply Forall_forall. intros path Hin.
  eapply Forall_impl; [apply expected_path_shapes_style|].
  intros sh Hsh. exists path. split; assumption.
Qed.

End PathStyle.

(** ** The initials of a title *)

Lemma length_substr0 n t : String.length (substr0 n t) <= n.
Proof.
  revert t. induction n as [|n IH]; intros [|c t]; cbn; try lia.
  specialize (IH t). lia.
Qed.

Lemma substr0_chars (P : ascii -> Prop) n t :
  Forall P (list_ascii_of_string t) ->
  Forall P (list_ascii_of_string (substr0 n t)).
Proof.
  revert t. induction n as [|n IH]; intros [|c t] Ht; cbn; try constructor.
  - inversion Ht; assumption.
  - apply IH. inversion Ht; assumption.
Qed.

Lemma initials_from_chars t : forall fresh,
  Forall (fun c => is_space c = false)
    (list_ascii_of_string (initials_from fresh t)).
Proof.
  induction t as [|c t IH]; intros fresh; cbn; [constructor|].
  destruct (is_space c) eqn:Ec; [apply IH|].
  destruct fresh; [|apply IH]. cbn. constructor; [exact Ec | apply IH].
Qed.

Lemma initials_from_empty t :
  initials_from true t = EmptyString
  <-> Forall (fun c => is_space c = true) (list_ascii_of_string t).
Proof.
  induction t as [|c t IH]; cbn; [split; [constructor | reflexivity]|].
  destruct (is_space c) eqn:Ec.
  - rewrite IH. split; [intros Ht; constructor; assumption|].
    intros Ht. inversion Ht; assumption.
  - split; [discriminate|]. intros Ht. inversion Ht; congruence.
Qed.

(** X16. The label computed from a title (the first character of each
    space-separated part, cut to three) has at most three characters and
    never contains a space; it is empty exactly when the title consists of
    spaces only, the empty title included. *)
Theorem initials_are_short title :
  String.length (initials title) <= 3
  /\ Forall (fun c => is_space c = false)
       (list_ascii_of_string (initials title))
  /\ (initials title = EmptyString
      <-> Forall (fun c => is_space c = true) (list_ascii_of_string title)).
Proof.
  unfold initials. split_and!.
  - apply length_substr0.
  - apply substr0_chars, initials_from_chars.
  - rewrite <- initials_from_empty.
    destruct (initials_from true title); cbn; split; congruence.
Qed.

(** * Concrete runs *)

#[local] Existing Instance sample_collaborators.

(** C10 at the sample sensor on the equator. *)
Lemma zero_coordinate_draws_nothing_witness :
  drawEntity sample_hass "light" "z" "p" "d" (EntityId "sensor.equator")
    (sample_ready (Some [EntityId "sensor.equator"]) None)
  = Normal tt (sample_ready (Some [EntityId "sensor.equator"]) None).
Proof.
  apply (zero_coordinate_draws_nothing sample_hass "light" "z" "p" "d"
           (EntityId "sensor.equator") sensor_equator).
  - reflexivity.
  - left. reflexivity.
Defined.



(** A listed identifier that names a member of [Object.prototype]: the
    render throws there, the person is drawn but attached to nothing, and
    the zone after it is not reached. *)
Lemma inherited_identifier_cuts_render_short :
  let r := _drawEntities
             (sample_ready (Some [EntityId "person.anna";
                                  EntityId "constructor"; home_sweet_home])
                None) in
  throws r = true
  /\ markers_drawn (final r) = 1
  /\ _mapZones (final r) = []
  /\ attached (final r) = ∅.
Proof. vm_compute. repeat split. Qed.

(** C6 as stated fails: a zone without icon, titled "Home Sweet Home", gets
    a [span] with the whole title, not the initials "HSH". *)
Lemma zone_without_icon_shows_whole_title :
  zone_icons (final (_drawEntities (sample_ready (Some [home_sweet_home]) None)))
  = [SpanEl "Home Sweet Home"]
  /\ zone_icon_as_stated zone_home "Home Sweet Home" = SpanEl "HSH"
  /\ zone_icons (final (_drawEntities
                          (sample_ready (Some [home_sweet_home]) None)))
     <> [zone_icon_as_stated zone_home "Home Sweet Home"].
Proof.
  split_and!.
  - vm_compute. reflexivity.
  - vm_compute. reflexivity.
  - vm_compute. discriminate.
Qed.

(** C6 (amended) at the zone titled "Home Sweet Home". *)
Lemma zone_marker_icon_witness :
  exists m c,
    drawEntity sample_hass "light" "z" "p" "d" home_sweet_home
      (sample_ready (Some [home_sweet_home]) None)
    = Normal tt (grow [] [] [m; c]
                   (sample_ready (Some [home_sweet_home]) None))
    /\ shape m = marker (52.5%float, 13.5%float)
                   {| html := SpanEl "Home Sweet Home";
                      iconSize := (24, 24)%Z; className := "light" |}
                   (Some false) "Home Sweet Home".
Proof.
  eexists _, _. split.
  - apply (zone_marker_icon sample_hass "light" "z" "p" "d" home_sweet_home
             zone_home 52.5%float 13.5%float);
      reflexivity.
  - reflexivity.
Defined.

(** C2 as stated fails at its last clause: on the three-point path with
    factor 1/2 the last point is drawn with opacity 3/2, beyond 1. *)
Lemma last_point_opacity_exceeds_one :
  path_opacities
    (final (_drawPaths (sample_ready None (Some [graded_path three_points]))))
  = [Some 0.5%float; Some 0.5%float; Some 1%float;
     Some 1%float; Some 1.5%float]
  /\ ~ at_most_one (Some 1.5%float).
Proof.
  split.
  - vm_compute. reflexivity.
  - cbn. intros Hle. vm_compute in Hle. discriminate Hle.
Qed.

(** C2 (amended) on the three-point path: the first point has 1/2. *)
Lemma gradual_opacity_formula_witness :
  same_value_zero (interpolated 0.5 3 0)
    (if is_finite (num_div 0.5 (num_sub (num_of_nat 3) 2))
     then num_sub 1 0.5
     else nan) = true.
Proof.
  apply (gradual_opacity_formula sample_hass "d" (graded_path three_points)
           0.5%float 3 eq_refl).
  - reflexivity.
  - reflexivity.
  - lia.
Defined.

(** C4 on the three-point path. *)
Lemma path_renderer_counts_witness :
  exists s',
    _drawPaths (sample_ready None (Some [graded_path three_points]))
    = Normal tt s'
    /\ shape <$> _mapPaths s'
       = flat_map (expected_path_shapes sample_hass "--dark-primary-color")
           [graded_path three_points].
Proof.
  destruct (proj1 (path_renderer_counts
              (sample_ready None (Some [graded_path three_points]))
              sample_hass [graded_path three_points] eq_refl
              (ex_intro _ _ eq_refl) (ex_intro _ _ eq_refl) eq_refl))
    as (s' & E & Hshapes & _).
  exists s'. split; assumption.
Defined.

(** C8. The code has no special case: on a two-point path with factor 1/2
    it divides by [N - 2 = 0], so the step is [Infinity], the first point
    and the segment get opacity [NaN] and the last point [Infinity]; on a
    one-point path it divides by [-1] and the point gets [1 - f]. *)
Theorem two_point_gradual_path_divides_by_zero :
  opacity_params (graded_path (take 2 three_points))
  = Some (infinity, 0.5%float)
  /\ path_opacities
       (final (_drawPaths
          (sample_ready None (Some [graded_path (take 2 three_points)]))))
     = [Some nan; Some nan; Some infinity]
  /\ path_opacities
       (final (_drawPaths
          (sample_ready None (Some [graded_path (take 1 three_points)]))))
     = [Some 0.5%float].
Proof. split_and!; vm_compute; reflexivity. Qed.



(** C9 on the sample component. *)
Lemma theme_change_only_restyles_witness :
  _mapItems
    (final (update
       {| ch__loaded := false; ch_entities := false; ch_hass := None;
          ch_paths := false; ch_layers := None; ch_zoom := false;
          ch_themeMode := true |}
       (sample_ready (Some [EntityId "person.anna"]) None)))
  = [].
Proof.
  apply (theme_change_only_restyles
           {| ch__loaded := false; ch_entities := false; ch_hass := None;
              ch_paths := false; ch_layers := None; ch_zoom := false;
              ch_themeMode := true |}
           (sample_ready (Some [EntityId "person.anna"]) None)).
  repeat split.
Defined.

(** C1 on a person and a zone: the four objects of the first render are
    off the map after the second. *)
Lemma rerender_replaces_drawn_objects_witness :
  let s0 := sample_ready (Some [EntityId "person.anna"; home_sweet_home])
              None in
  let s1 := final (_drawEntities s0) in
  let s2 := final (_drawEntities s1) in
  _leaflet_id <$> _mapItems s1 ++ _mapZones s1 = [1; 2; 3; 4]
  /\ (forall l, l ∈ _mapItems s1 ++ _mapZones s1 ->
        _leaflet_id l ∉ attached s2)
  /\ length (_mapItems s2) = length (_mapItems s1)
  /\ length (_mapZones s2) = length (_mapZones s1).
Proof.
  intros s0 s1 s2.
  destruct (proj1 (rerender_replaces_drawn_objects s0 sample_hass eq_refl
              (ex_intro _ _ eq_refl) (ex_intro _ _ eq_refl)
              (conj (fun l Hl => False_ind _ (proj1 (elem_of_nil l) Hl))
                    (fun _ => eq_refl))))
    as (t1 & t2 & E1 & E2 & _ & _ & _ & Hoff & _ & _ & _ & _ & Li & _ & Lz).
  assert (s1 = t1) as E by (unfold s1; rewrite E1; reflexivity).
  assert (s2 = t2) as E' by (unfold s2; rewrite E, E2; reflexivity).
  rewrite E', E. split_and!; try assumption.
  rewrite <- E. vm_compute. reflexivity.
Defined.

(** The sample component after attach and acquisition can arise. *)
Lemma sample_attached_reachable ents ls : reachable (sample_attached ents ls).
Proof.
  unfold sample_attached. apply reach_settled, reach_connected, reach_initial.
Qed.

(** X1: attaching twice before the acquisition completes. *)
Lemma one_acquisition_in_flight_witness :
  inflight (run [Attach; Attach] (fresh_page (Some sample_hass) None None None))
  <= 1.
Proof.
  exact (proj2 (one_acquisition_in_flight [Attach; Attach]
                  (fresh_page (Some sample_hass) None None None) eq_refl)).
Defined.

(** X2: attach, then detach. *)
Lemma observer_follows_connection_witness :
  observer_follows
    (run [Attach; Detach] (fresh_page (Some sample_hass) None None None)).
Proof.
  exact (observer_follows_connection [Attach; Detach]
           (fresh_page (Some sample_hass) None None None)
           (or_introl (conj eq_refl eq_refl))).
Defined.

(** X3: a rejected acquisition on a new component. *)
Lemma acquisition_settles_witness :
  final (_loadMap_resume None (initial (Some sample_hass) None None None))
  = set__loading false (initial (Some sample_hass) None None None).
Proof.
  exact (proj2 (proj1 (acquisition_settles
                         (initial (Some sample_hass) None None None)))).
Defined.

(** X4: a person in focus and two overlay layers, drawn and attached. *)
Lemma fitMap_fits_bounds_witness :
  let s := final (_drawLayers None
             (final (_drawEntities
                       (sample_layered (Some [EntityId "person.anna"])
                          (Some [overlay_circle; overlay_line]))))) in
  fitMap None s
  = Normal tt
      (traced
         [call_latLngBounds [(52, 13)%float];
          call_extend (BoundsOf overlay_circle);
          call_extend (BoundsOf overlay_line);
          call_pad 0.5; call_fitBounds 14]
         s).
Proof.
  intros s.
  apply (fitMap_fits_bounds s None sample_hass [(52, 13)%float]
           [BoundsOf overlay_circle; BoundsOf overlay_line]).
  - vm_compute. eauto.
  - vm_compute. eauto.
  - reflexivity.
  - reflexivity.
  - reflexivity.
  - vm_compute. reflexivity.
  - reflexivity.
Defined.

(** X5: an overlay circle that was never put on the map. *)
Lemma fitMap_throws_on_layer_without_extent_witness :
  exists added,
    fitMap None (sample_layered None (Some [overlay_circle]))
    = Throw (traced added (sample_layered None (Some [overlay_circle])))
    /\ forallb is_region_call added = true.
Proof.
  apply (fitMap_throws_on_layer_without_extent
           (sample_layered None (Some [overlay_circle])) None sample_hass).
  - vm_compute. eauto.
  - vm_compute. eauto.
  - reflexivity.
  - reflexivity.
  - right. left. vm_compute. reflexivity.
Defined.

(** X6: one person in focus. *)
Lemma fitBounds_on_focus_positions_witness :
  let s := final (_drawEntities
                    (sample_ready (Some [EntityId "person.anna"]) None)) in
  fitBounds [(52%float, 13%float)] None s = fitMap None s.
Proof.
  intros s. apply (fitBounds_on_focus_positions s None [(52%float, 13%float)]).
  - reflexivity.
  - vm_compute. discriminate.
  - left. reflexivity.
  - reflexivity.
Defined.

(** X7: the circle stays, the line replaces the tile layer. *)
Lemma drawLayers_swaps_layers_witness :
  attached
    (final (_drawLayers (Some [overlay_circle; tile_layer])
              (sample_layered None (Some [overlay_circle; overlay_line]))))
  = {[ 101; 102 ]}.
Proof.
  rewrite (drawLayers_swaps_layers (Some [overlay_circle; tile_layer])
             (sample_layered None (Some [overlay_circle; overlay_line]))).
  vm_compute. reflexivity.
Defined.

(** X8: a changed zoom on the attached sample component. *)
Lemma zoom_update_on_reachable_witness :
  update (batch false false None false None true false)
    (sample_attached None None)
  = Normal tt
      (set_trace [call_setZoom 14%float] (sample_attached None None)).
Proof.
  exact (proj2 (zoom_update_on_reachable (sample_attached None None)
                  (batch false false None false None true false)
                  (sample_attached_reachable None None)
                  (conj eq_refl (conj eq_refl (conj eq_refl (conj eq_refl
                     (conj eq_refl (conj eq_refl eq_refl)))))))).
Defined.

(** X9 on the attached sample component. *)
Lemma styling_classes_consistent_witness :
  classes_consistent
    {| cls_dark := false; cls_forced_dark := false;
       cls_forced_light := false |}.
Proof.
  exact (styling_classes_consistent (sample_attached None None)
           (sample_attached_reachable None None) _ eq_refl).
Defined.


(** X11: entities, paths and zoom changed. *)
Lemma update_without_autoFit_keeps_viewport_witness :
  adds is_setZoom (update (batch false true None true None true false))
    (sample_ready (Some [EntityId "person.anna"]) None).
Proof.
  apply (update_without_autoFit_keeps_viewport
           (sample_ready (Some [EntityId "person.anna"]) None)
           (batch false true None true None true false));
    reflexivity.
Defined.

(** X12: a person with accuracy, a missing entity, a hidden passive zone
    and a zone. *)
Lemma entity_renderer_census_witness :
  let s := sample_attached
             (Some [EntityId "person.anna"; EntityId "sensor.missing";
                    EntityId "zone.work"; home_sweet_home]) None in
  throws (_drawEntities s) = false
  /\ length (_mapItems (final (_drawEntities s))) = 2
  /\ length (_mapFocusItems (final (_drawEntities s))) = 1
  /\ length (_mapZones (final (_drawEntities s))) = 2.
Proof.
  intros s.
  destruct (entity_renderer_census s sample_hass _
              (sample_attached_reachable _ None) eq_refl
              (ex_intro _ _ eq_refl) (ex_intro _ _ eq_refl) eq_refl)
    as (Ht & _ & Hi & Hf & Hz).
  split_and!; assumption.
Defined.

(** X13: an overlay circle handed in, not yet put on the map. *)
Lemma focus_items_never_break_fitMap_witness :
  throws (fitMap None (sample_attached None (Some [overlay_circle]))) = true.
Proof.
  apply (proj2 (proj2 (focus_items_never_break_fitMap
                         (sample_attached None (Some [overlay_circle])) None
                         (sample_attached_reachable _ _)))).
  split_and!; [vm_compute; eauto .. | reflexivity | left; reflexivity].
Defined.

(** X15 on the three-point path. *)
Lemma path_objects_style_witness :
  throws (_drawPaths (sample_ready None (Some [graded_path three_points])))
  = false.
Proof.
  exact (proj1 (path_objects_style
                  (sample_ready None (Some [graded_path three_points]))
                  sample_hass [graded_path three_points] eq_refl
                  (ex_intro _ _ eq_refl) (ex_intro _ _ eq_refl) eq_refl)).
Defined.

(** X16 on a title of four words. *)
Lemma initials_are_short_witness :
  String.length (initials "Home Sweet Home Again") <= 3.
Proof. exact (proj1 (initials_are_short "Home Sweet Home Again")). Defined.
